(** * Persistent solver bookkeeping (pyomo/solver/util.py)

    A shallow embedding of [_VarAndNamedExprCollector],
    [collect_vars_and_named_exprs] and [PersistentSolverUtils], and the
    properties of the incremental synchronisation they implement.

    Python objects are represented by their identity ([id(obj)]); a Python
    [dict] is an insertion-ordered association list; the methods of
    [PersistentSolverUtils] are computations in a state-and-exception monad
    over the solver object, the source model and the trace of the calls made
    to the abstract backend methods. *)

From Stdlib Require Import List Bool Arith ZArith Lia FunctionalExtensionality.
Import ListNotations.

Set Implicit Arguments.

(** ** Object identities *)

Definition ident := nat.

(** Keys of a dictionary: a type with a boolean equality. *)
Class EqKey (K : Type) := { keqb : K -> K -> bool }.

(** The boolean equality decides equality (identity of the object). *)
Class EqKeyLaws (K : Type) {E : EqKey K} := {
  keqb_spec : forall x y : K, reflect (x = y) (keqb x y)
}.

Arguments EqKeyLaws K {E}.

#[export] Instance EqKey_ident : EqKey ident := {| keqb := Nat.eqb |}.

(** ** Python dictionaries

    Insertion ordered: assigning to a new key appends, assigning to an
    existing key keeps its position, deleting removes the key. *)

Section Dict.
Context {K V : Type} `{EqKey K}.

Definition dict := list (K * V).

Fixpoint dict_get (k : K) (d : dict) : option V :=
    match d with
    | [] => None
    | (k', v) :: d' => if keqb k k' then Some v else dict_get k d'
    end.

Definition dict_mem (k : K) (d : dict) : bool :=
    match dict_get k d with Some _ => true | None => false end.

Fixpoint dict_set (k : K) (v : V) (d : dict) : dict :=
    match d with
    | [] => [(k, v)]
    | (k', v') :: d' =>
        if keqb k k' then (k, v) :: d' else (k', v') :: dict_set k v d'
    end.

Fixpoint dict_del (k : K) (d : dict) : dict :=
    match d with
    | [] => []
    | (k', v') :: d' =>
        if keqb k k' then dict_del k d' else (k', v') :: dict_del k d'
    end.

Definition dict_keys (d : dict) : list K := map fst d.
Definition dict_values (d : dict) : list V := map snd d.
End Dict.

Arguments dict : clear implicits.

(** Membership in a Python list or set of identities. *)
Definition mem {K} `{EqKey K} (k : K) (l : list K) : bool :=
  existsb (keqb k) l.

(** ** Expression trees

    What the walker can tell apart, in the order in which
    [visiting_potential_leaf] asks. Every node carries its identity. *)

Inductive expr : Type :=
| ENative (i : ident)                       (* type(node) in nonpyomo_leaf_types *)
| EVar (v : ident)                          (* node.is_variable_type() *)
| ENamed (i : ident) (arg : expr)           (* node.is_named_expression_type() *)
| EExternal (i : ident) (args : list expr)  (* ExternalFunctionExpression *)
| EOp (i : ident) (args : list expr)        (* node.is_expression_type() *)
| ELeaf (i : ident).                        (* any other object *)

Definition eid (e : expr) : ident :=
  match e with
  | ENative i | EVar i | ENamed i _ | EExternal i _ | EOp i _ | ELeaf i => i
  end.

(** The arguments of a node ([node._args_]). *)
Definition eargs (e : expr) : list expr :=
  match e with
  | ENamed _ arg => [arg]
  | EExternal _ args | EOp _ args => args
  | _ => []
  end.

(** [_VarAndNamedExprCollector]: the four dictionaries of the visitor. *)
Record collector := {
  named_expressions : dict ident ident;
  variables : dict ident ident;
  fixed_vars : dict ident ident;
  external_functions : dict ident ident
}.

(** [_VarAndNamedExprCollector.__init__] *)
Definition collector_init : collector :=
  {| named_expressions := []; variables := [];
     fixed_vars := []; external_functions := [] |}.

Section Walker.
  (** [node.is_fixed()] for a variable, read from the source model. *)
Variable is_fixed : ident -> bool.

  (** [visiting_potential_leaf]: the flag says whether the node is a leaf
      for the traversal; the second component is always [None]. *)
Definition visiting_potential_leaf (node : expr) (c : collector)
    : bool * collector :=
    match node with
    | ENative _ => (true, c)
    | EVar v =>
        let c1 := {| named_expressions := named_expressions c;
                     variables := dict_set v v (variables c);
                     fixed_vars := fixed_vars c;
                     external_functions := external_functions c |} in
        let c2 := if is_fixed v
                  then {| named_expressions := named_expressions c1;
                          variables := variables c1;
                          fixed_vars := dict_set v v (fixed_vars c1);
                          external_functions := external_functions c1 |}
                  else c1 in
        (true, c2)
    | ENamed i _ =>
        (false, {| named_expressions := dict_set i i (named_expressions c);
                   variables := variables c;
                   fixed_vars := fixed_vars c;
                   external_functions := external_functions c |})
    | EExternal i _ =>
        (false, {| named_expressions := named_expressions c;
                   variables := variables c;
                   fixed_vars := fixed_vars c;
                   external_functions := dict_set i i (external_functions c) |})
    | EOp _ _ => (false, c)
    | ELeaf _ => (true, c)
    end.

  (** Modelled from the spec: [ExpressionValueVisitor.dfs_postorder_stack]
      (pyomo.core.expr.visitor) is not among the sources; only the call at
      [collect_vars_and_named_exprs] is. Following section 4.1 of the
      specification, it is the depth-first, left-to-right traversal that
      asks [visiting_potential_leaf] at every node it reaches and ends at
      leaves (the nodes for which the answer is [True]) and at the
      boundary of a named sub-expression: the named node is recorded by
      [visiting_potential_leaf], and the traversal does not go further
      into it. [visit] does nothing here, so only the order of the
      questions matters. *)
Fixpoint dfs_postorder_stack (node : expr) (c : collector) : collector :=
    let (flag, c1) := visiting_potential_leaf node c in
    if flag then c1
    else
      let walk_args :=
        fix walk_args (l : list expr) (acc : collector) : collector :=
          match l with
          | [] => acc
          | sub :: l' => walk_args l' (dfs_postorder_stack sub acc)
          end in
      match node with
      | EExternal _ args | EOp _ args => walk_args args c1
      | _ => c1
      end.

  (** [collect_vars_and_named_exprs]: named expressions, variables, fixed
      variables and external functions, each in order of first visit. *)
Definition collect_vars_and_named_exprs (e : expr)
    : list ident * list ident * list ident * list ident :=
    let c := dfs_postorder_stack e collector_init in
    (dict_values (named_expressions c),
     dict_values (variables c),
     dict_values (fixed_vars c),
     dict_values (external_functions c)).
End Walker.

(** ** The source model

    Constraints of both kinds are keys of the same dictionaries of the
    solver object; the kind of a constraint object never changes. *)

Inductive conref : Type :=
| GenCon (i : ident)    (* _GeneralConstraintData *)
| SosCon (i : ident).   (* _SOSConstraintData *)

Definition conref_eqb (a b : conref) : bool :=
  match a, b with
  | GenCon i, GenCon j => Nat.eqb i j
  | SosCon i, SosCon j => Nat.eqb i j
  | _, _ => false
  end.

#[export] Instance EqKey_conref : EqKey conref := {| keqb := conref_eqb |}.

(** Keys of [_external_functions]: a constraint or an objective. *)
Inductive component : Type :=
| CompCon (c : conref)
| CompObj (o : ident).

Definition component_eqb (a b : component) : bool :=
  match a, b with
  | CompCon c, CompCon d => conref_eqb c d
  | CompObj i, CompObj j => Nat.eqb i j
  | _, _ => false
  end.

#[export] Instance EqKey_component : EqKey component :=
  {| keqb := component_eqb |}.

(** A Python number, as far as [==] and [!=] can tell: numbers that
    compare equal are the same [Num]; a float that is not a number compares
    unequal to every number, itself included. *)
Inductive number : Type :=
| Num (z : Z)
| NaN.

(** [a == b] on numbers. *)
Definition num_eqb (a b : number) : bool :=
  match a, b with
  | Num x, Num y => Z.eqb x y
  | _, _ => false
  end.

(** [a == b] on values that are [None] or a number. *)
Definition value_eqb (a b : option number) : bool :=
  match a, b with
  | None, None => true
  | Some x, Some y => num_eqb x y
  | _, _ => false
  end.

(** A bound of a constraint: [None], a [NumericConstant] with its value, or
    any other object. *)
Inductive bound : Type :=
| BNone
| BConst (i : ident) (value : number)
| BOther (i : ident).

Definition bound_id (b : bound) : option ident :=
  match b with
  | BNone => None
  | BConst i _ | BOther i => Some i
  end.

(** [a is b] on references; [None] is a single object. *)
Definition is_same (a b : option ident) : bool :=
  match a, b with
  | None, None => true
  | Some i, Some j => Nat.eqb i j
  | _, _ => false
  end.

Inductive sense : Type := minimize | maximize.

Definition sense_is (a b : option sense) : bool :=
  match a, b with
  | None, None => true
  | Some minimize, Some minimize => true
  | Some maximize, Some maximize => true
  | _, _ => false
  end.

(** [domain.get_interval()]: lower end, upper end, step; the ends of the
    interval of a domain are [None] or integers, and the step an integer. *)
Definition interval := (option Z * option Z * Z)%type.

Definition optZ_eqb (a b : option Z) : bool :=
  match a, b with
  | None, None => true
  | Some x, Some y => Z.eqb x y
  | _, _ => false
  end.

Definition interval_eqb (a b : interval) : bool :=
  let '(al, au, ast) := a in
  let '(bl, bu, bst) := b in
  optZ_eqb al bl && optZ_eqb au bu && Z.eqb ast bst.

(** The attributes of a variable that the solver object reads:
    [v._lb], [v._ub], [v.fixed], [v.domain.get_interval()], [v.value]. *)
Record var_data := {
  var_lb : option ident;
  var_ub : option ident;
  var_fixed : bool;
  var_interval : interval;
  var_value : option number
}.

(** [con.lower], [con.body], [con.upper] *)
Record con_data := {
  con_lower : bound;
  con_body : expr;
  con_upper : bound
}.

(** [obj.expr], [obj.sense] *)
Record obj_data := {
  obj_expr : expr;
  obj_sense : sense
}.

(** What the enumerations of a block yield:
    [component_objects(Param)] as pairs of [p.mutable] and [p.values()],
    and [component_data_objects] of [Var], of the active [Constraint]s,
    of the active [SOSConstraint]s and of the active [Objective]s. *)
Record block := {
  b_params : list (bool * list ident);
  b_vars : list ident;
  b_cons : list ident;
  b_sos : list ident;
  b_objectives : list ident
}.

(** The source model: the attributes of every object, by identity.
    [w_named_expr e] is the identity of the object now held in [e.expr]
    for a named expression [e]. *)
Record world := {
  w_var : ident -> var_data;
  w_con : ident -> con_data;
  w_sos_vars : ident -> list ident;
  w_obj : ident -> obj_data;
  w_named_expr : ident -> ident;
  w_block : ident -> block
}.

Definition set_fixed (b : bool) (d : var_data) : var_data :=
  {| var_lb := var_lb d; var_ub := var_ub d; var_fixed := b;
     var_interval := var_interval d; var_value := var_value d |}.

Definition set_w_var (f : ident -> var_data) (w : world) : world :=
  {| w_var := f; w_con := w_con w; w_sos_vars := w_sos_vars w;
     w_obj := w_obj w; w_named_expr := w_named_expr w;
     w_block := w_block w |}.

(** Modelled from the spec: [v.fix()] and [v.unfix()] of the source model
    (section 6, fix/unfix a variable) set and clear the fixed flag of the
    variable and leave its value and every other object alone. *)
Definition fix_var (v : ident) (w : world) : world :=
  set_w_var (fun x => if Nat.eqb x v then set_fixed true (w_var w x)
                      else w_var w x) w.

Definition unfix_var (v : ident) (w : world) : world :=
  set_w_var (fun x => if Nat.eqb x v then set_fixed false (w_var w x)
                      else w_var w x) w.

(** ** The solver object *)

(** [UpdateConfig] (pyomo.solver.config): the options [update] consults. *)
Record UpdateConfig := {
  check_for_new_or_removed_constraints : bool;
  check_for_new_or_removed_vars : bool;
  check_for_new_or_removed_params : bool;
  check_for_new_objective : bool;
  update_constraints : bool;
  update_vars : bool;
  update_params_flag : bool;             (* config.update_params *)
  update_named_expressions : bool;
  update_objective : bool;
  treat_fixed_vars_as_params : bool
}.

(** An entry of [_vars]: [(var, lb, ub, fixed, domain, value)]. *)
Record var_record := {
  r_var : ident;
  r_lb : option ident;
  r_ub : option ident;
  r_fixed : bool;
  r_interval : interval;
  r_value : option number
}.

(** An entry of [_referenced_variables]:
    [[dict of constraints, dict of sos constraints, None or objective]]. *)
Record ref_entry := {
  ref_cons : dict conref unit;
  ref_sos : dict conref unit;
  ref_obj : option ident
}.

(** An entry of [_active_constraints]: [(lower, body, upper)], where the
    body is kept for its identity only, or the empty tuple of an SOS
    constraint. *)
Definition con_record := option (bound * ident * bound).

Record state := {
  _model : option ident;
  _active_constraints : dict conref con_record;
  _vars : dict ident var_record;
  _params : dict ident ident;
  _objective : option ident;
  _objective_expr : option ident;
  _objective_sense : option sense;
  _named_expressions : dict conref (list (ident * ident));
  _external_functions : dict component (list ident);
  _obj_named_expressions : list (ident * ident);
  _update_config : UpdateConfig;
  _referenced_variables : dict ident ref_entry;
  _vars_referenced_by_con : dict conref (list ident);
  _vars_referenced_by_obj : list ident;
  _only_child_vars : bool
}.

(** [PersistentSolverUtils.__init__]; [cfg] is what [UpdateConfig()]
    returns. *)
Definition init (cfg : UpdateConfig) (only_child_vars : bool) : state :=
  {| _model := None; _active_constraints := []; _vars := []; _params := [];
     _objective := None; _objective_expr := None; _objective_sense := None;
     _named_expressions := []; _external_functions := [];
     _obj_named_expressions := []; _update_config := cfg;
     _referenced_variables := []; _vars_referenced_by_con := [];
     _vars_referenced_by_obj := []; _only_child_vars := only_child_vars |}.

(** Assignments to the attributes of the solver object. *)

Definition with_model (x : option ident) (s : state) : state :=
  {| _model := x; _active_constraints := _active_constraints s;
     _vars := _vars s; _params := _params s; _objective := _objective s;
     _objective_expr := _objective_expr s;
     _objective_sense := _objective_sense s;
     _named_expressions := _named_expressions s;
     _external_functions := _external_functions s;
     _obj_named_expressions := _obj_named_expressions s;
     _update_config := _update_config s;
     _referenced_variables := _referenced_variables s;
     _vars_referenced_by_con := _vars_referenced_by_con s;
     _vars_referenced_by_obj := _vars_referenced_by_obj s;
     _only_child_vars := _only_child_vars s |}.

Definition with_active_constraints (x : dict conref con_record) (s : state) : state :=
  {| _model := _model s; _active_constraints := x; _vars := _vars s;
     _params := _params s; _objective := _objective s;
     _objective_expr := _objective_expr s;
     _objective_sense := _objective_sense s;
     _named_expressions := _named_expressions s;
     _external_functions := _external_functions s;
     _obj_named_expressions := _obj_named_expressions s;
     _update_config := _update_config s;
     _referenced_variables := _referenced_variables s;
     _vars_referenced_by_con := _vars_referenced_by_con s;
     _vars_referenced_by_obj := _vars_referenced_by_obj s;
     _only_child_vars := _only_child_vars s |}.

Definition with_vars (x : dict ident var_record) (s : state) : state :=
  {| _model := _model s; _active_constraints := _active_constraints s;
     _vars := x; _params := _params s; _objective := _objective s;
     _objective_expr := _objective_expr s;
     _objective_sense := _objective_sense s;
     _named_expressions := _named_expressions s;
     _external_functions := _external_functions s;
     _obj_named_expressions := _obj_named_expressions s;
     _update_config := _update_config s;
     _referenced_variables := _referenced_variables s;
     _vars_referenced_by_con := _vars_referenced_by_con s;
     _vars_referenced_by_obj := _vars_referenced_by_obj s;
     _only_child_vars := _only_child_vars s |}.

Definition with_params (x : dict ident ident) (s : state) : state :=
  {| _model := _model s; _active_constraints := _active_constraints s;
     _vars := _vars s; _params := x; _objective := _objective s;
     _objective_expr := _objective_expr s;
     _objective_sense := _objective_sense s;
     _named_expressions := _named_expressions s;
     _external_functions := _external_functions s;
     _obj_named_expressions := _obj_named_expressions s;
     _update_config := _update_config s;
     _referenced_variables := _referenced_variables s;
     _vars_referenced_by_con := _vars_referenced_by_con s;
     _vars_referenced_by_obj := _vars_referenced_by_obj s;
     _only_child_vars := _only_child_vars s |}.

Definition with_objective (x : option ident) (s : state) : state :=
  {| _model := _model s; _active_constraints := _active_constraints s;
     _vars := _vars s; _params := _params s; _objective := x;
     _objective_expr := _objective_expr s;
     _objective_sense := _objective_sense s;
     _named_expressions := _named_expressions s;
     _external_functions := _external_functions s;
     _obj_named_expressions := _obj_named_expressions s;
     _update_config := _update_config s;
     _referenced_variables := _referenced_variables s;
     _vars_referenced_by_con := _vars_referenced_by_con s;
     _vars_referenced_by_obj := _vars_referenced_by_obj s;
     _only_child_vars := _only_child_vars s |}.

Definition with_objective_expr (x : option ident) (s : state) : state :=
  {| _model := _model s; _active_constraints := _active_constraints s;
     _vars := _vars s; _params := _params s; _objective := _objective s;
     _objective_expr := x; _objective_sense := _objective_sense s;
     _named_expressions := _named_expressions s;
     _external_functions := _external_functions s;
     _obj_named_expressions := _obj_named_expressions s;
     _update_config := _update_config s;
     _referenced_variables := _referenced_variables s;
     _vars_referenced_by_con := _vars_referenced_by_con s;
     _vars_referenced_by_obj := _vars_referenced_by_obj s;
     _only_child_vars := _only_child_vars s |}.

Definition with_objective_sense (x : option sense) (s : state) : state :=
  {| _model := _model s; _active_constraints := _active_constraints s;
     _vars := _vars s; _params := _params s; _objective := _objective s;
     _objective_expr := _objective_expr s; _objective_sense := x;
     _named_expressions := _named_expressions s;
     _external_functions := _external_functions s;
     _obj_named_expressions := _obj_named_expressions s;
     _update_config := _update_config s;
     _referenced_variables := _referenced_variables s;
     _vars_referenced_by_con := _vars_referenced_by_con s;
     _vars_referenced_by_obj := _vars_referenced_by_obj s;
     _only_child_vars := _only_child_vars s |}.

Definition with_named_expressions (x : dict conref (list (ident * ident))) (s : state) : state :=
  {| _model := _model s; _active_constraints := _active_constraints s;
     _vars := _vars s; _params := _params s; _objective := _objective s;
     _objective_expr := _objective_expr s;
     _objective_sense := _objective_sense s; _named_expressions := x;
     _external_functions := _external_functions s;
     _obj_named_expressions := _obj_named_expressions s;
     _update_config := _update_config s;
     _referenced_variables := _referenced_variables s;
     _vars_referenced_by_con := _vars_referenced_by_con s;
     _vars_referenced_by_obj := _vars_referenced_by_obj s;
     _only_child_vars := _only_child_vars s |}.

Definition with_external_functions (x : dict component (list ident)) (s : state) : state :=
  {| _model := _model s; _active_constraints := _active_constraints s;
     _vars := _vars s; _params := _params s; _objective := _objective s;
     _objective_expr := _objective_expr s;
     _objective_sense := _objective_sense s;
     _named_expressions := _named_expressions s; _external_functions := x;
     _obj_named_expressions := _obj_named_expressions s;
     _update_config := _update_config s;
     _referenced_variables := _referenced_variables s;
     _vars_referenced_by_con := _vars_referenced_by_con s;
     _vars_referenced_by_obj := _vars_referenced_by_obj s;
     _only_child_vars := _only_child_vars s |}.

Definition with_obj_named_expressions (x : list (ident * ident)) (s : state) : state :=
  {| _model := _model s; _active_constraints := _active_constraints s;
     _vars := _vars s; _params := _params s; _objective := _objective s;
     _objective_expr := _objective_expr s;
     _objective_sense := _objective_sense s;
     _named_expressions := _named_expressions s;
     _external_functions := _external_functions s;
     _obj_named_expressions := x; _update_config := _update_config s;
     _referenced_variables := _referenced_variables s;
     _vars_referenced_by_con := _vars_referenced_by_con s;
     _vars_referenced_by_obj := _vars_referenced_by_obj s;
     _only_child_vars := _only_child_vars s |}.

Definition with_update_config (x : UpdateConfig) (s : state) : state :=
  {| _model := _model s; _active_constraints := _active_constraints s;
     _vars := _vars s; _params := _params s; _objective := _objective s;
     _objective_expr := _objective_expr s;
     _objective_sense := _objective_sense s;
     _named_expressions := _named_expressions s;
     _external_functions := _external_functions s;
     _obj_named_expressions := _obj_named_expressions s; _update_config := x;
     _referenced_variables := _referenced_variables s;
     _vars_referenced_by_con := _vars_referenced_by_con s;
     _vars_referenced_by_obj := _vars_referenced_by_obj s;
     _only_child_vars := _only_child_vars s |}.

Definition with_referenced_variables (x : dict ident ref_entry) (s : state) : state :=
  {| _model := _model s; _active_constraints := _active_constraints s;
     _vars := _vars s; _params := _params s; _objective := _objective s;
     _objective_expr := _objective_expr s;
     _objective_sense := _objective_sense s;
     _named_expressions := _named_expressions s;
     _external_functions := _external_functions s;
     _obj_named_expressions := _obj_named_expressions s;
     _update_config := _update_config s; _referenced_variables := x;
     _vars_referenced_by_con := _vars_referenced_by_con s;
     _vars_referenced_by_obj := _vars_referenced_by_obj s;
     _only_child_vars := _only_child_vars s |}.

Definition with_vars_referenced_by_con (x : dict conref (list ident)) (s : state) : state :=
  {| _model := _model s; _active_constraints := _active_constraints s;
     _vars := _vars s; _params := _params s; _objective := _objective s;
     _objective_expr := _objective_expr s;
     _objective_sense := _objective_sense s;
     _named_expressions := _named_expressions s;
     _external_functions := _external_functions s;
     _obj_named_expressions := _obj_named_expressions s;
     _update_config := _update_config s;
     _referenced_variables := _referenced_variables s;
     _vars_referenced_by_con := x;
     _vars_referenced_by_obj := _vars_referenced_by_obj s;
     _only_child_vars := _only_child_vars s |}.

Definition with_vars_referenced_by_obj (x : list ident) (s : state) : state :=
  {| _model := _model s; _active_constraints := _active_constraints s;
     _vars := _vars s; _params := _params s; _objective := _objective s;
     _objective_expr := _objective_expr s;
     _objective_sense := _objective_sense s;
     _named_expressions := _named_expressions s;
     _external_functions := _external_functions s;
     _obj_named_expressions := _obj_named_expressions s;
     _update_config := _update_config s;
     _referenced_variables := _referenced_variables s;
     _vars_referenced_by_con := _vars_referenced_by_con s;
     _vars_referenced_by_obj := x; _only_child_vars := _only_child_vars s |}.
(** ** Calls to the backend, exceptions and the monad *)

(** The abstract methods of [PersistentSolverUtils], as the calls a
    subclass receives. *)
Inductive event : Type :=
| AddVariables (l : list ident)          (* _add_variables *)
| AddParams (l : list ident)             (* _add_params *)
| AddConstraints (l : list conref)       (* _add_constraints *)
| AddSosConstraints (l : list conref)    (* _add_sos_constraints *)
| SetObjective (o : option ident)        (* _set_objective *)
| RemoveConstraints (l : list conref)    (* _remove_constraints *)
| RemoveSosConstraints (l : list conref) (* _remove_sos_constraints *)
| RemoveVariables (l : list ident)       (* _remove_variables *)
| RemoveParams (l : list ident)          (* _remove_params *)
| UpdateVariables (l : list ident)       (* _update_variables *)
| UpdateParams.                          (* update_params *)

Inductive exn : Type :=
| AlreadyAdded        (* ValueError: ... has already been added *)
| NotAdded            (* ValueError: cannot remove ... - it was not added *)
| StillUsed           (* ValueError: cannot remove variable ... still being used *)
| MultipleObjectives  (* ValueError: Multiple active objectives found *)
| KeyError
| AttributeError
| UnpackError         (* ValueError: not enough values to unpack *)
| BackendError.       (* whatever an abstract method raises *)

Inductive result (A : Type) : Type :=
| Ok (a : A)
| Raise (e : exn).

Arguments Ok {A} a.
Arguments Raise {A} e.

(** The solver object, the source model and the calls made so far. *)
Record sys := {
  solver : state;
  source : world;
  trace : list event
}.

Definition M (A : Type) : Type := sys -> sys * result A.

Definition ret {A} (a : A) : M A := fun s => (s, Ok a).

Definition raise {A} (e : exn) : M A := fun s => (s, Raise e).

Definition bind {A B} (m : M A) (k : A -> M B) : M B :=
  fun s =>
    match m s with
    | (s1, Ok a) => k a s1
    | (s1, Raise e) => (s1, Raise e)
    end.

Declare Scope py_scope.
Delimit Scope py_scope with py.
Notation "x <- m ;; k" := (bind m (fun x => k))
  (at level 61, m at next level, right associativity) : py_scope.
Notation "' p <- m ;; k" := (bind m (fun x => match x with p => k end))
  (at level 61, p pattern, m at next level, right associativity) : py_scope.
Notation "m ;; k" := (bind m (fun _ => k))
  (at level 61, right associativity) : py_scope.
Open Scope py_scope.

Definition get : M state := fun s => (s, Ok (solver s)).

Definition get_world : M world := fun s => (s, Ok (source s)).

Definition modify (f : state -> state) : M unit :=
  fun s => ({| solver := f (solver s); source := source s;
               trace := trace s |}, Ok tt).

Definition modify_world (f : world -> world) : M unit :=
  fun s => ({| solver := solver s; source := f (source s);
               trace := trace s |}, Ok tt).

Definition when (b : bool) (m : M unit) : M unit :=
  if b then m else ret tt.

(** [for x in l: f x] *)
Fixpoint for_each {A} (f : A -> M unit) (l : list A) : M unit :=
  match l with
  | [] => ret tt
  | x :: l' => f x ;; for_each f l'
  end.

(** A loop that carries the local variables [b]. *)
Fixpoint fold_each {A B} (f : A -> B -> M B) (l : list A) (b : B) : M B :=
  match l with
  | [] => ret b
  | x :: l' => b1 <- f x b ;; fold_each f l' b1
  end.

(** [d[k]] *)
Definition lookup {K V} `{EqKey K} (k : K) (d : dict K V) : M V :=
  match dict_get k d with
  | Some v => ret v
  | None => raise KeyError
  end.

(** [{id(x): x for x in l}] and [{c: None for c in l}] *)
Definition dict_of_ids {K} `{EqKey K} (l : list K) : dict K K :=
  fold_left (fun d x => dict_set x x d) l [].

Definition dict_of_keys {K} `{EqKey K} (l : list K) : dict K unit :=
  fold_left (fun d x => dict_set x tt d) l [].

Definition is_some {A} (o : option A) : bool :=
  match o with Some _ => true | None => false end.

(** [len(d) == 0] *)
Definition is_empty {A} (l : list A) : bool :=
  match l with [] => true | _ => false end.

(** [(v, v._lb, v._ub, v.fixed, v.domain.get_interval(), v.value)] *)
Definition var_snapshot (w : world) (v : ident) : var_record :=
  let d := w_var w v in
  {| r_var := v; r_lb := var_lb d; r_ub := var_ub d; r_fixed := var_fixed d;
     r_interval := var_interval d; r_value := var_value d |}.

Definition empty_refs : ref_entry :=
  {| ref_cons := []; ref_sos := []; ref_obj := None |}.

(** The attributes of a general constraint; an SOS constraint has none of
    them. *)
Definition con_attrs (con : conref) : M con_data :=
  match con with
  | GenCon i => w <- get_world ;; ret (w_con w i)
  | SosCon _ => raise AttributeError
  end.

(** [con.get_variables()], of an SOS constraint only. *)
Definition get_variables (con : conref) : M (list ident) :=
  match con with
  | SosCon i => w <- get_world ;; ret (w_sos_vars w i)
  | GenCon _ => raise AttributeError
  end.

(** [self._model], dereferenced. *)
Definition model_block : M block :=
  s <- get ;;
  match _model s with
  | Some b => w <- get_world ;; ret (w_block w b)
  | None => raise AttributeError
  end.

(** [get_objective(block)] *)
Definition get_objective (b : block) : M (option ident) :=
  fold_each (fun o obj =>
               match obj with
               | Some _ => raise MultipleObjectives
               | None => ret (Some o)
               end) (b_objectives b) None.

(** The mutable parameters of a block, as in [add_block] and [update]:
    [param_dict[id(_p)] = _p] for every value of every mutable [Param]. *)
Definition mutable_params (b : block) : dict ident ident :=
  fold_left (fun (d : dict ident ident) (p : bool * list ident) =>
               if fst p then fold_left (fun d _p => dict_set _p _p d) (snd p) d
               else d) (b_params b) [].

(** Every parameter of a block, as in [remove_block]. *)
Definition all_params (b : block) : dict ident ident :=
  dict_of_ids (concat (map snd (b_params b))).

(** The comparison of a bound with its record in [update]:
    [new is old], or both are [NumericConstant]s of equal value. *)
Definition bound_unchanged (new old : bound) : bool :=
  if negb (is_same (bound_id new) (bound_id old)) then
    match new, old with
    | BConst _ x, BConst _ y => num_eqb x y
    | _, _ => false
    end
  else true.

(** Whether [update] puts a constraint into [cons_to_remove_and_add]. *)
Definition constraint_changed (rec : bound * ident * bound) (cd : con_data)
  : bool :=
  let '(lower, body, upper) := rec in
  if negb (Nat.eqb (eid (con_body cd)) body) then true
  else if negb (bound_unchanged (con_lower cd) lower) then true
  else if negb (bound_unchanged (con_upper cd) upper) then true
  else false.

(** [named_expr.expr is not old_expr] for some pair of the list. *)
Definition named_changed (w : world) (expr_list : list (ident * ident))
  : bool :=
  existsb (fun p => negb (Nat.eqb (w_named_expr w (fst p)) (snd p))) expr_list.

Section Backend.
  (** Whether the backend carries out a call or raises, given the calls
      made before it. *)
Variable accepts : list event -> event -> bool.

Definition backend (ev : event) : M unit :=
    fun s =>
      ({| solver := solver s; source := source s;
          trace := trace s ++ [ev] |},
       if accepts (trace s) ev then Ok tt else Raise BackendError).

Definition _add_variables l := backend (AddVariables l).
Definition _add_params l := backend (AddParams l).
Definition _add_constraints l := backend (AddConstraints l).
Definition _add_sos_constraints l := backend (AddSosConstraints l).
Definition _set_objective o := backend (SetObjective o).
Definition _remove_constraints l := backend (RemoveConstraints l).
Definition _remove_sos_constraints l := backend (RemoveSosConstraints l).
Definition _remove_variables l := backend (RemoveVariables l).
Definition _remove_params l := backend (RemoveParams l).
Definition _update_variables l := backend (UpdateVariables l).
Definition update_params := backend UpdateParams.

  (** One turn of the loop of [add_variables]. *)
Definition add_variable (v : ident) : M unit :=
    s <- get ;;
    if dict_mem v (_referenced_variables s) then raise AlreadyAdded
    else
      w <- get_world ;;
      modify (fun s => with_referenced_variables
                         (dict_set v empty_refs (_referenced_variables s)) s) ;;
      modify (fun s => with_vars (dict_set v (var_snapshot w v) (_vars s)) s).

Definition add_variables (variables : list ident) : M unit :=
    for_each add_variable variables ;;
    _add_variables variables.

Definition add_params (params : list ident) : M unit :=
    for_each (fun p => modify (fun s => with_params (dict_set p p (_params s)) s))
             params ;;
    _add_params params.

Definition _check_for_new_vars (variables : list ident) : M unit :=
    s <- get ;;
    let new_vars :=
      fold_left (fun d v => if negb (dict_mem v (_referenced_variables s))
                            then dict_set v v d else d) variables [] in
    add_variables (dict_values new_vars).

  (** One turn of the loop of [remove_variables]. *)
Definition remove_variable (v : ident) : M unit :=
    s <- get ;;
    match dict_get v (_referenced_variables s) with
    | None => raise NotAdded
    | Some r =>
        if negb (is_empty (ref_cons r)) || negb (is_empty (ref_sos r))
           || is_some (ref_obj r)
        then raise StillUsed
        else
          modify (fun s => with_referenced_variables
                             (dict_del v (_referenced_variables s)) s) ;;
          if dict_mem v (_vars s)
          then modify (fun s => with_vars (dict_del v (_vars s)) s)
          else raise KeyError
    end.

Definition remove_variables (variables : list ident) : M unit :=
    _remove_variables variables ;;
    for_each remove_variable variables.

Definition _check_to_remove_vars (variables : list ident) : M unit :=
    vars_to_remove <-
      fold_each (fun v d =>
                   s <- get ;;
                   r <- lookup v (_referenced_variables s) ;;
                   if is_empty (ref_cons r) && is_empty (ref_sos r)
                      && negb (is_some (ref_obj r))
                   then ret (dict_set v v d) else ret d)
                variables [] ;;
    remove_variables (dict_values vars_to_remove).

  (** [self._referenced_variables[id(v)][0][con] = None] *)
Definition link_con (con : conref) (v : ident) : M unit :=
    s <- get ;;
    r <- lookup v (_referenced_variables s) ;;
    modify (fun s => with_referenced_variables
      (dict_set v {| ref_cons := dict_set con tt (ref_cons r);
                     ref_sos := ref_sos r; ref_obj := ref_obj r |}
                (_referenced_variables s)) s).

  (** [self._referenced_variables[id(v)][1][con] = None] *)
Definition link_sos (con : conref) (v : ident) : M unit :=
    s <- get ;;
    r <- lookup v (_referenced_variables s) ;;
    modify (fun s => with_referenced_variables
      (dict_set v {| ref_cons := ref_cons r;
                     ref_sos := dict_set con tt (ref_sos r);
                     ref_obj := ref_obj r |}
                (_referenced_variables s)) s).

  (** [self._referenced_variables[id(v)][2] = obj] *)
Definition link_obj (obj : option ident) (v : ident) : M unit :=
    s <- get ;;
    r <- lookup v (_referenced_variables s) ;;
    modify (fun s => with_referenced_variables
      (dict_set v {| ref_cons := ref_cons r; ref_sos := ref_sos r;
                     ref_obj := obj |}
                (_referenced_variables s)) s).

  (** [self._referenced_variables[id(v)][0].pop(con)] *)
Definition unlink_con (con : conref) (v : ident) : M unit :=
    s <- get ;;
    r <- lookup v (_referenced_variables s) ;;
    if dict_mem con (ref_cons r) then
      modify (fun s => with_referenced_variables
        (dict_set v {| ref_cons := dict_del con (ref_cons r);
                       ref_sos := ref_sos r; ref_obj := ref_obj r |}
                  (_referenced_variables s)) s)
    else raise KeyError.

  (** [self._referenced_variables[id(v)][1].pop(con)] *)
Definition unlink_sos (con : conref) (v : ident) : M unit :=
    s <- get ;;
    r <- lookup v (_referenced_variables s) ;;
    if dict_mem con (ref_sos r) then
      modify (fun s => with_referenced_variables
        (dict_set v {| ref_cons := ref_cons r;
                       ref_sos := dict_del con (ref_sos r);
                       ref_obj := ref_obj r |}
                  (_referenced_variables s)) s)
    else raise KeyError.

  (** One turn of the first loop of [add_constraints]; [all_fixed_vars]
      is the dictionary the loop fills. *)
Definition add_constraint (con : conref) (all_fixed_vars : dict ident ident)
    : M (dict ident ident) :=
    s <- get ;;
    if dict_mem con (_named_expressions s) then raise AlreadyAdded
    else
      cd <- con_attrs con ;;
      modify (fun s => with_active_constraints
        (dict_set con (Some (con_lower cd, eid (con_body cd), con_upper cd))
                  (_active_constraints s)) s) ;;
      w <- get_world ;;
      let '(named_exprs, variables, fixed_vars, external_functions) :=
        collect_vars_and_named_exprs (fun v => var_fixed (w_var w v))
                                     (con_body cd) in
      when (negb (_only_child_vars s)) (_check_for_new_vars variables) ;;
      modify (fun s => with_named_expressions
        (dict_set con (map (fun e => (e, w_named_expr w e)) named_exprs)
                  (_named_expressions s)) s) ;;
      when (negb (is_empty external_functions))
        (modify (fun s => with_external_functions
           (dict_set (CompCon con) external_functions
                     (_external_functions s)) s)) ;;
      modify (fun s => with_vars_referenced_by_con
        (dict_set con variables (_vars_referenced_by_con s)) s) ;;
      for_each (link_con con) variables ;;
      if negb (treat_fixed_vars_as_params (_update_config s)) then
        fold_each (fun v d => modify_world (unfix_var v) ;;
                              ret (dict_set v v d))
                  fixed_vars all_fixed_vars
      else ret all_fixed_vars.

Definition add_constraints (cons : list conref) : M unit :=
    all_fixed_vars <- fold_each add_constraint cons [] ;;
    _add_constraints cons ;;
    for_each (fun v => modify_world (fix_var v)) (dict_values all_fixed_vars).

  (** One turn of the loop of [add_sos_constraints]. *)
Definition add_sos_constraint (con : conref) : M unit :=
    s <- get ;;
    if dict_mem con (_vars_referenced_by_con s) then raise AlreadyAdded
    else
      modify (fun s => with_active_constraints
                         (dict_set con None (_active_constraints s)) s) ;;
      variables <- get_variables con ;;
      when (negb (_only_child_vars s)) (_check_for_new_vars variables) ;;
      modify (fun s => with_named_expressions
                         (dict_set con [] (_named_expressions s)) s) ;;
      modify (fun s => with_vars_referenced_by_con
        (dict_set con variables (_vars_referenced_by_con s)) s) ;;
      for_each (link_sos con) variables.

Definition add_sos_constraints (cons : list conref) : M unit :=
    for_each add_sos_constraint cons ;;
    _add_sos_constraints cons.

Definition set_objective (obj : option ident) : M unit :=
    s <- get ;;
    match _objective s with
    | Some old =>
        for_each (link_obj None) (_vars_referenced_by_obj s) ;;
        when (negb (_only_child_vars s))
             (_check_to_remove_vars (_vars_referenced_by_obj s)) ;;
        modify (fun s => with_external_functions
                  (dict_del (CompObj old) (_external_functions s)) s)
    | None => ret tt
    end ;;
    match obj with
    | Some o =>
        w <- get_world ;;
        let od := w_obj w o in
        modify (with_objective (Some o)) ;;
        modify (with_objective_expr (Some (eid (obj_expr od)))) ;;
        modify (with_objective_sense (Some (obj_sense od))) ;;
        let '(named_exprs, variables, fixed_vars, external_functions) :=
          collect_vars_and_named_exprs (fun v => var_fixed (w_var w v))
                                       (obj_expr od) in
        when (negb (_only_child_vars s)) (_check_for_new_vars variables) ;;
        modify (with_obj_named_expressions
                  (map (fun i => (i, w_named_expr w i)) named_exprs)) ;;
        when (negb (is_empty external_functions))
          (modify (fun s => with_external_functions
             (dict_set (CompObj o) external_functions
                       (_external_functions s)) s)) ;;
        modify (with_vars_referenced_by_obj variables) ;;
        for_each (link_obj (Some o)) variables ;;
        when (negb (treat_fixed_vars_as_params (_update_config s)))
             (for_each (fun v => modify_world (unfix_var v)) fixed_vars) ;;
        _set_objective (Some o) ;;
        for_each (fun v => modify_world (fix_var v)) fixed_vars
    | None =>
        modify (with_vars_referenced_by_obj []) ;;
        modify (with_objective None) ;;
        modify (with_objective_expr None) ;;
        modify (with_objective_sense None) ;;
        modify (with_obj_named_expressions []) ;;
        _set_objective None
    end.

Definition add_block (blk : ident) : M unit :=
    w <- get_world ;;
    let b := w_block w blk in
    add_params (dict_values (mutable_params b)) ;;
    s <- get ;;
    when (_only_child_vars s)
         (add_variables (dict_values (dict_of_ids (b_vars b)))) ;;
    add_constraints (map GenCon (b_cons b)) ;;
    add_sos_constraints (map SosCon (b_sos b)) ;;
    obj <- get_objective b ;;
    match obj with
    | Some o => set_objective (Some o)
    | None => ret tt
    end.

  (** [del d[k]] for the dictionary read by [rd] and assigned by [wr]. *)
Definition del_item {K V} `{EqKey K} (rd : state -> dict K V)
             (wr : dict K V -> state -> state) (k : K) : M unit :=
    s <- get ;;
    if dict_mem k (rd s) then modify (fun s => wr (dict_del k (rd s)) s)
    else raise KeyError.

  (** One turn of the loop of [remove_constraints]. *)
Definition remove_constraint (con : conref) : M unit :=
    s <- get ;;
    if negb (dict_mem con (_named_expressions s)) then raise NotAdded
    else
      vs <- lookup con (_vars_referenced_by_con s) ;;
      for_each (unlink_con con) vs ;;
      when (negb (_only_child_vars s)) (_check_to_remove_vars vs) ;;
      del_item _active_constraints with_active_constraints con ;;
      del_item _named_expressions with_named_expressions con ;;
      modify (fun s => with_external_functions
                (dict_del (CompCon con) (_external_functions s)) s) ;;
      del_item _vars_referenced_by_con with_vars_referenced_by_con con.

Definition remove_constraints (cons : list conref) : M unit :=
    _remove_constraints cons ;;
    for_each remove_constraint cons.

  (** One turn of the loop of [remove_sos_constraints]. *)
Definition remove_sos_constraint (con : conref) : M unit :=
    s <- get ;;
    if negb (dict_mem con (_vars_referenced_by_con s)) then raise NotAdded
    else
      vs <- lookup con (_vars_referenced_by_con s) ;;
      for_each (unlink_sos con) vs ;;
      _check_to_remove_vars vs ;;
      del_item _active_constraints with_active_constraints con ;;
      del_item _named_expressions with_named_expressions con ;;
      del_item _vars_referenced_by_con with_vars_referenced_by_con con.

Definition remove_sos_constraints (cons : list conref) : M unit :=
    _remove_sos_constraints cons ;;
    for_each remove_sos_constraint cons.

Definition remove_params (params : list ident) : M unit :=
    _remove_params params ;;
    for_each (del_item _params with_params) params.

Definition remove_block (blk : ident) : M unit :=
    w <- get_world ;;
    let b := w_block w blk in
    remove_constraints (map GenCon (b_cons b)) ;;
    remove_sos_constraints (map SosCon (b_sos b)) ;;
    s <- get ;;
    when (_only_child_vars s)
         (remove_variables (dict_values (dict_of_ids (b_vars b)))) ;;
    remove_params (dict_values (all_params b)).

Definition update_variables (variables : list ident) : M unit :=
    for_each (fun v =>
                w <- get_world ;;
                modify (fun s => with_vars
                                   (dict_set v (var_snapshot w v) (_vars s)) s))
             variables ;;
    _update_variables variables.

  (** [set_instance(model)]: [__init__] is called without arguments, so
      [_only_child_vars] becomes [False]; the configuration is kept. *)
Definition set_instance (mdl : ident) : M unit :=
    s <- get ;;
    let saved_update_config := _update_config s in
    modify (fun _ => init saved_update_config false) ;;
    modify (with_model (Some mdl)) ;;
    add_block mdl ;;
    s1 <- get ;;
    match _objective s1 with
    | None => set_objective None
    | Some _ => ret tt
    end.

  (** The body of the loop of [update] over [cons_to_update]. *)
Definition check_constraint (c : conref) (cons_to_remove_and_add : dict conref unit)
    : M (dict conref unit) :=
    s <- get ;;
    rec <- lookup c (_active_constraints s) ;;
    match rec with
    | None => raise UnpackError
    | Some r =>
        cd <- con_attrs c ;;
        ret (if constraint_changed r cd
             then dict_set c tt cons_to_remove_and_add
             else cons_to_remove_and_add)
    end.

  (** The body of the loop of [update] over [vars_to_check]; the locals
      carried are [vars_to_update], [cons_to_remove_and_add] and
      [need_to_set_objective]. *)
Definition check_variable (v : ident)
             (acc : list ident * dict conref unit * bool)
    : M (list ident * dict conref unit * bool) :=
    let '(vars_to_update, cons_to_remove_and_add, need_to_set_objective) :=
      acc in
    s <- get ;;
    w <- get_world ;;
    r <- lookup v (_vars s) ;;
    let d := w_var w v in
    if negb (is_same (r_lb r) (var_lb d)) then
      ret (vars_to_update ++ [v], cons_to_remove_and_add,
           need_to_set_objective)
    else if negb (is_same (r_ub r) (var_ub d)) then
      ret (vars_to_update ++ [v], cons_to_remove_and_add,
           need_to_set_objective)
    else if negb (Bool.eqb (r_fixed r) (var_fixed d))
            || (r_fixed r && negb (value_eqb (r_value r) (var_value d))) then
      if treat_fixed_vars_as_params (_update_config s) then
        e <- lookup v (_referenced_variables s) ;;
        ret (vars_to_update ++ [v],
             fold_left (fun d c => dict_set c tt d) (dict_keys (ref_cons e))
                       cons_to_remove_and_add,
             if is_some (ref_obj e) then true else need_to_set_objective)
      else
        ret (vars_to_update ++ [v], cons_to_remove_and_add,
             need_to_set_objective)
    else if negb (interval_eqb (r_interval r) (var_interval d)) then
      ret (vars_to_update ++ [v], cons_to_remove_and_add,
           need_to_set_objective)
    else ret acc.

Definition update : M unit :=
    s0 <- get ;;
    let config := _update_config s0 in
    let only_child_vars := _only_child_vars s0 in
    (* vars *)
    '(current_vars_dict, new_vars, old_vars) <-
      (if only_child_vars
          && (check_for_new_or_removed_vars config || update_vars config)
       then
         b <- model_block ;;
         let current_vars_dict := dict_of_ids (b_vars b) in
         ret (current_vars_dict,
              map snd
                  (filter (fun kv => negb (dict_mem (fst kv) (_vars s0)))
                          current_vars_dict),
              map (fun kv => r_var (snd kv))
                  (filter (fun kv => negb (dict_mem (fst kv) current_vars_dict))
                          (_vars s0)))
       else ret ([], [], [])) ;;
    let start_vars : dict ident var_record :=
      if only_child_vars
         && (check_for_new_or_removed_vars config || update_vars config)
      then []
      else if update_vars config then _vars s0 else [] in
    (* params *)
    '(new_params, old_params) <-
      (if check_for_new_or_removed_params config then
         b <- model_block ;;
         let current_params_dict := mutable_params b in
         ret (map snd
                  (filter (fun kv => negb (dict_mem (fst kv) (_params s0)))
                          current_params_dict),
              map snd
                  (filter (fun kv => negb (dict_mem (fst kv) current_params_dict))
                          (_params s0)))
       else ret ([], [])) ;;
    (* cons *)
    '(current_cons_dict, current_sos_dict, new_cons, new_sos, old) <-
      (if check_for_new_or_removed_constraints config
          || update_constraints config
       then
         b <- model_block ;;
         let current_cons_dict := dict_of_keys (map GenCon (b_cons b)) in
         let current_sos_dict := dict_of_keys (map SosCon (b_sos b)) in
         ret (current_cons_dict, current_sos_dict,
              filter (fun c => negb (dict_mem c (_vars_referenced_by_con s0)))
                     (dict_keys current_cons_dict),
              filter (fun c => negb (dict_mem c (_vars_referenced_by_con s0)))
                     (dict_keys current_sos_dict),
              filter (fun c => negb (dict_mem c current_cons_dict)
                               && negb (dict_mem c current_sos_dict))
                     (dict_keys (_vars_referenced_by_con s0)))
       else ret ([], [], [], [], [])) ;;
    let old_cons :=
      filter (fun c => match c with GenCon _ => true | SosCon _ => false end)
             old in
    let old_sos :=
      filter (fun c => match c with GenCon _ => false | SosCon _ => true end)
             old in
    remove_constraints old_cons ;;
    remove_sos_constraints old_sos ;;
    (* params *)
    remove_params old_params ;;
    when (update_params_flag config) update_params ;;
    add_params new_params ;;
    (* vars *)
    add_variables new_vars ;;
    (* cons *)
    add_constraints new_cons ;;
    add_sos_constraints new_sos ;;
    cons_to_remove_and_add <-
      (if update_constraints config then
         let cons_to_update :=
           filter (fun c => negb (mem c new_cons))
                  (dict_keys current_cons_dict) in
         let sos_to_update :=
           filter (fun c => negb (mem c new_sos))
                  (dict_keys current_sos_dict) in
         d <- fold_each check_constraint cons_to_update [] ;;
         remove_sos_constraints sos_to_update ;;
         add_sos_constraints sos_to_update ;;
         ret d
       else ret []) ;;
    (* vars *)
    s1 <- get ;;
    let vars_to_check :=
      if only_child_vars && update_vars config then
        map snd (filter (fun kv => negb (mem (fst kv) new_vars))
                        current_vars_dict)
      else if update_vars config then
        map (fun kv => r_var (snd kv))
            (filter (fun kv => dict_mem (fst kv) start_vars) (_vars s1))
      else [] in
    '(cons_to_remove_and_add, need_to_set_objective) <-
      (if update_vars config then
         '(vars_to_update, cons_to_remove_and_add, need_to_set_objective) <-
           fold_each check_variable vars_to_check
                     ([], cons_to_remove_and_add, false) ;;
         update_variables vars_to_update ;;
         ret (cons_to_remove_and_add, need_to_set_objective)
       else ret (cons_to_remove_and_add, false)) ;;
    (* cons *)
    let cons_to_remove_and_add := dict_keys cons_to_remove_and_add in
    remove_constraints cons_to_remove_and_add ;;
    add_constraints cons_to_remove_and_add ;;
    (* named expressions *)
    need_to_set_objective <-
      (if update_named_expressions config then
         s2 <- get ;;
         w <- get_world ;;
         let cons_to_update :=
           map fst
               (filter (fun ce => negb (mem (fst ce) new_cons)
                                  && named_changed w (snd ce))
                       (_named_expressions s2)) in
         remove_constraints cons_to_update ;;
         add_constraints cons_to_update ;;
         s3 <- get ;;
         w3 <- get_world ;;
         ret (if named_changed w3 (_obj_named_expressions s3) then true
              else need_to_set_objective)
       else ret need_to_set_objective) ;;
    (* objective *)
    s4 <- get ;;
    '(pyomo_obj, need_to_set_objective) <-
      (if check_for_new_objective config then
         b <- model_block ;;
         pyomo_obj <- get_objective b ;;
         ret (pyomo_obj,
              if negb (is_same pyomo_obj (_objective s4)) then true
              else need_to_set_objective)
       else ret (_objective s4, need_to_set_objective)) ;;
    w <- get_world ;;
    let need_to_set_objective :=
      if update_objective config then
        match pyomo_obj with
        | Some o =>
            if negb (is_same (Some (eid (obj_expr (w_obj w o))))
                             (_objective_expr s4)) then true
            else if negb (sense_is (Some (obj_sense (w_obj w o)))
                                   (_objective_sense s4)) then true
            else need_to_set_objective
        | None => need_to_set_objective
        end
      else need_to_set_objective in
    when need_to_set_objective (set_objective pyomo_obj) ;;
    (* vars *)
    remove_variables old_vars.
End Backend.


(** ** What occurs in an expression tree

    The variable leaves of a tree; then the variable leaves and the
    external function calls that are not inside a named expression, and
    the named expressions that are not inside another. *)

Fixpoint var_leaves (e : expr) : list ident :=
  match e with
  | EVar v => [v]
  | ENamed _ arg => var_leaves arg
  | EExternal _ args | EOp _ args => flat_map var_leaves args
  | ENative _ | ELeaf _ => []
  end.

Fixpoint var_leaves_outside_named (e : expr) : list ident :=
  match e with
  | EVar v => [v]
  | ENamed _ _ => []
  | EExternal _ args | EOp _ args => flat_map var_leaves_outside_named args
  | ENative _ | ELeaf _ => []
  end.

Fixpoint external_nodes_outside_named (e : expr) : list ident :=
  match e with
  | EExternal i args => i :: flat_map external_nodes_outside_named args
  | EOp _ args => flat_map external_nodes_outside_named args
  | ENative _ | EVar _ | ENamed _ _ | ELeaf _ => []
  end.

Fixpoint outermost_named (e : expr) : list ident :=
  match e with
  | ENamed i _ => [i]
  | EExternal _ args | EOp _ args => flat_map outermost_named args
  | ENative _ | EVar _ | ELeaf _ => []
  end.

(** A dictionary from identities to the objects themselves. *)
Definition id_dict (d : dict ident ident) : Prop :=
  forall k v, In (k, v) d -> k = v.

(** ** Statements about computations *)

(** [preserves I m]: [I] holds after [m], however [m] ends. *)
Definition preserves {A} (I : sys -> Prop) (m : M A) : Prop :=
  forall s, I s -> I (fst (m s)).

(** The bound comparison rule: the same object, or two numeric constants
    of equal value. *)
Definition same_bound (new old : bound) : Prop :=
  bound_id new = bound_id old \/
  exists i j x y, new = BConst i x /\ old = BConst j y /\ num_eqb x y = true.

(** No constraint, no SOS constraint and no objective refers to the
    variable of the entry. *)
Definition unreferenced (r : ref_entry) : Prop :=
  ref_cons r = [] /\ ref_sos r = [] /\ ref_obj r = None.

(** The trace continues [pre]. *)
Definition trace_from (pre : list event) (s : sys) : Prop :=
  exists evs, trace s = pre ++ evs.



(** The source model [w] with the variables of [afv] unfixed. *)
Definition unfix_all (afv : dict ident ident) (w : world) : world :=
  set_w_var (fun x => if dict_mem x afv then set_fixed false (w_var w x)
                      else w_var w x) w.

(** What the first loop of [add_constraints] maintains: [w] is the source
    model before the call, [done] the constraints dealt with, [afv] the
    value of [all_fixed_vars]. *)
Record add_inv (w : world) (cfg : UpdateConfig) (done : list conref)
       (afv : dict ident ident) (s : sys) : Prop := {
  ai_world : source s = unfix_all afv w;
  ai_cfg : _update_config (solver s) = cfg;
  ai_id : id_dict afv;
  ai_fixed : forall v, dict_mem v afv = true -> var_fixed (w_var w v) = true;
  ai_cover : forall i v, In (GenCon i) done ->
                         In v (var_leaves_outside_named
                                 (con_body (w_con w i))) ->
                         var_fixed (w_var w v) = true ->
                         dict_mem v afv = true
}.

(** The source model is [w] and the configuration is [cfg]. *)
Definition same_source_cfg (w : world) (cfg : UpdateConfig) (s : sys) : Prop :=
  source s = w /\ _update_config (solver s) = cfg.

(** The variables with a record in [_vars] are those with an entry in
    [_referenced_variables]. *)
Definition tables_agree (s : sys) : Prop :=
  forall v, dict_mem v (_vars (solver s)) =
            dict_mem v (_referenced_variables (solver s)).

(** The record [(con.lower, con.body, con.upper)] of a constraint. *)
Definition con_snapshot (cd : con_data) : bound * ident * bound :=
  (con_lower cd, eid (con_body cd), con_upper cd).

(** The constraint has the record [r] and is known to [add_constraints]. *)
Definition con_recorded (c : conref) (r : con_record) (s : sys) : Prop :=
  dict_get c (_active_constraints (solver s)) = Some r /\
  dict_mem c (_named_expressions (solver s)) = true.

(** The attributes of the constraints of the source model are [wc]. *)
Definition same_cons (wc : ident -> con_data) (s : sys) : Prop :=
  w_con (source s) = wc.

(** What only [set_instance] assigns: the model, the configuration and
    [_only_child_vars]. *)
Definition settings (s : sys) : option ident * UpdateConfig * bool :=
  (_model (solver s), _update_config (solver s), _only_child_vars (solver s)).

(** The variable is tracked and some constraint or SOS constraint refers
    to it. *)
Definition con_referenced (v : ident) (s : sys) : Prop :=
  exists r, dict_get v (_referenced_variables (solver s)) = Some r /\
            (is_empty (ref_cons r) && is_empty (ref_sos r) = false).

(** Since the trace was [pre], the backend has not been asked to add or
    to remove the variable. *)
Definition not_named (v : ident) (pre : list event) (s : sys) : Prop :=
  exists evs, trace s = pre ++ evs /\
              forall l, In (RemoveVariables l) evs \/ In (AddVariables l) evs ->
                        ~ In v l.

Definition kept_referenced (v : ident) (pre : list event) (s : sys) : Prop :=
  con_referenced v s /\ not_named v pre s.

(** The constraint has the record [r], and the attributes of the
    constraints of the source model are [wc]. *)
Definition kept_record (c : conref) (r : con_record)
           (wc : ident -> con_data) (s : sys) : Prop :=
  dict_get c (_active_constraints (solver s)) = Some r /\
  w_con (source s) = wc.

(** Since the trace was [pre], the backend has been asked to remove a list
    of constraints that holds [c] and, later, to add the same list. *)
Definition removed_and_added_again (c : conref) (pre : list event)
           (s : sys) : Prop :=
  exists l evs1 evs2 evs3,
    trace s = pre ++ evs1 ++ RemoveConstraints l :: evs2
                  ++ AddConstraints l :: evs3 /\
    In c l.

(** Since the trace was [pre], the backend has not been asked to remove
    or to add a list of constraints that holds [c]. *)
Definition con_left_alone (c : conref) (pre : list event) (s : sys) : Prop :=
  exists evs,
    trace s = pre ++ evs /\
    forall l, In (RemoveConstraints l) evs \/ In (AddConstraints l) evs ->
              ~ In c l.

(** What the check of [update] says of a constraint in the state [s]. *)
Definition changed_at (s : sys) (c : conref) : bool :=
  match c, dict_get c (_active_constraints (solver s)) with
  | GenCon i, Some (Some r) => constraint_changed r (w_con (source s) i)
  | _, _ => false
  end.

(** What the passes of [update] that do not name the constraint [c] keep:
    its record, the attributes of the constraints of the source model, the
    configuration, that the backend has not been asked to remove or to
    add it and, under [Q], that none of the named expressions recorded for
    it has been given another expression. *)
Definition diff_inv (c : conref) (r : con_record) (wc : ident -> con_data)
           (cfg : UpdateConfig) (pre : list event) (Q : Prop) (s : sys)
  : Prop :=
  kept_record c r wc s /\
  _update_config (solver s) = cfg /\
  con_left_alone c pre s /\
  (Q -> forall l, In (c, l) (_named_expressions (solver s)) ->
                  named_changed (source s) l = false).

(** ** A solver object in use *)

(** The public operations of [PersistentSolverUtils]. *)
Inductive call : Type :=
| CallSetInstance (m : ident)
| CallAddVariables (l : list ident)
| CallAddParams (l : list ident)
| CallAddConstraints (l : list conref)
| CallAddSosConstraints (l : list conref)
| CallSetObjective (o : option ident)
| CallAddBlock (b : ident)
| CallRemoveConstraints (l : list conref)
| CallRemoveSosConstraints (l : list conref)
| CallRemoveVariables (l : list ident)
| CallRemoveParams (l : list ident)
| CallRemoveBlock (b : ident)
| CallUpdateVariables (l : list ident)
| CallUpdate.

Definition perform (accepts : list event -> event -> bool) (c : call)
  : M unit :=
  match c with
  | CallSetInstance m => set_instance accepts m
  | CallAddVariables l => add_variables accepts l
  | CallAddParams l => add_params accepts l
  | CallAddConstraints l => add_constraints accepts l
  | CallAddSosConstraints l => add_sos_constraints accepts l
  | CallSetObjective o => set_objective accepts o
  | CallAddBlock b => add_block accepts b
  | CallRemoveConstraints l => remove_constraints accepts l
  | CallRemoveSosConstraints l => remove_sos_constraints accepts l
  | CallRemoveVariables l => remove_variables accepts l
  | CallRemoveParams l => remove_params accepts l
  | CallRemoveBlock b => remove_block accepts b
  | CallUpdateVariables l => update_variables accepts l
  | CallUpdate => update accepts
  end.

(** [update_variables] is given tracked variables only. *)
Definition tracked_call (s : sys) (c : call) : Prop :=
  match c with
  | CallUpdateVariables l =>
      forall v, In v l -> dict_mem v (_referenced_variables (solver s)) = true
  | _ => True
  end.

(** The states of a solver object in use: it is made by [__init__]; its
    methods are called one after the other, whether they return or raise;
    the model is edited between the calls. *)
Inductive in_use (accepts : list event -> event -> bool) : sys -> Prop :=
| in_use_init (cfg : UpdateConfig) (only_child_vars : bool) (w : world) :
    in_use accepts {| solver := init cfg only_child_vars; source := w;
                      trace := [] |}
| in_use_call (s : sys) (c : call) :
    in_use accepts s -> tracked_call s c ->
    in_use accepts (fst (perform accepts c s))
| in_use_edit (s : sys) (w : world) :
    in_use accepts s ->
    in_use accepts {| solver := solver s; source := w; trace := trace s |}.

(** Since the trace was [pre], the backend has been asked to remove a list
    of SOS constraints that holds [c] and, later, to add the same list. *)
Definition sos_removed_and_added_again (c : conref) (pre : list event)
           (s : sys) : Prop :=
  exists l evs1 evs2 evs3,
    trace s = pre ++ evs1 ++ RemoveSosConstraints l :: evs2
                  ++ AddSosConstraints l :: evs3 /\
    In c l.

(** ** Example models *)

(** Every option enabled, fixed variables kept as variables. *)
Definition config_all : UpdateConfig :=
  {| check_for_new_or_removed_constraints := true;
     check_for_new_or_removed_vars := true;
     check_for_new_or_removed_params := true;
     check_for_new_objective := true;
     update_constraints := true; update_vars := true;
     update_params_flag := true;
     update_named_expressions := true;
     update_objective := true;
     treat_fixed_vars_as_params := false |}.

(** A backend that never raises. *)
Definition always (_ : list event) (_ : event) : bool := true.

(** A backend that raises on [_add_constraints] only. *)
Definition rejects_add_constraints (_ : list event) (ev : event) : bool :=
  match ev with AddConstraints _ => false | _ => true end.

Definition free_var : var_data :=
  {| var_lb := None; var_ub := None; var_fixed := false;
     var_interval := (None, None, 0%Z); var_value := None |}.

(** A lower bound replaced by another constant object of the same value. *)
Definition bounds_example : sys :=
  {| solver :=
       with_active_constraints
         [(GenCon 1, Some (BConst 10 (Num 5), 20, BNone))]
         (init config_all false);
     source :=
       {| w_var := fun _ => free_var;
          w_con := fun _ => {| con_lower := BConst 11 (Num 5);
                               con_body := EVar 20; con_upper := BNone |};
          w_sos_vars := fun _ => [];
          w_obj := fun _ => {| obj_expr := ENative 0; obj_sense := minimize |};
          w_named_expr := fun i => i;
          w_block := fun _ => {| b_params := []; b_vars := []; b_cons := [1];
                                 b_sos := []; b_objectives := [] |} |};
     trace := [] |}.

(** A model with the variables [x1] (fixed, value 7), [x2], [x3]; every
    constraint is [x1 + x2 <= 3], every SOS constraint is over [x2], [x3];
    every objective minimizes [x1]; the model block holds the constraint
    [c10], the SOS constraint [s20], the objective [o30] and the mutable
    parameter [p60]. *)
Definition small_world : world :=
  {| w_var := fun v =>
       if Nat.eqb v 1
       then {| var_lb := None; var_ub := None; var_fixed := true;
               var_interval := (None, None, 0%Z); var_value := Some (Num 7) |}
       else free_var;
     w_con := fun _ => {| con_lower := BNone;
                          con_body := EOp 100 [EVar 1; EVar 2];
                          con_upper := BConst 101 (Num 3) |};
     w_sos_vars := fun _ => [2; 3];
     w_obj := fun _ => {| obj_expr := EVar 1; obj_sense := minimize |};
     w_named_expr := fun i => i;
     w_block := fun _ => {| b_params := [(true, [60])]; b_vars := [1; 2; 3];
                            b_cons := [10]; b_sos := [20];
                            b_objectives := [30] |} |}.

(** A new solver object in front of [small_world]. *)
Definition small_start : sys :=
  {| solver := init config_all false; source := small_world; trace := [] |}.

(** The solver object after [set_instance] on the model of [small_world]:
    it tracks [c10], [s20], [o30], [p60] and the three variables. *)
Definition small_model : sys := fst (set_instance always 0 small_start).

(** The solver object of [small_model] in front of the same model with
    the attributes of its constraints replaced by [cd], under the
    configuration [cfg]. *)
Definition rebuilt (cfg : UpdateConfig) (cd : con_data) : sys :=
  {| solver := with_update_config cfg (solver small_model);
     source := {| w_var := w_var (source small_model);
                  w_con := fun _ => cd;
                  w_sos_vars := w_sos_vars (source small_model);
                  w_obj := w_obj (source small_model);
                  w_named_expr := w_named_expr (source small_model);
                  w_block := w_block (source small_model) |};
     trace := trace small_model |}.



Definition rebuilt_body : con_data :=
  {| con_lower := BNone; con_body := EOp 200 [EVar 1; EVar 2];
     con_upper := BConst 101 (Num 3) |}.

(** Every option enabled but [update_constraints]. *)
Definition config_no_update_constraints : UpdateConfig :=
  {| check_for_new_or_removed_constraints := true;
     check_for_new_or_removed_vars := true;
     check_for_new_or_removed_params := true;
     check_for_new_objective := true;
     update_constraints := false; update_vars := true;
     update_params_flag := true;
     update_named_expressions := true;
     update_objective := true;
     treat_fixed_vars_as_params := false |}.

(** * Properties *)

Unset Implicit Arguments.

(** ** Dictionaries *)

#[export] Instance EqKeyLaws_ident : EqKeyLaws ident.
Proof. constructor. exact Nat.eqb_spec. Qed.

#[export] Instance EqKeyLaws_conref : EqKeyLaws conref.
Proof.
  constructor. intros [i|i] [j|j]; simpl;
    try (destruct (Nat.eqb_spec i j); constructor; congruence);
    constructor; congruence.
Qed.

#[export] Instance EqKeyLaws_component : EqKeyLaws component.
Proof.
  constructor. intros [c|i] [d|j]; simpl; try (constructor; congruence).
  - change (conref_eqb c d) with (keqb c d).
    destruct (keqb_spec c d); constructor; congruence.
  - destruct (Nat.eqb_spec i j); constructor; congruence.
Qed.

Section DictFacts.
Context {K V : Type} `{EqKeyLaws K}.
Implicit Types (k : K) (v : V) (d : dict K V).

Lemma keqb_refl (k : K) : keqb k k = true.
  Proof. destruct (keqb_spec k k); congruence. Qed.

Lemma keqb_neq (k k' : K) : k <> k' -> keqb k k' = false.
  Proof. destruct (keqb_spec k k'); congruence. Qed.

Lemma keqb_eq (k k' : K) : keqb k k' = true -> k = k'.
  Proof. destruct (keqb_spec k k'); congruence. Qed.

Lemma keqb_sym (k k' : K) : keqb k k' = keqb k' k.
  Proof.
    destruct (keqb_spec k k'), (keqb_spec k' k); congruence.
  Qed.

Lemma dict_get_set (k k' : K) (v : V) (d : dict K V) :
    dict_get k' (dict_set k v d) =
    if keqb k' k then Some v else dict_get k' d.
  Proof.
    induction d as [|[k0 v0] d IH]; simpl.
    - destruct (keqb k' k); reflexivity.
    - destruct (keqb_spec k k0) as [->|Hne]; simpl.
      + destruct (keqb k' k0); reflexivity.
      + destruct (keqb_spec k' k0) as [->|Hne'].
        * rewrite (keqb_neq _ _ (not_eq_sym Hne)). reflexivity.
        * exact IH.
  Qed.

Lemma dict_get_del (k k' : K) (d : dict K V) :
    dict_get k' (dict_del k d) =
    if keqb k' k then None else dict_get k' d.
  Proof.
    induction d as [|[k0 v0] d IH]; simpl.
    - destruct (keqb k' k); reflexivity.
    - destruct (keqb_spec k k0) as [->|Hne]; simpl.
      + rewrite IH. destruct (keqb k' k0); reflexivity.
      + destruct (keqb_spec k' k0) as [->|Hne'].
        * rewrite (keqb_neq _ _ (not_eq_sym Hne)). reflexivity.
        * exact IH.
  Qed.

Lemma dict_mem_set (k k' : K) (v : V) (d : dict K V) :
    dict_mem k' (dict_set k v d) = keqb k' k || dict_mem k' d.
  Proof.
    unfold dict_mem. rewrite dict_get_set. destruct (keqb k' k); reflexivity.
  Qed.

Lemma dict_mem_del (k k' : K) (d : dict K V) :
    dict_mem k' (dict_del k d) = negb (keqb k' k) && dict_mem k' d.
  Proof.
    unfold dict_mem. rewrite dict_get_del. destruct (keqb k' k); reflexivity.
  Qed.

Lemma dict_mem_keys (k : K) (d : dict K V) :
    dict_mem k d = true <-> In k (dict_keys d).
  Proof.
    unfold dict_mem, dict_keys.
    induction d as [|[k0 v0] d IH]; simpl.
    - split; [discriminate | tauto].
    - destruct (keqb_spec k k0) as [->|Hne].
      + split; auto.
      + rewrite IH. split; [auto | intros [Heq|?]; [congruence | assumption]].
  Qed.

Lemma dict_keys_set_new (k : K) (v : V) (d : dict K V) :
    dict_mem k d = false -> dict_keys (dict_set k v d) = dict_keys d ++ [k].
  Proof.
    unfold dict_mem, dict_keys.
    induction d as [|[k0 v0] d IH]; simpl; intros Hm.
    - reflexivity.
    - destruct (keqb k k0); [discriminate|]. simpl. rewrite IH; auto.
  Qed.

Lemma dict_keys_set_old (k : K) (v : V) (d : dict K V) :
    dict_mem k d = true -> dict_keys (dict_set k v d) = dict_keys d.
  Proof.
    unfold dict_mem, dict_keys.
    induction d as [|[k0 v0] d IH]; simpl; intros Hm.
    - discriminate.
    - destruct (keqb_spec k k0) as [->|Hne]; simpl.
      + reflexivity.
      + rewrite IH; auto.
  Qed.

Lemma dict_get_In (k : K) (v : V) (d : dict K V) :
    dict_get k d = Some v -> In (k, v) d.
  Proof.
    induction d as [|[k0 v0] d IH]; simpl; [discriminate|].
    destruct (keqb_spec k k0) as [->|Hne].
    - intros [= ->]. auto.
    - auto.
  Qed.

Lemma dict_In_mem (k : K) (v : V) (d : dict K V) :
    In (k, v) d -> dict_mem k d = true.
  Proof.
    intros Hin. apply dict_mem_keys. unfold dict_keys.
    change k with (fst (k, v)). apply in_map. exact Hin.
  Qed.
End DictFacts.

Lemma mem_In {K} `{EqKeyLaws K} (k : K) (l : list K) : mem k l = true <-> In k l.
Proof.
  unfold mem. rewrite existsb_exists. split.
  - intros [x [Hin Heq]]. apply keqb_eq in Heq. subst. exact Hin.
  - intros Hin. exists k. split; [exact Hin | apply keqb_refl].
Qed.

Lemma mem_false {K} `{EqKeyLaws K} (k : K) (l : list K) :
  mem k l = false <-> ~ In k l.
Proof.
  rewrite <- mem_In. destruct (mem k l); split; congruence.
Qed.

Section DictFacts2.
Context {K V : Type} `{EqKeyLaws K}.

Lemma dict_set_same (k : K) (v : V) (d : dict K V) :
    dict_get k d = Some v -> dict_set k v d = d.
  Proof.
    induction d as [|[k0 v0] d IH]; simpl; [discriminate|].
    destruct (keqb_spec k k0) as [->|Hne].
    - intros [= ->]. reflexivity.
    - intros Hg. rewrite IH; auto.
  Qed.

Lemma dict_mem_get (k : K) (d : dict K V) :
    dict_mem k d = true <-> exists v, dict_get k d = Some v.
  Proof.
    unfold dict_mem. destruct (dict_get k d) as [v|]; split;
      try discriminate; eauto.
    intros [v Hv]. discriminate.
  Qed.
End DictFacts2.

(** ** The expression walker *)

Section ExprInduction.
Variable P : expr -> Prop.
Hypothesis HNative : forall i, P (ENative i).
Hypothesis HVar : forall v, P (EVar v).
Hypothesis HNamed : forall i arg, P arg -> P (ENamed i arg).
Hypothesis HExternal : forall i args, Forall P args -> P (EExternal i args).
Hypothesis HOp : forall i args, Forall P args -> P (EOp i args).
Hypothesis HLeaf : forall i, P (ELeaf i).

Fixpoint expr_induction (e : expr) : P e :=
    let all_args :=
      fix all_args (l : list expr) : Forall P l :=
        match l with
        | [] => Forall_nil P
        | x :: l' => Forall_cons x (expr_induction x) (all_args l')
        end in
    match e with
    | ENative i => HNative i
    | EVar v => HVar v
    | ENamed i arg => HNamed i arg (expr_induction arg)
    | EExternal i args => HExternal i args (all_args args)
    | EOp i args => HOp i args (all_args args)
    | ELeaf i => HLeaf i
    end.
End ExprInduction.

Lemma id_dict_set (k : ident) (d : dict ident ident) :
  id_dict d -> id_dict (dict_set k k d).
Proof.
  unfold id_dict. induction d as [|[k0 v0] d IH]; simpl; intros Hd k' v' Hin.
  - destruct Hin as [[= <- <-]|[]]. reflexivity.
  - destruct (Nat.eqb k k0).
    + destruct Hin as [[= <- <-]|Hin]; [reflexivity|]. apply Hd. auto.
    + destruct Hin as [[= <- <-]|Hin]; [apply Hd; auto|].
      apply IH; [|exact Hin]. intros; apply Hd; auto.
Qed.

Lemma id_dict_values (d : dict ident ident) :
  id_dict d -> dict_values d = dict_keys d.
Proof.
  unfold id_dict, dict_values, dict_keys.
  induction d as [|[k0 v0] d IH]; simpl; intros Hd; [reflexivity|].
  rewrite IH by (intros; apply Hd; auto).
  rewrite (Hd k0 v0) by auto. reflexivity.
Qed.

Lemma In_values_mem (d : dict ident ident) (x : ident) :
  id_dict d -> (In x (dict_values d) <-> dict_mem x d = true).
Proof.
  intros Hd. rewrite (id_dict_values _ Hd). symmetry. apply dict_mem_keys.
Qed.

Lemma mem_cons (x a : ident) (l : list ident) :
  mem x (a :: l) = Nat.eqb x a || mem x l.
Proof. reflexivity. Qed.

Lemma mem_app (x : ident) (l l' : list ident) :
  mem x (l ++ l') = mem x l || mem x l'.
Proof. unfold mem. apply existsb_app. Qed.

(** What the traversal adds to a collector. *)
Record walked (is_fixed : ident -> bool) (e : expr) (c c' : collector)
  : Prop := {
  walked_id : (id_dict (named_expressions c) /\ id_dict (variables c) /\
               id_dict (fixed_vars c) /\ id_dict (external_functions c)) ->
              (id_dict (named_expressions c') /\ id_dict (variables c') /\
               id_dict (fixed_vars c') /\ id_dict (external_functions c'));
  walked_named : forall x, dict_mem x (named_expressions c') =
                           dict_mem x (named_expressions c)
                           || mem x (outermost_named e);
  walked_vars : forall x, dict_mem x (variables c') =
                          dict_mem x (variables c) || mem x (var_leaves_outside_named e);
  walked_fixed : forall x, dict_mem x (fixed_vars c') =
                           dict_mem x (fixed_vars c)
                           || (mem x (var_leaves_outside_named e) && is_fixed x);
  walked_external : forall x, dict_mem x (external_functions c') =
                              dict_mem x (external_functions c)
                              || mem x (external_nodes_outside_named e)
}.

Lemma walked_args (is_fixed : ident -> bool) (args : list expr) :
  Forall (fun e => forall c, walked is_fixed e c (dfs_postorder_stack is_fixed e c))
         args ->
  forall (mk : list expr -> expr) c,
    (forall l, outermost_named (mk l) = flat_map outermost_named l) ->
    (forall l, var_leaves_outside_named (mk l) =
               flat_map var_leaves_outside_named l) ->
    (forall l, external_nodes_outside_named (mk l) =
               flat_map external_nodes_outside_named l) ->
    walked is_fixed (mk args) c
      ((fix walk_args (l : list expr) (acc : collector) : collector :=
          match l with
          | [] => acc
          | sub :: l' => walk_args l' (dfs_postorder_stack is_fixed sub acc)
          end) args c).
Proof.
  intros Hall mk c Hn Hv He. revert c.
  induction Hall as [|e args He0 Hall IH]; intros c.
  - constructor; intros; rewrite ?Hn, ?Hv, ?He; simpl;
      rewrite ?orb_false_r; auto.
  - specialize (He0 c). specialize (IH (dfs_postorder_stack is_fixed e c)).
    destruct He0 as [A1 A2 A3 A4 A5], IH as [B1 B2 B3 B4 B5].
    constructor.
    + auto.
    + intros x. rewrite B2, A2, !Hn. simpl. rewrite mem_app.
      rewrite orb_assoc. reflexivity.
    + intros x. rewrite B3, A3, !Hv. simpl. rewrite mem_app.
      rewrite orb_assoc. reflexivity.
    + intros x. rewrite B4, A4, !Hv. simpl. rewrite mem_app.
      destruct (is_fixed x); rewrite ?andb_true_r, ?andb_false_r,
        ?orb_false_r, ?orb_assoc; reflexivity.
    + intros x. rewrite B5, A5, !He. simpl. rewrite mem_app.
      rewrite orb_assoc. reflexivity.
Qed.

Lemma dfs_walked (is_fixed : ident -> bool) (e : expr) :
  forall c, walked is_fixed e c (dfs_postorder_stack is_fixed e c).
Proof.
  induction e as [i|v|i arg IH|i args IH|i args IH|i] using expr_induction;
    intros c.
  - constructor; simpl; intros; rewrite ?orb_false_r; auto.
  - simpl. constructor.
    + intros (H1 & H2 & H3 & H4). destruct (is_fixed v); simpl;
        repeat split; auto using id_dict_set.
    + intros x. destruct (is_fixed v); simpl; rewrite orb_false_r; reflexivity.
    + intros x. destruct (is_fixed v); simpl; rewrite dict_mem_set;
        unfold mem; simpl; rewrite orb_false_r; apply orb_comm.
    + intros x. unfold mem. simpl. rewrite orb_false_r.
      destruct (Nat.eqb_spec x v) as [->|Hne].
      * destruct (is_fixed v) eqn:Hf; simpl.
        -- rewrite dict_mem_set. simpl. rewrite Nat.eqb_refl.
           rewrite orb_true_r. reflexivity.
        -- rewrite orb_false_r. reflexivity.
      * destruct (is_fixed v); simpl; rewrite ?dict_mem_set; simpl;
          rewrite ?(proj2 (Nat.eqb_neq x v) Hne); simpl;
          rewrite ?orb_false_r; reflexivity.
    + intros x. destruct (is_fixed v); simpl; rewrite orb_false_r; reflexivity.
  - simpl. constructor; simpl.
    + intros (H1 & H2 & H3 & H4). repeat split; auto using id_dict_set.
    + intros x. rewrite dict_mem_set. unfold mem. simpl.
      rewrite orb_false_r. apply orb_comm.
    + intros x. rewrite orb_false_r. reflexivity.
    + intros x. rewrite orb_false_r. reflexivity.
    + intros x. rewrite orb_false_r. reflexivity.
  - simpl.
    match goal with |- walked _ _ _ (?f args ?c1) =>
      pose proof (walked_args is_fixed args IH (fun l => EOp i l) c1
                    (fun _ => eq_refl) (fun _ => eq_refl) (fun _ => eq_refl))
        as [A1 A2 A3 A4 A5] end.

    simpl in A1, A2, A3, A4, A5. constructor.
    + intros (H1 & H2 & H3 & H4). apply A1. repeat split; auto using id_dict_set.
    + intros x. rewrite A2. reflexivity.
    + intros x. rewrite A3. reflexivity.
    + intros x. rewrite A4. reflexivity.
    + intros x. rewrite A5, dict_mem_set.
      change (external_nodes_outside_named (EExternal i args))
        with (i :: flat_map external_nodes_outside_named args).
      rewrite mem_cons. simpl.
      destruct (Nat.eqb x i), (dict_mem x (external_functions c)),
        (mem x (flat_map external_nodes_outside_named args)); reflexivity.
  - simpl.
    exact (walked_args is_fixed args IH (fun l => EOp i l) c
             (fun _ => eq_refl) (fun _ => eq_refl) (fun _ => eq_refl)).
  - constructor; simpl; intros; rewrite ?orb_false_r; auto.
Qed.

(** ** Reasoning about computations *)

Lemma bind_ok {A B} (m : M A) (k : A -> M B) s s' b :
  bind m k s = (s', Ok b) ->
  exists s1 a, m s = (s1, Ok a) /\ k a s1 = (s', Ok b).
Proof.
  unfold bind. destruct (m s) as [s1 [a|e]]; intros Heq.
  - exists s1, a. auto.
  - discriminate.
Qed.


Lemma bind_eq_ok {A B} (m : M A) (k : A -> M B) s s1 a :
  m s = (s1, Ok a) -> bind m k s = k a s1.
Proof. unfold bind. intros ->. reflexivity. Qed.


Lemma for_each_ok {A} (f : A -> M unit) (l : list A) s s' u :
  for_each f l s = (s', Ok u) ->
  forall (I : sys -> Prop),
    (forall x s1 s2 u', In x l -> I s1 -> f x s1 = (s2, Ok u') -> I s2) ->
    I s -> I s'.
Proof.
  revert s. induction l as [|x l IH]; simpl; intros s Hrun I Hstep Hs.
  - inversion Hrun. subst. exact Hs.
  - apply bind_ok in Hrun. destruct Hrun as (s1 & a & H1 & H2).
    apply (IH s1 H2 I); eauto.
Qed.



(** Rules for [preserves]. *)

Lemma preserves_ret {A} (I : sys -> Prop) (a : A) : preserves I (ret a).
Proof. intros s Hs. exact Hs. Qed.

Lemma preserves_raise {A} (I : sys -> Prop) (e : exn) :
  preserves I (@raise A e).
Proof. intros s Hs. exact Hs. Qed.

Lemma preserves_get (I : sys -> Prop) : preserves I get.
Proof. intros s Hs. exact Hs. Qed.

Lemma preserves_get_world (I : sys -> Prop) : preserves I get_world.
Proof. intros s Hs. exact Hs. Qed.

Lemma preserves_bind {A B} (I : sys -> Prop) (m : M A) (k : A -> M B) :
  preserves I m -> (forall a, preserves I (k a)) -> preserves I (bind m k).
Proof.
  intros Hm Hk s Hs. unfold bind. specialize (Hm s Hs).
  destruct (m s) as [s1 [a|e]]; simpl in *.
  - apply Hk. exact Hm.
  - exact Hm.
Qed.

(** What is read from the solver object is the solver object of a state
    that satisfies the invariant. *)
Lemma preserves_bind_get {B} (I : sys -> Prop) (k : state -> M B) :
  (forall st, (exists s, I s /\ solver s = st) -> preserves I (k st)) ->
  preserves I (bind get k).
Proof.
  intros Hk s Hs. unfold bind, get. apply Hk; eauto.
Qed.

Lemma preserves_bind_get_world {B} (I : sys -> Prop) (k : world -> M B) :
  (forall w, (exists s, I s /\ source s = w) -> preserves I (k w)) ->
  preserves I (bind get_world k).
Proof.
  intros Hk s Hs. unfold bind, get_world. apply Hk; eauto.
Qed.

Lemma preserves_when (I : sys -> Prop) (b : bool) (m : M unit) :
  preserves I m -> preserves I (when b m).
Proof. intros Hm. destruct b; simpl; [exact Hm | apply preserves_ret]. Qed.

Lemma preserves_for_each {A} (I : sys -> Prop) (f : A -> M unit) l :
  (forall x, In x l -> preserves I (f x)) -> preserves I (for_each f l).
Proof.
  induction l as [|x l IH]; simpl; intros Hf.
  - apply preserves_ret.
  - apply preserves_bind; auto.
Qed.

Lemma preserves_fold_each {A B} (I : sys -> Prop) (f : A -> B -> M B) l :
  (forall x b, In x l -> preserves I (f x b)) ->
  forall b, preserves I (fold_each f l b).
Proof.
  induction l as [|x l IH]; simpl; intros Hf b.
  - apply preserves_ret.
  - apply preserves_bind; auto.
Qed.

Lemma preserves_lookup {K V} `{EqKey K} (I : sys -> Prop) (k : K)
      (d : dict K V) : preserves I (lookup k d).
Proof.
  unfold lookup. destruct (dict_get k d);
    [apply preserves_ret | apply preserves_raise].
Qed.

Lemma preserves_modify (I : sys -> Prop) (f : state -> state) :
  (forall s, I s -> I {| solver := f (solver s); source := source s;
                         trace := trace s |}) ->
  preserves I (modify f).
Proof. intros Hf s Hs. apply Hf. exact Hs. Qed.

Lemma preserves_modify_world (I : sys -> Prop) (f : world -> world) :
  (forall s, I s -> I {| solver := solver s; source := f (source s);
                         trace := trace s |}) ->
  preserves I (modify_world f).
Proof. intros Hf s Hs. apply Hf. exact Hs. Qed.

Lemma preserves_backend (I : sys -> Prop) accepts (ev : event) :
  (forall s, I s -> I {| solver := solver s; source := source s;
                         trace := trace s ++ [ev] |}) ->
  preserves I (backend accepts ev).
Proof. intros Hf s Hs. apply Hf. exact Hs. Qed.

Lemma preserves_con_attrs (I : sys -> Prop) c : preserves I (con_attrs c).
Proof.
  destruct c; simpl; [|apply preserves_raise].
  apply preserves_bind; [apply preserves_get_world | intros; apply preserves_ret].
Qed.

Lemma preserves_get_variables (I : sys -> Prop) c :
  preserves I (get_variables c).
Proof.
  destruct c; simpl; [apply preserves_raise|].
  apply preserves_bind; [apply preserves_get_world | intros; apply preserves_ret].
Qed.

Lemma preserves_model_block (I : sys -> Prop) : preserves I model_block.
Proof.
  unfold model_block. apply preserves_bind; [apply preserves_get|].
  intros st. destruct (_model st); [|apply preserves_raise].
  apply preserves_bind; [apply preserves_get_world | intros; apply preserves_ret].
Qed.

Lemma preserves_get_objective (I : sys -> Prop) b :
  preserves I (get_objective b).
Proof.
  unfold get_objective. apply preserves_fold_each.
  intros o [x|] _; [apply preserves_raise | apply preserves_ret].
Qed.

Lemma preserves_and {A} (I J : sys -> Prop) (m : M A) :
  preserves I m -> preserves J m -> preserves (fun s => I s /\ J s) m.
Proof. intros HI HJ s [Hi Hj]. split; auto. Qed.

(** ** Going through the methods step by step *)

Ltac head_of t :=
  lazymatch t with
  | ?f _ => head_of f
  | _ => t
  end.

Ltac preserves_step :=
  lazymatch goal with
  | |- preserves _ (bind get _) =>
      apply preserves_bind_get; intros ? ?
  | |- preserves _ (bind get_world _) =>
      apply preserves_bind_get_world; intros ? ?
  | |- preserves _ (bind _ _) => apply preserves_bind; [|intros ?]
  | |- preserves _ (ret _) => apply preserves_ret
  | |- preserves _ (raise _) => apply preserves_raise
  | |- preserves _ get => apply preserves_get
  | |- preserves _ get_world => apply preserves_get_world
  | |- preserves _ (when _ _) => apply preserves_when
  | |- preserves _ (for_each _ _) => apply preserves_for_each; intros ? ?
  | |- preserves _ (fold_each _ _ _) =>
      apply preserves_fold_each; intros ? ? ?
  | |- preserves _ (lookup _ _) => apply preserves_lookup
  | |- preserves _ (con_attrs _) => apply preserves_con_attrs
  | |- preserves _ (get_variables _) => apply preserves_get_variables
  | |- preserves _ model_block => apply preserves_model_block
  | |- preserves _ (get_objective _) => apply preserves_get_objective
  | |- preserves _ (modify _) => apply preserves_modify
  | |- preserves _ (modify_world _) => apply preserves_modify_world
  | |- preserves _ (backend _ _) => apply preserves_backend
  | |- preserves _ (if ?b then _ else _) => destruct b eqn:?
  | |- preserves _ (match ?x with _ => _ end) => destruct x eqn:?
  | |- preserves _ (let _ := _ in _) => cbv zeta
  | |- preserves _ ((fun _ => _) _) => cbv beta
  | |- preserves _ ?m => let h := head_of m in progress unfold h
  end.

(** [preserves_go tac]: go through a method down to the assignments and
    the calls to the backend, trying [tac] first at every step, and leave
    what the assignments do to the invariant. *)
Ltac preserves_go tac := repeat (first [ tac | preserves_step ]).

Ltac preserves_auto := preserves_go fail.

Lemma preserves_run {A} (I : sys -> Prop) (m : M A) (s s' : sys) r :
  preserves I m -> m s = (s', r) -> I s -> I s'.
Proof. intros Hp Hrun Hs. specialize (Hp s Hs). rewrite Hrun in Hp. exact Hp. Qed.

(** [frame_from H tac]: an invariant of the goal holds after the run [H]
    when [tac] shows that the computation preserves it and it held before. *)
Ltac frame_from H tac :=
  match type of H with
  | ?m ?s0 = (?s1, ?r) =>
      refine (preserves_run _ m s0 s1 r _ H _); [tac|]
  end.

(** The same for an invariant [I] given explicitly. *)
Ltac frame_with I H tac :=
  match type of H with
  | ?m ?s0 = (?s1, ?r) =>
      refine (preserves_run I m s0 s1 r _ H _); [tac|]
  end.

(** Every method only adds to the trace. *)
Ltac trace_tac :=
  preserves_auto;
    try (intros ? [? Htr]; eexists; exact Htr);
    try (intros ? [? Htr]; eexists; simpl; rewrite Htr, <- app_assoc;
         reflexivity).

Lemma update_extends_trace accepts (pre : list event) :
  preserves (trace_from pre) (update accepts).
Proof. trace_tac. Qed.

Lemma trace_from_refl (s : sys) : trace_from (trace s) s.
Proof. exists []. symmetry. apply app_nil_r. Qed.

Lemma del_item_run {K V} `{EqKey K} (rd : state -> dict K V)
      (wr : dict K V -> state -> state) (k : K) (s : sys) :
  del_item rd wr k s =
  if dict_mem k (rd (solver s))
  then ({| solver := wr (dict_del k (rd (solver s))) (solver s);
           source := source s; trace := trace s |}, Ok tt)
  else (s, Raise KeyError).
Proof.
  unfold del_item, bind, get, modify, raise.
  destruct (dict_mem k (rd (solver s))); reflexivity.
Qed.

Lemma backend_run accepts (ev : event) (s : sys) :
  backend accepts ev s =
  ({| solver := solver s; source := source s; trace := trace s ++ [ev] |},
   if accepts (trace s) ev then Ok tt else Raise BackendError).
Proof. reflexivity. Qed.

(** Running the first step of a computation. *)

Lemma bind_get {B} (k : state -> M B) (s : sys) :
  bind get k s = k (solver s) s.
Proof. reflexivity. Qed.

Lemma bind_get_world {B} (k : world -> M B) (s : sys) :
  bind get_world k s = k (source s) s.
Proof. reflexivity. Qed.

Lemma bind_ret {A B} (a : A) (k : A -> M B) (s : sys) :
  bind (ret a) k s = k a s.
Proof. reflexivity. Qed.

Lemma bind_raise_eq {A B} (e : exn) (k : A -> M B) (s : sys) :
  bind (raise e) k s = (s, Raise e).
Proof. reflexivity. Qed.

Lemma bind_modify {B} (f : state -> state) (k : unit -> M B) (s : sys) :
  bind (modify f) k s =
  k tt {| solver := f (solver s); source := source s; trace := trace s |}.
Proof. reflexivity. Qed.

Lemma bind_modify_world {B} (f : world -> world) (k : unit -> M B) (s : sys) :
  bind (modify_world f) k s =
  k tt {| solver := solver s; source := f (source s); trace := trace s |}.
Proof. reflexivity. Qed.

Lemma bind_backend {B} accepts (ev : event) (k : unit -> M B) (s : sys) :
  bind (backend accepts ev) k s =
  if accepts (trace s) ev
  then k tt {| solver := solver s; source := source s;
               trace := trace s ++ [ev] |}
  else ({| solver := solver s; source := source s;
           trace := trace s ++ [ev] |}, Raise BackendError).
Proof.
  unfold bind. rewrite backend_run. destruct (accepts (trace s) ev); reflexivity.
Qed.

Lemma bind_assoc {A B C} (m : M A) (k : A -> M B) (h : B -> M C) (s : sys) :
  bind (bind m k) h s = bind m (fun a => bind (k a) h) s.
Proof.
  unfold bind. destruct (m s) as [s1 [a|e]]; reflexivity.
Qed.

Ltac run_step H :=
  lazymatch type of H with
  | bind get _ _ = _ => rewrite bind_get in H
  | bind get_world _ _ = _ => rewrite bind_get_world in H
  | bind (ret _) _ _ = _ => rewrite bind_ret in H
  | bind (raise _) _ _ = _ => rewrite bind_raise_eq in H
  | bind (modify _) _ _ = _ => rewrite bind_modify in H
  | bind (modify_world _) _ _ = _ => rewrite bind_modify_world in H
  | bind (backend _ _) _ _ = _ => rewrite bind_backend in H
  | bind (bind _ _) _ _ = _ => rewrite bind_assoc in H
  | bind (if ?b then _ else _) _ _ = _ => destruct b eqn:?
  | bind (match ?x with _ => _ end) _ _ = _ => destruct x eqn:?
  | (if ?b then _ else _) _ = _ => destruct b eqn:?
  | (if ?b then _ else _) = _ => destruct b eqn:?
  | (match ?x with _ => _ end) _ = _ => destruct x eqn:?
  | raise _ _ = (_, Ok _) => discriminate H
  | (_, Raise _) = (_, Ok _) => discriminate H
  | (_, Ok _) = (_, Raise _) => discriminate H
  | ret _ _ = _ => unfold ret in H
  | modify _ _ = _ => unfold modify in H
  | get _ = _ => unfold get in H
  end; cbv beta in H.

Ltac run H := repeat run_step H.

(** ** The walker stops at named expressions *)

Lemma collect_spec (is_fixed : ident -> bool) (e : expr) :
  let c := dfs_postorder_stack is_fixed e collector_init in
  (forall x, In x (dict_values (named_expressions c)) <->
             In x (outermost_named e)) /\
  (forall x, In x (dict_values (variables c)) <->
             In x (var_leaves_outside_named e)) /\
  (forall x, In x (dict_values (fixed_vars c)) <->
             In x (var_leaves_outside_named e) /\ is_fixed x = true) /\
  (forall x, In x (dict_values (external_functions c)) <->
             In x (external_nodes_outside_named e)).
Proof.
  destruct (dfs_walked is_fixed e collector_init) as [A1 A2 A3 A4 A5].
  assert (Hinit : forall k v : ident, In (k, v) (@nil (ident * ident)) -> k = v)
    by (intros k v []).
  destruct A1 as (H1 & H2 & H3 & H4); [simpl; unfold id_dict; auto|].
  simpl in A2, A3, A4, A5. cbv zeta.
  assert (Hgen : forall (d : dict ident ident) l, id_dict d ->
            (forall x, dict_mem x d = mem x l) ->
            forall x, In x (dict_values d) <-> In x l).
  { intros d l Hd Hm x. split; intros Hx.
    - apply mem_In. rewrite <- Hm. apply In_values_mem; auto.
    - apply In_values_mem; auto. rewrite Hm. apply mem_In; auto. }
  split; [apply Hgen; auto|]. split; [apply Hgen; auto|].
  split; [|apply Hgen; auto].
  intros x. split; intros Hx.
  - apply In_values_mem in Hx; auto. rewrite A4 in Hx.
    apply andb_true_iff in Hx. split; [apply mem_In|]; tauto.
  - apply In_values_mem; auto. rewrite A4. apply andb_true_iff.
    split; [apply mem_In|]; tauto.
Qed.

Lemma collect_result (is_fixed : ident -> bool) (e : expr) :
  let '(named_exprs, vars, fixed, ext) :=
    collect_vars_and_named_exprs is_fixed e in
  (forall x, In x named_exprs <-> In x (outermost_named e)) /\
  (forall x, In x vars <-> In x (var_leaves_outside_named e)) /\
  (forall x, In x fixed <->
             In x (var_leaves_outside_named e) /\ is_fixed x = true) /\
  (forall x, In x ext <-> In x (external_nodes_outside_named e)).
Proof.
  unfold collect_vars_and_named_exprs. exact (collect_spec is_fixed e).
Qed.

(** C8: [collect_vars_and_named_exprs] records each named expression it
    meets and does not go further into it. The named expressions returned
    are those of the tree that are not inside another one; the variables
    returned are the variable leaves that are not inside a named
    expression, the fixed variables returned are those of them that are
    fixed, and the external function calls returned are those that are not
    inside a named expression. So a variable or an external function call
    that occurs only inside a named expression is in none of the
    collections returned. *)
Theorem collect_vars_and_named_exprs_stops_at_named :
  forall (is_fixed : ident -> bool) (e : expr),
    let '(named_exprs, vars, fixed, ext) :=
      collect_vars_and_named_exprs is_fixed e in
    (forall x, In x named_exprs <-> In x (outermost_named e)) /\
    (forall x, In x vars <-> In x (var_leaves_outside_named e)) /\
    (forall x, In x fixed <->
               In x (var_leaves_outside_named e) /\ is_fixed x = true) /\
    (forall x, In x ext <-> In x (external_nodes_outside_named e)).
Proof.
  intros is_fixed e. exact (collect_result is_fixed e).
Qed.

(** ** The comparison of bounds in [update] *)

Lemma is_same_eq (a b : option ident) : is_same a b = true <-> a = b.
Proof.
  destruct a as [i|], b as [j|]; simpl; split; try congruence.
  - intros Heq. apply Nat.eqb_eq in Heq. congruence.
  - intros [= ->]. apply Nat.eqb_refl.
Qed.

Lemma is_same_refl (a : option ident) : is_same a a = true.
Proof. apply is_same_eq. reflexivity. Qed.

Lemma bound_unchanged_same (new old : bound) :
  bound_unchanged new old = true <-> same_bound new old.
Proof.
  unfold bound_unchanged, same_bound.
  destruct (is_same (bound_id new) (bound_id old)) eqn:Hid; simpl.
  - apply is_same_eq in Hid. tauto.
  - assert (Hne : bound_id new <> bound_id old).
    { intros Heq. apply is_same_eq in Heq. congruence. }
    destruct new as [|i x|i], old as [|j y|j]; simpl in *;
      try (split; [discriminate | intros [?|(?&?&?&?&?&?&?)]; congruence]).
    split.
    + intros Heq. right. exists i, j, x, y. auto.
    + intros [?|(?&?&?&?&[= -> ->]&[= -> ->]&Heq)]; [congruence | exact Heq].
Qed.

Lemma bound_unchanged_refl (b : bound) : bound_unchanged b b = true.
Proof. apply bound_unchanged_same. left. reflexivity. Qed.


Lemma constraint_changed_body (lower upper : bound) (body : ident)
      (cd : con_data) :
  eid (con_body cd) <> body ->
  constraint_changed (lower, body, upper) cd = true.
Proof.
  intros Hne. unfold constraint_changed.
  rewrite (proj2 (Nat.eqb_neq _ _) Hne). reflexivity.
Qed.

(** ** Removing variables *)

Lemma unreferenced_dec (r : ref_entry) :
  (negb (is_empty (ref_cons r)) || negb (is_empty (ref_sos r))
   || is_some (ref_obj r)) = false <-> unreferenced r.
Proof.
  unfold unreferenced.
  destruct (ref_cons r), (ref_sos r), (ref_obj r); simpl;
    split; try discriminate; try tauto; intros (? & ? & ?); discriminate.
Qed.

(** C3: for a tracked variable, [remove_variables] succeeds exactly when
    its entry of [_referenced_variables] shows no constraint, no SOS
    constraint and no objective; otherwise it raises the error of a
    variable still in use, and nothing is deleted. *)
Theorem remove_variables_iff_unreferenced :
  forall accepts (s : sys) (v : ident) (r : ref_entry),
    dict_get v (_referenced_variables (solver s)) = Some r ->
    dict_mem v (_vars (solver s)) = true ->
    accepts (trace s) (RemoveVariables [v]) = true ->
    (unreferenced r ->
     exists s', remove_variables accepts [v] s = (s', Ok tt) /\
                dict_mem v (_referenced_variables (solver s')) = false /\
                dict_mem v (_vars (solver s')) = false) /\
    (~ unreferenced r ->
     exists s', remove_variables accepts [v] s = (s', Raise StillUsed) /\
                solver s' = solver s).
Proof.
  intros accepts s v r Hr Hv Hacc.
  unfold remove_variables, _remove_variables, backend, bind. rewrite Hacc.
  simpl. unfold remove_variable, bind, get. simpl. rewrite Hr.
  destruct (negb (is_empty (ref_cons r)) || negb (is_empty (ref_sos r))
            || is_some (ref_obj r)) eqn:Hused.
  - split.
    + intros Hun. apply unreferenced_dec in Hun. congruence.
    + intros _. eexists. split; [reflexivity|]. reflexivity.
  - split.
    + intros _. simpl. rewrite Hv. simpl. eexists. split; [reflexivity|].
      simpl. rewrite !dict_mem_del. simpl. rewrite Nat.eqb_refl. auto.
    + intros Hn. apply unreferenced_dec in Hused. contradiction.
Qed.

Lemma remove_variables_iff_unreferenced_witness :
  exists s',
    remove_variables always [2] (fst (add_variables always [2] small_start))
    = (s', Ok tt) /\
    dict_mem 2 (_referenced_variables (solver s')) = false /\
    dict_mem 2 (_vars (solver s')) = false.
Proof.
  refine (proj1 (remove_variables_iff_unreferenced always
                   (fst (add_variables always [2] small_start)) 2 empty_refs
                   _ _ _) _).
  - vm_compute. reflexivity.
  - vm_compute. reflexivity.
  - reflexivity.
  - repeat split.
Defined.

(** ** Removal asks the backend first *)













(** ** Adding twice *)









Lemma add_params_loop_keeps (p : ident) (l : list ident) :
  preserves (fun s => dict_get p (_params (solver s)) = Some p)
            (for_each (fun p0 => modify (fun s0 => with_params
                                           (dict_set p0 p0 (_params s0)) s0))
                      l).
Proof.
  apply preserves_for_each. intros q _. apply preserves_modify.
  intros s A. simpl. rewrite dict_get_set.
  destruct (keqb_spec p q) as [->|]; auto.
Qed.

Lemma add_params_recorded accepts (params : list ident) s s' u :
  add_params accepts params s = (s', Ok u) ->
  forall p, In p params -> dict_get p (_params (solver s')) = Some p.
Proof.
  unfold add_params. intros H p Hin.
  apply bind_ok in H. destruct H as (s1 & u1 & Hloop & H).
  unfold _add_params in H. rewrite backend_run in H. injection H as <- _.
  simpl. clear u. revert s Hloop.
  induction params as [|q params IH]; intros s Hloop; [destruct Hin|].
  simpl in Hloop. run_step Hloop.
  destruct Hin as [->|Hin].
  - match type of Hloop with
    | _ ?s2 = _ => pose proof (add_params_loop_keeps p params s2) as Hk
    end.
    rewrite Hloop in Hk. apply Hk. simpl. rewrite dict_get_set, keqb_refl.
    reflexivity.
  - eapply IH; eauto.
Qed.









(** ** Fixed variables around [add_constraints] *)

Lemma set_w_var_id (w : world) : set_w_var (w_var w) w = w.
Proof. destruct w. reflexivity. Qed.

Lemma unfix_all_nil (w : world) : unfix_all [] w = w.
Proof. unfold unfix_all. simpl. apply set_w_var_id. Qed.

Lemma set_fixed_twice (a b : bool) (d : var_data) :
  set_fixed a (set_fixed b d) = set_fixed a d.
Proof. reflexivity. Qed.

Lemma set_fixed_same (d : var_data) : set_fixed (var_fixed d) d = d.
Proof. destruct d. reflexivity. Qed.

Lemma unfix_var_unfix_all (v : ident) (afv : dict ident ident) (w : world) :
  unfix_var v (unfix_all afv w) = unfix_all (dict_set v v afv) w.
Proof.
  unfold unfix_var, unfix_all, set_w_var. simpl. f_equal.
  apply functional_extensionality. intros x. rewrite dict_mem_set. simpl.
  destruct (Nat.eqb x v); simpl; [|reflexivity].
  destruct (dict_mem x afv); reflexivity.
Qed.

(** The loop that unfixes the fixed variables of one constraint. *)
Lemma unfix_loop (fixed : list ident) :
  forall afv s,
    fold_each (fun v d => modify_world (unfix_var v) ;; ret (dict_set v v d))
              fixed afv s =
    ({| solver := solver s;
        source := fold_left (fun w v => unfix_var v w) fixed (source s);
        trace := trace s |},
     Ok (fold_left (fun d v => dict_set v v d) fixed afv)).
Proof.
  induction fixed as [|v fixed IH]; intros afv s; simpl.
  - destruct s. reflexivity.
  - rewrite bind_assoc, bind_modify_world, bind_ret. rewrite IH. reflexivity.
Qed.

Lemma unfix_fold_world (fixed : list ident) :
  forall afv w,
    fold_left (fun w v => unfix_var v w) fixed (unfix_all afv w) =
    unfix_all (fold_left (fun d v => dict_set v v d) fixed afv) w.
Proof.
  induction fixed as [|v fixed IH]; intros afv w; simpl; [reflexivity|].
  rewrite unfix_var_unfix_all. apply IH.
Qed.

Lemma fold_set_mem (l : list ident) :
  forall (d : dict ident ident) x,
    dict_mem x (fold_left (fun d v => dict_set v v d) l d) =
    dict_mem x d || mem x l.
Proof.
  induction l as [|v l IH]; intros d x; simpl.
  - rewrite orb_false_r. reflexivity.
  - rewrite IH, dict_mem_set. simpl. unfold mem. simpl.
    destruct (Nat.eqb x v), (dict_mem x d); reflexivity.
Qed.

Lemma fold_set_id (l : list ident) :
  forall d : dict ident ident,
    id_dict d -> id_dict (fold_left (fun d v => dict_set v v d) l d).
Proof.
  induction l as [|v l IH]; intros d Hd; simpl; [exact Hd|].
  apply IH. apply id_dict_set. exact Hd.
Qed.

Ltac frame_tac :=
  preserves_auto; intros ? [? ?]; split; simpl; auto.

Lemma add_constraint_step accepts w cfg done afv c s s' afv' :
  treat_fixed_vars_as_params cfg = false ->
  add_inv w cfg done afv s ->
  add_constraint accepts c afv s = (s', Ok afv') ->
  add_inv w cfg (c :: done) afv' s'.
Proof.
  intros Htreat [Hw Hcfg Hid Hfix Hcov] H.
  unfold add_constraint in H. rewrite bind_get in H.
  destruct (dict_mem c (_named_expressions (solver s))); [discriminate H|].
  destruct c as [i|i]; unfold con_attrs in H;
    [|rewrite bind_raise_eq in H; discriminate H].
  rewrite bind_assoc, bind_get_world, bind_ret, bind_modify, bind_get_world
    in H.
  cbn [source solver trace] in H.
  destruct (collect_vars_and_named_exprs
              (fun v => var_fixed (w_var (source s) v))
              (con_body (w_con (source s) i)))
    as [[[named vars] fixed] ext] eqn:Hcollect.
  pose proof (collect_result
                (fun v => var_fixed (w_var (source s) v))
                (con_body (w_con (source s) i))) as Hspec.
  rewrite Hcollect in Hspec. destruct Hspec as (_ & _ & Hfixed & _).
  apply bind_ok in H. destruct H as (s1 & u1 & H1 & H).
  assert (F1 : same_source_cfg (source s) cfg s1)
    by (frame_from H1 frame_tac; split; auto).
  run_step H.
  apply bind_ok in H. destruct H as (s2 & u2 & H2 & H).
  assert (F2 : same_source_cfg (source s) cfg s2)
    by (frame_from H2 frame_tac; destruct F1; split; auto).
  run_step H.
  apply bind_ok in H. destruct H as (s3 & u3 & H3 & H).
  assert (F3 : same_source_cfg (source s) cfg s3)
    by (frame_from H3 frame_tac; destruct F2; split; auto).
  destruct F3 as [F3w F3c].
  rewrite Hcfg, Htreat in H. simpl in H.
  rewrite unfix_loop in H. injection H as <- <-.
  assert (Hmem : forall x, mem x fixed = true <->
                           In x (var_leaves_outside_named (con_body (w_con w i))) /\
                           dict_mem x afv = false /\
                           var_fixed (w_var w x) = true).
  { intros x. rewrite mem_In, Hfixed. rewrite Hw. simpl.
    destruct (dict_mem x afv); simpl; intuition congruence. }
  constructor; simpl.
  - rewrite F3w, Hw. apply unfix_fold_world.
  - exact F3c.
  - apply fold_set_id. exact Hid.
  - intros v Hv. rewrite fold_set_mem in Hv. apply orb_true_iff in Hv.
    destruct Hv as [Hv|Hv]; [auto|]. apply Hmem in Hv. tauto.
  - intros j v [Hj|Hj] Hleaf Hvf.
    + injection Hj as <-. rewrite fold_set_mem.
      destruct (dict_mem v afv) eqn:Hd; [reflexivity|]. simpl.
      apply Hmem. auto.
    + rewrite fold_set_mem. rewrite (Hcov j v Hj Hleaf Hvf). reflexivity.
Qed.

Lemma add_constraints_loop accepts w cfg (cons : list conref) :
  treat_fixed_vars_as_params cfg = false ->
  forall done afv s s' afv',
    add_inv w cfg done afv s ->
    fold_each (add_constraint accepts) cons afv s = (s', Ok afv') ->
    add_inv w cfg (rev cons ++ done) afv' s'.
Proof.
  intros Htreat. induction cons as [|c cons IH];
    intros done afv s s' afv' Hinv H; simpl in H.
  - injection H as <- <-. exact Hinv.
  - apply bind_ok in H. destruct H as (s1 & afv1 & Hc & Hrest).
    simpl. rewrite <- app_assoc. simpl.
    apply (IH (c :: done) afv1 s1); auto.
    eapply add_constraint_step; eauto.
Qed.

(** The loop that fixes the variables again. *)
Lemma fix_loop (vs : list ident) :
  forall s,
    for_each (fun v => modify_world (fix_var v)) vs s =
    ({| solver := solver s;
        source := fold_left (fun w v => fix_var v w) vs (source s);
        trace := trace s |}, Ok tt).
Proof.
  induction vs as [|v vs IH]; intros s; simpl.
  - destruct s. reflexivity.
  - rewrite bind_modify_world. rewrite IH. reflexivity.
Qed.

Lemma fix_fold_var (vs : list ident) :
  forall w x,
    w_var (fold_left (fun w v => fix_var v w) vs w) x =
    if mem x vs then set_fixed true (w_var w x) else w_var w x.
Proof.
  induction vs as [|v vs IH]; intros w x; simpl; [reflexivity|].
  rewrite IH. unfold mem. simpl.
  destruct (Nat.eqb x v); simpl; [|reflexivity].
  match goal with |- context [if ?b then _ else _] => destruct b end;
    reflexivity.
Qed.

Lemma fix_fold_rest (vs : list ident) :
  forall w,
    let w' := fold_left (fun w v => fix_var v w) vs w in
    w_con w' = w_con w /\ w_sos_vars w' = w_sos_vars w /\
    w_obj w' = w_obj w /\ w_named_expr w' = w_named_expr w /\
    w_block w' = w_block w.
Proof.
  induction vs as [|v vs IH]; intros w; simpl; [repeat split|].
  apply (IH (fix_var v w)).
Qed.

Lemma fix_unfix_all (afv : dict ident ident) (w : world) :
  id_dict afv ->
  (forall v, dict_mem v afv = true -> var_fixed (w_var w v) = true) ->
  fold_left (fun w v => fix_var v w) (dict_values afv) (unfix_all afv w) = w.
Proof.
  intros Hid Hfix.
  pose proof (fix_fold_rest (dict_values afv) (unfix_all afv w))
    as (H1 & H2 & H3 & H4 & H5).
  pose proof (fix_fold_var (dict_values afv) (unfix_all afv w)) as Hv.
  destruct (fold_left _ _ _) as [fv fc fs fo fn fb]. simpl in *.
  destruct w as [wv wc ws wo wn wb]. simpl in *. subst.
  f_equal. apply functional_extensionality. intros x. rewrite Hv.
  destruct (mem x (dict_values afv)) eqn:Hm.
  - apply mem_In in Hm. apply In_values_mem in Hm; auto. rewrite Hm.
    rewrite set_fixed_twice. rewrite <- (Hfix x Hm). apply set_fixed_same.
  - destruct (dict_mem x afv) eqn:Hd; [|reflexivity].
    apply In_values_mem in Hd; auto. apply mem_In in Hd. congruence.
Qed.

(** C1, as amended: with [treat_fixed_vars_as_params] disabled, when
    [add_constraints] returns, the source model is what it was before the
    call, so every fixed variable of the bodies of the constraints is
    fixed again with its value. *)
Theorem add_constraints_fixed_vars :
  forall accepts (cons : list conref) (s s' : sys),
    treat_fixed_vars_as_params (_update_config (solver s)) = false ->
    add_constraints accepts cons s = (s', Ok tt) ->
    source s' = source s /\
    forall i v, In (GenCon i) cons ->
                In v (var_leaves (con_body (w_con (source s) i))) ->
                var_fixed (w_var (source s) v) = true ->
                var_fixed (w_var (source s') v) = true /\
                var_value (w_var (source s') v) =
                var_value (w_var (source s) v).
Proof.
  intros accepts cons s s' Htreat H.
  assert (Hinit : add_inv (source s) (_update_config (solver s)) [] [] s).
  { constructor.
    - symmetry. apply unfix_all_nil.
    - reflexivity.
    - intros k v [].
    - intros v Hv. discriminate.
    - intros i v []. }
  unfold add_constraints in H.
  apply bind_ok in H. destruct H as (s1 & afv & Hloop & H).
  pose proof (add_constraints_loop accepts _ _ cons Htreat [] [] s s1 afv
                Hinit Hloop) as [Hw Hcfg Hid Hfix Hcov].
  unfold _add_constraints in H. run H.
  rewrite fix_loop in H. injection H as <-. simpl.
  rewrite Hw. rewrite fix_unfix_all; auto.
Qed.

Lemma add_constraints_fixed_vars_witness :
  source (fst (add_constraints always [GenCon 10] small_start)) =
  source small_start /\
  forall i v, In (GenCon i) [GenCon 10] ->
              In v (var_leaves (con_body (w_con (source small_start) i))) ->
              var_fixed (w_var (source small_start) v) = true ->
              var_fixed (w_var (source (fst (add_constraints always
                                               [GenCon 10] small_start))) v)
              = true /\
              var_value (w_var (source (fst (add_constraints always
                                               [GenCon 10] small_start))) v)
              = var_value (w_var (source small_start) v).
Proof.
  refine (add_constraints_fixed_vars always [GenCon 10] small_start
            (fst (add_constraints always [GenCon 10] small_start)) _ _).
  - reflexivity.
  - vm_compute. reflexivity.
Defined.

(** C1, as stated, fails when [_add_constraints] raises: [x1] is fixed
    before the call, occurs in the body of [c10], and is not fixed after
    the call. *)
Lemma add_constraints_backend_error_counterexample :
  var_fixed (w_var (source small_start) 1) = true /\
  In 1 (var_leaves (con_body (w_con (source small_start) 10))) /\
  snd (add_constraints rejects_add_constraints [GenCon 10] small_start) =
    Raise BackendError /\
  var_fixed (w_var (source (fst (add_constraints rejects_add_constraints
                                   [GenCon 10] small_start))) 1) = false.
Proof. vm_compute. auto. Qed.

(** ** More on dictionaries *)

Section DictFacts3.
Context {K V : Type} `{EqKeyLaws K}.

Lemma dict_set_new (k : K) (v : V) (d : dict K V) :
  dict_mem k d = false -> dict_set k v d = d ++ [(k, v)].
Proof.
  unfold dict_mem. induction d as [|[k0 v0] d IH]; simpl; intros Hm.
  - reflexivity.
  - destruct (keqb k k0); [discriminate|]. rewrite IH; auto.
Qed.

Lemma dict_del_absent (k : K) (d : dict K V) :
  dict_mem k d = false -> dict_del k d = d.
Proof.
  unfold dict_mem. induction d as [|[k0 v0] d IH]; simpl; intros Hm.
  - reflexivity.
  - destruct (keqb k k0); [discriminate|]. rewrite IH; auto.
Qed.

Lemma dict_del_app (k : K) (d d' : dict K V) :
  dict_del k (d ++ d') = dict_del k d ++ dict_del k d'.
Proof.
  induction d as [|[k0 v0] d IH]; simpl; [reflexivity|].
  destruct (keqb k k0); simpl; rewrite IH; reflexivity.
Qed.

(** Deleting a key that has just been added gives the dictionary back. *)
Lemma dict_del_set_new (k : K) (v : V) (d : dict K V) :
  dict_mem k d = false -> dict_del k (dict_set k v d) = d.
Proof.
  intros Hm. rewrite dict_set_new by exact Hm. rewrite dict_del_app.
  rewrite dict_del_absent by exact Hm. simpl. rewrite keqb_refl.
  apply app_nil_r.
Qed.

Lemma dict_mem_app (k : K) (d d' : dict K V) :
  dict_mem k (d ++ d') = dict_mem k d || dict_mem k d'.
Proof.
  unfold dict_mem. induction d as [|[k0 v0] d IH]; simpl; [reflexivity|].
  destruct (keqb k k0); [reflexivity | exact IH].
Qed.

Lemma dict_set_keeps_keys_nodup (k : K) (v : V) (d : dict K V) :
  NoDup (dict_keys d) -> NoDup (dict_keys (dict_set k v d)).
Proof.
  intros Hd. destruct (dict_mem k d) eqn:Hm.
  - rewrite dict_keys_set_old; auto.
  - rewrite dict_keys_set_new by exact Hm.
    apply NoDup_app; [exact Hd | repeat constructor; auto |].
    intros x Hx [<-|[]]. apply dict_mem_keys in Hx. congruence.
Qed.

Lemma dict_del_keys_incl (k x : K) (d : dict K V) :
  In x (dict_keys (dict_del k d)) -> In x (dict_keys d).
Proof.
  intros Hx. apply dict_mem_keys in Hx. apply dict_mem_keys.
  rewrite dict_mem_del in Hx. apply andb_true_iff in Hx. tauto.
Qed.

Lemma dict_del_keeps_keys_nodup (k : K) (d : dict K V) :
  NoDup (dict_keys d) -> NoDup (dict_keys (dict_del k d)).
Proof.
  unfold dict_keys. induction d as [|[k0 v0] d IH]; simpl; intros Hd.
  - constructor.
  - inversion Hd as [|? ? Hnin Hd']. subst.
    destruct (keqb k k0); [auto|]. simpl. constructor; auto.
    intros Hin. apply Hnin. apply (dict_del_keys_incl k). exact Hin.
Qed.
End DictFacts3.

Lemma dict_of_ids_id (l : list ident) : id_dict (dict_of_ids l).
Proof.
  unfold dict_of_ids. apply fold_set_id. intros k v [].
Qed.

Lemma dict_of_ids_mem (l : list ident) (x : ident) :
  dict_mem x (dict_of_ids l) = mem x l.
Proof. unfold dict_of_ids. rewrite fold_set_mem. reflexivity. Qed.

Section DictFacts4.
Context {K V : Type} `{EqKeyLaws K}.

Lemma dict_get_app_new (k : K) (v : V) (d d' : dict K V) :
  dict_mem k d = false -> dict_get k (d ++ (k, v) :: d') = Some v.
Proof.
  unfold dict_mem. induction d as [|[k0 v0] d IH]; simpl; intros Hm.
  - rewrite keqb_refl. reflexivity.
  - destruct (keqb k k0); [discriminate | auto].
Qed.

Lemma dict_del_app_new (k : K) (v : V) (d d' : dict K V) :
  dict_mem k d = false -> dict_mem k d' = false ->
  dict_del k (d ++ (k, v) :: d') = d ++ d'.
Proof.
  intros Hd Hd'. rewrite dict_del_app. simpl. rewrite keqb_refl.
  rewrite !dict_del_absent by assumption. reflexivity.
Qed.

Lemma dict_mem_map_new (f : K -> V) (k : K) (l : list K) :
  dict_mem k (map (fun x => (x, f x)) l) = existsb (keqb k) l.
Proof.
  unfold dict_mem. induction l as [|x l IH]; simpl; [reflexivity|].
  destruct (keqb k x); [reflexivity | exact IH].
Qed.
End DictFacts4.

(** ** [get_objective] *)

(** X1: [get_objective] returns [None] for a block without active
    objective, the objective of a block with exactly one, and raises for a
    block with two or more; it changes nothing. *)
Theorem get_objective_spec :
  forall (b : block) (s : sys),
    get_objective b s =
    (s, match b_objectives b with
        | [] => Ok None
        | [o] => Ok (Some o)
        | _ :: _ :: _ => Raise MultipleObjectives
        end).
Proof.
  intros b s. unfold get_objective.
  destruct (b_objectives b) as [|o [|o' l]]; reflexivity.
Qed.

(** ** [add_variables] *)

(** The loop of [add_variables] touches neither the trace nor the source
    model, and can only raise the error of a duplicate. *)
Lemma add_variable_run (v : ident) (s : sys) :
  add_variable v s =
  if dict_mem v (_referenced_variables (solver s))
  then (s, Raise AlreadyAdded)
  else ({| solver :=
             with_vars (dict_set v (var_snapshot (source s) v) (_vars (solver s)))
               (with_referenced_variables
                  (dict_set v empty_refs (_referenced_variables (solver s)))
                  (solver s));
           source := source s; trace := trace s |}, Ok tt).
Proof.
  unfold add_variable. rewrite bind_get.
  destruct (dict_mem v (_referenced_variables (solver s))); reflexivity.
Qed.

Lemma add_variable_loop_outcome (l : list ident) :
  forall s s' r,
    for_each add_variable l s = (s', r) ->
    trace s' = trace s /\ source s' = source s /\
    (r = Ok tt \/ r = Raise AlreadyAdded).
Proof.
  induction l as [|v l IH]; simpl; intros s s' r H.
  - injection H as <- <-. auto.
  - unfold bind in H. rewrite add_variable_run in H.
    destruct (dict_mem v (_referenced_variables (solver s))).
    + injection H as <- <-. auto.
    + apply IH in H. simpl in H. exact H.
Qed.

Lemma add_variable_loop_tracked (l : list ident) :
  forall s s' u,
    for_each add_variable l s = (s', Ok u) ->
    forall v, dict_mem v (_referenced_variables (solver s')) =
              dict_mem v (_referenced_variables (solver s)) || mem v l.
Proof.
  induction l as [|x l IH]; simpl; intros s s' u H v.
  - injection H as <-. rewrite orb_false_r. reflexivity.
  - unfold bind in H. rewrite add_variable_run in H.
    destruct (dict_mem x (_referenced_variables (solver s))); [discriminate|].
    rewrite (IH _ _ _ H v). simpl. rewrite dict_mem_set. unfold mem. simpl.
    rewrite orb_assoc. f_equal. apply orb_comm.
Qed.

(** The loop goes through exactly when the variables are new and
    pairwise distinct. *)
Lemma add_variable_loop_ok (l : list ident) :
  forall s,
    (exists s', for_each add_variable l s = (s', Ok tt)) <->
    NoDup l /\
    forall v, In v l -> dict_mem v (_referenced_variables (solver s)) = false.
Proof.
  induction l as [|x l IH]; simpl; intros s.
  - split; [intros _; split; [constructor | intros v []] |].
    intros _. exists s. reflexivity.
  - unfold bind. rewrite add_variable_run.
    destruct (dict_mem x (_referenced_variables (solver s))) eqn:Hx.
    + split; [intros [s' H]; discriminate|].
      intros [_ Hall]. rewrite Hall in Hx by auto. discriminate.
    + rewrite IH. simpl. split.
      * intros [Hnd Hall]. split.
        -- constructor; [|exact Hnd]. intros Hin. specialize (Hall x Hin).
           rewrite dict_mem_set, keqb_refl in Hall. discriminate.
        -- intros v [<-|Hin]; [exact Hx|]. specialize (Hall v Hin).
           rewrite dict_mem_set in Hall. apply orb_false_iff in Hall. tauto.
      * intros [Hnd Hall]. inversion Hnd as [|? ? Hnin Hnd']. subst.
        split; [exact Hnd'|]. intros v Hin. rewrite dict_mem_set.
        rewrite Hall by auto. rewrite orb_false_r.
        apply keqb_neq. intros ->. contradiction.
Qed.

(** X2: [add_variables] returns exactly when the variables of the list
    are pairwise distinct, none of them is tracked, and the backend
    accepts [_add_variables]; the trace then grows by that one call and
    every variable of the list is tracked. *)
Theorem add_variables_ok_iff :
  forall accepts (l : list ident) (s : sys),
    (exists s', add_variables accepts l s = (s', Ok tt)) <->
    (NoDup l /\
     (forall v, In v l ->
                dict_mem v (_referenced_variables (solver s)) = false) /\
     accepts (trace s) (AddVariables l) = true).
Proof.
  intros accepts l s. unfold add_variables, _add_variables. split.
  - intros [s' H]. apply bind_ok in H. destruct H as (s1 & u & Hloop & Hb).
    destruct u.
    destruct (add_variable_loop_outcome l s s1 _ Hloop) as (Ht & _ & _).
    rewrite backend_run in Hb. rewrite Ht in Hb.
    destruct (accepts (trace s) (AddVariables l)) eqn:Hacc; [|discriminate].
    destruct (proj1 (add_variable_loop_ok l s) (ex_intro _ s1 Hloop)).
    auto.
  - intros (Hnd & Hall & Hacc).
    destruct (proj2 (add_variable_loop_ok l s) (conj Hnd Hall)) as [s1 Hloop].
    destruct (add_variable_loop_outcome l s s1 _ Hloop) as (Ht & _ & _).
    rewrite (bind_eq_ok _ _ _ _ _ Hloop). rewrite backend_run.
    rewrite Ht, Hacc. eauto.
Qed.

(** X3: when [add_variables] meets a variable that is tracked already, or
    one that occurs twice in the list, it raises the error of a duplicate
    before the backend is called: the trace is what it was. *)
Theorem add_variables_duplicate :
  forall accepts (l : list ident) (s : sys),
    (~ NoDup l \/
     exists v, In v l /\
               dict_mem v (_referenced_variables (solver s)) = true) ->
    snd (add_variables accepts l s) = Raise AlreadyAdded /\
    trace (fst (add_variables accepts l s)) = trace s.
Proof.
  intros accepts l s Hdup. unfold add_variables, bind.
  destruct (for_each add_variable l s) as [s1 r] eqn:Hloop.
  destruct (add_variable_loop_outcome l s s1 r Hloop) as (Ht & _ & [->| ->]).
  - exfalso.
    destruct (proj1 (add_variable_loop_ok l s) (ex_intro _ s1 Hloop))
      as [Hnd Hall].
    destruct Hdup as [Hn|(v & Hin & Hv)]; [contradiction|].
    rewrite Hall in Hv by exact Hin. discriminate.
  - simpl. auto.
Qed.

Lemma add_variables_duplicate_witness :
  snd (add_variables always [2] (fst (add_variables always [2] small_start))) =
    Raise AlreadyAdded /\
  trace (fst (add_variables always [2]
                (fst (add_variables always [2] small_start)))) =
  trace (fst (add_variables always [2] small_start)).
Proof.
  refine (add_variables_duplicate always [2]
            (fst (add_variables always [2] small_start)) _).
  right. exists 2. split; [left; reflexivity | vm_compute; reflexivity].
Defined.

(** ** Adding variables and removing them again *)

Lemma remove_variable_run (v : ident) (s : sys) :
  remove_variable v s =
  match dict_get v (_referenced_variables (solver s)) with
  | None => (s, Raise NotAdded)
  | Some r =>
      if negb (is_empty (ref_cons r)) || negb (is_empty (ref_sos r))
         || is_some (ref_obj r)
      then (s, Raise StillUsed)
      else if dict_mem v (_vars (solver s))
           then ({| solver :=
                      with_vars (dict_del v (_vars (solver s)))
                        (with_referenced_variables
                           (dict_del v (_referenced_variables (solver s)))
                           (solver s));
                    source := source s; trace := trace s |}, Ok tt)
           else ({| solver :=
                      with_referenced_variables
                        (dict_del v (_referenced_variables (solver s)))
                        (solver s);
                    source := source s; trace := trace s |}, Raise KeyError)
  end.
Proof.
  unfold remove_variable. rewrite bind_get.
  destruct (dict_get v (_referenced_variables (solver s))) as [r|];
    [|reflexivity].
  destruct (negb (is_empty (ref_cons r)) || negb (is_empty (ref_sos r))
            || is_some (ref_obj r)); [reflexivity|].
  rewrite bind_modify. simpl.
  destruct (dict_mem v (_vars (solver s))); reflexivity.
Qed.

(** The solver object with other tables of variables. *)
Lemma with_tables_same (st : state) :
  with_vars (_vars st) (with_referenced_variables (_referenced_variables st) st)
  = st.
Proof. destruct st. reflexivity. Qed.

Lemma add_variable_loop_new (l : list ident) :
  forall s,
    NoDup l ->
    (forall v, In v l ->
               dict_mem v (_referenced_variables (solver s)) = false /\
               dict_mem v (_vars (solver s)) = false) ->
    for_each add_variable l s =
    ({| solver :=
          with_vars (_vars (solver s)
                     ++ map (fun v => (v, var_snapshot (source s) v)) l)
            (with_referenced_variables
               (_referenced_variables (solver s)
                ++ map (fun v => (v, empty_refs)) l)
               (solver s));
        source := source s; trace := trace s |}, Ok tt).
Proof.
  induction l as [|x l IH]; intros s Hnd Hnew; simpl.
  - rewrite !app_nil_r, with_tables_same. destruct s. reflexivity.
  - inversion Hnd as [|? ? Hnin Hnd']. subst.
    destruct (Hnew x (or_introl eq_refl)) as [Hr Hv].
    unfold bind. rewrite add_variable_run, Hr. rewrite IH; auto.
    + simpl. rewrite !dict_set_new by assumption.
      rewrite <- !app_assoc. reflexivity.
    + intros v Hin. simpl. rewrite !dict_mem_set.
      destruct (Hnew v (or_intror Hin)) as [-> ->].
      rewrite !orb_false_r.
      assert (Hne : keqb v x = false) by (apply keqb_neq; intros ->; auto).
      auto.
Qed.

Lemma remove_variable_loop_new (l : list ident) :
  forall (st : state) (w : world) (tr : list event)
         (R : dict ident ref_entry) (V : dict ident var_record)
         (f : ident -> var_record),
    NoDup l ->
    (forall v, In v l -> dict_mem v R = false /\ dict_mem v V = false) ->
    for_each remove_variable l
      {| solver := with_vars (V ++ map (fun v => (v, f v)) l)
                     (with_referenced_variables
                        (R ++ map (fun v => (v, empty_refs)) l) st);
         source := w; trace := tr |} =
    ({| solver := with_vars V (with_referenced_variables R st);
        source := w; trace := tr |}, Ok tt).
Proof.
  induction l as [|x l IH]; intros st w tr R V f Hnd Hnew; simpl.
  - rewrite !app_nil_r. reflexivity.
  - inversion Hnd as [|? ? Hnin Hnd']. subst.
    destruct (Hnew x (or_introl eq_refl)) as [Hr Hv].
    assert (Hxl : forall g : ident -> ref_entry,
               dict_mem x (map (fun v => (v, g v)) l) = false).
    { intros g. rewrite dict_mem_map_new. apply mem_false. exact Hnin. }
    assert (Hxl' : dict_mem x (map (fun v => (v, f v)) l) = false).
    { rewrite dict_mem_map_new. apply mem_false. exact Hnin. }
    unfold bind. rewrite remove_variable_run. simpl.
    rewrite (dict_get_app_new x empty_refs R _ Hr). simpl.
    assert (Hmem : dict_mem x (V ++ (x, f x) :: map (fun v => (v, f v)) l)
                   = true).
    { rewrite dict_mem_app. unfold dict_mem at 2. simpl.
      rewrite Nat.eqb_refl. apply orb_true_r. }
    rewrite Hmem.
    rewrite (dict_del_app_new x empty_refs R _ Hr (Hxl (fun _ => empty_refs))).
    rewrite (dict_del_app_new x (f x) V _ Hv Hxl').
    specialize (IH st w tr R V f Hnd' (fun v Hin => Hnew v (or_intror Hin))).
    simpl in IH. exact IH.
Qed.

(** X4: variables that are new to the solver object, added with
    [add_variables] and removed at once with [remove_variables], leave
    the solver object exactly as it was; the backend has received the two
    calls. *)
Theorem add_remove_variables_round_trip :
  forall accepts (l : list ident) (s : sys),
    NoDup l ->
    (forall v, In v l ->
               dict_mem v (_referenced_variables (solver s)) = false /\
               dict_mem v (_vars (solver s)) = false) ->
    accepts (trace s) (AddVariables l) = true ->
    accepts (trace s ++ [AddVariables l]) (RemoveVariables l) = true ->
    exists s1,
      add_variables accepts l s = (s1, Ok tt) /\
      remove_variables accepts l s1 =
      ({| solver := solver s; source := source s;
          trace := (trace s ++ [AddVariables l]) ++ [RemoveVariables l] |},
       Ok tt).
Proof.
  intros accepts l s Hnd Hnew Hadd Hrem.
  eexists. split.
  - unfold add_variables, _add_variables, bind.
    rewrite (add_variable_loop_new l s Hnd Hnew). rewrite backend_run.
    simpl. rewrite Hadd. reflexivity.
  - unfold remove_variables, _remove_variables, bind. rewrite backend_run.
    simpl. rewrite Hrem.
    rewrite (remove_variable_loop_new l (solver s) (source s) _
               (_referenced_variables (solver s)) (_vars (solver s))
               (var_snapshot (source s)) Hnd Hnew).
    rewrite with_tables_same. reflexivity.
Qed.

Lemma add_remove_variables_round_trip_witness :
  exists s1,
    add_variables always [2; 3] small_start = (s1, Ok tt) /\
    remove_variables always [2; 3] s1 =
    ({| solver := solver small_start; source := source small_start;
        trace := (trace small_start ++ [AddVariables [2; 3]])
                 ++ [RemoveVariables [2; 3]] |}, Ok tt).
Proof.
  refine (add_remove_variables_round_trip always [2; 3] small_start _ _ _ _).
  - repeat constructor; simpl; intuition discriminate.
  - intros v Hin. split; reflexivity.
  - reflexivity.
  - reflexivity.
Defined.

(** ** The two tables of variables go together *)

Lemma add_variable_agree (v : ident) : preserves tables_agree (add_variable v).
Proof.
  intros s Hs. rewrite add_variable_run.
  destruct (dict_mem v (_referenced_variables (solver s))); [exact Hs|].
  intros x. simpl. rewrite !dict_mem_set. rewrite (Hs x). reflexivity.
Qed.

Lemma remove_variable_agree (v : ident) :
  preserves tables_agree (remove_variable v).
Proof.
  intros s Hs. rewrite remove_variable_run.
  destruct (dict_get v (_referenced_variables (solver s))) as [r|] eqn:Hr;
    [|exact Hs].
  destruct (negb (is_empty (ref_cons r)) || negb (is_empty (ref_sos r))
            || is_some (ref_obj r)); [exact Hs|].
  assert (Hv : dict_mem v (_vars (solver s)) = true).
  { rewrite (Hs v). unfold dict_mem. rewrite Hr. reflexivity. }
  rewrite Hv. intros x. simpl. rewrite !dict_mem_del. rewrite (Hs x).
  reflexivity.
Qed.

(** Assigning to an entry that exists does not change which entries
    exist. *)
Lemma set_entry_agree (s : sys) (v : ident) (r r' : ref_entry) :
  tables_agree s ->
  dict_get v (_referenced_variables (solver s)) = Some r ->
  tables_agree
    {| solver := with_referenced_variables
                   (dict_set v r' (_referenced_variables (solver s)))
                   (solver s);
       source := source s; trace := trace s |}.
Proof.
  intros Hs Hr x. simpl. rewrite dict_mem_set. rewrite (Hs x).
  destruct (keqb_spec x v) as [->|Hne]; [|reflexivity].
  unfold dict_mem. rewrite Hr. reflexivity.
Qed.

Ltac link_agree :=
  intros s Hs; cbv beta delta [link_con link_sos link_obj unlink_con unlink_sos];
  rewrite bind_get; unfold bind, lookup;
  destruct (dict_get _ (_referenced_variables (solver s))) as [r|] eqn:Hr;
  [|exact Hs]; simpl;
  try match goal with |- context [if ?b then _ else _] => destruct b end;
  simpl; try exact Hs; eapply set_entry_agree; eauto.

Lemma link_con_agree c v : preserves tables_agree (link_con c v).
Proof. link_agree. Qed.

Lemma link_sos_agree c v : preserves tables_agree (link_sos c v).
Proof. link_agree. Qed.

Lemma link_obj_agree o v : preserves tables_agree (link_obj o v).
Proof. link_agree. Qed.

Lemma unlink_con_agree c v : preserves tables_agree (unlink_con c v).
Proof. link_agree. Qed.

Lemma unlink_sos_agree c v : preserves tables_agree (unlink_sos c v).
Proof. link_agree. Qed.

(** The check of a variable in [update] changes nothing, and a variable
    it puts into [vars_to_update] has a record in [_vars]. *)
Lemma check_variable_pure (v : ident) acc (s : sys) :
  fst (check_variable v acc s) = s /\
  forall acc', snd (check_variable v acc s) = Ok acc' ->
    dict_mem v (_vars (solver s)) = true /\
    (fst (fst acc') = fst (fst acc) \/
     fst (fst acc') = fst (fst acc) ++ [v]).
Proof.
  destruct acc as [[vu cra] need]. unfold check_variable.
  rewrite bind_get, bind_get_world. unfold bind, lookup.
  unfold dict_mem.
  destruct (dict_get v (_vars (solver s))) as [r|]; simpl;
    [|split; [reflexivity | discriminate]].
  repeat match goal with
         | |- context [if ?b then _ else _] => destruct b; simpl
         end;
    try (split; [reflexivity | intros acc' [= <-]; simpl; auto]).
  all: destruct (dict_get v (_referenced_variables (solver s))); simpl;
    (split; [reflexivity | try discriminate; intros acc' [= <-]; simpl; auto]).
Qed.

Lemma check_variables_pure (l : list ident) :
  forall acc (s : sys),
    fst (fold_each check_variable l acc s) = s /\
    forall acc', snd (fold_each check_variable l acc s) = Ok acc' ->
      forall x, In x (fst (fst acc')) ->
                In x (fst (fst acc)) \/ dict_mem x (_vars (solver s)) = true.
Proof.
  induction l as [|v l IH]; intros acc s; simpl.
  - split; [reflexivity|]. intros acc' [= <-]. auto.
  - unfold bind. destruct (check_variable_pure v acc s) as [Hs Hok].
    destruct (check_variable v acc s) as [s1 [acc1|e]]; simpl in *; subst s1.
    + destruct (Hok acc1 eq_refl) as [Hv Hacc].
      destruct (IH acc1 s) as [Hs' Hok']. split; [exact Hs'|].
      intros acc' Hr x Hx. destruct (Hok' acc' Hr x Hx) as [Hin|Hin]; auto.
      destruct Hacc as [Heq|Heq]; rewrite Heq in Hin; auto.
      apply in_app_or in Hin. destruct Hin as [Hin|[<-|[]]]; auto.
    + split; [reflexivity | discriminate].
Qed.

Lemma update_variables_agree accepts (l : list ident) :
  forall s,
    tables_agree s ->
    (forall v, In v l -> dict_mem v (_vars (solver s)) = true) ->
    tables_agree (fst (update_variables accepts l s)).
Proof.
  intros s Hs Hl. unfold update_variables, _update_variables.
  assert (Hloop : forall l s,
             tables_agree s ->
             (forall v, In v l -> dict_mem v (_vars (solver s)) = true) ->
             exists s1,
               for_each (fun v => w <- get_world ;;
                          modify (fun s => with_vars
                                    (dict_set v (var_snapshot w v) (_vars s)) s))
                        l s = (s1, Ok tt) /\ tables_agree s1).
  { clear. induction l as [|v l IH]; intros s Hs Hl; simpl.
    - exists s. split; [reflexivity | exact Hs].
    - rewrite bind_assoc, bind_get_world, bind_modify. apply IH.
      + intros x. simpl. rewrite dict_mem_set. rewrite <- (Hs x).
        destruct (keqb_spec x v) as [->|]; [|reflexivity].
        rewrite Hl by (left; reflexivity). reflexivity.
      + intros x Hx. simpl. rewrite dict_mem_set, (Hl x) by (right; exact Hx).
        apply orb_true_r. }
  destruct (Hloop l s Hs Hl) as (s1 & Hrun & Hs1).
  rewrite (bind_eq_ok _ _ _ _ _ Hrun). rewrite backend_run.
  simpl. exact Hs1.
Qed.

Lemma check_update_agree accepts (l : list ident) cra0 :
  preserves tables_agree
    (bind (fold_each check_variable l ([], cra0, false))
          (fun x => let '(vars_to_update, cons_to_remove_and_add,
                          need_to_set_objective) := x in
                    update_variables accepts vars_to_update ;;
                    ret (cons_to_remove_and_add, need_to_set_objective))).
Proof.
  intros s Hs. unfold bind at 1.
  destruct (check_variables_pure l ([], cra0, false) s) as [Hpure Hok].
  destruct (fold_each check_variable l ([], cra0, false) s)
    as [s1 [[[vu cra] need]|e]]; simpl in *; subst s1; [|exact Hs].
  pose proof (update_variables_agree accepts vu s Hs) as Hu.
  unfold bind. destruct (update_variables accepts vu s) as [s2 [u|e]];
    simpl in *; apply Hu; intros v Hv;
    destruct (Hok _ eq_refl v Hv) as [[]|H]; exact H.
Qed.

Ltac agree_lemmas :=
  idtac;
  lazymatch goal with
  | |- preserves _ (add_variable _) => apply add_variable_agree
  | |- preserves _ (remove_variable _) => apply remove_variable_agree
  | |- preserves _ (link_con _ _) => apply link_con_agree
  | |- preserves _ (link_sos _ _) => apply link_sos_agree
  | |- preserves _ (link_obj _ _) => apply link_obj_agree
  | |- preserves _ (unlink_con _ _) => apply unlink_con_agree
  | |- preserves _ (unlink_sos _ _) => apply unlink_sos_agree
  | |- preserves _ (bind (fold_each check_variable _ _) _) =>
      apply check_update_agree
  end.

Ltac agree_tac :=
  preserves_go agree_lemmas;
  try (intros ? Hagree ?; simpl; rewrite ?dict_mem_set, ?dict_mem_del;
       try apply Hagree; reflexivity).

Lemma add_variables_agree accepts l :
  preserves tables_agree (add_variables accepts l).
Proof. agree_tac. Qed.

Lemma add_params_agree accepts l :
  preserves tables_agree (add_params accepts l).
Proof. agree_tac. Qed.

Lemma add_constraints_agree accepts l :
  preserves tables_agree (add_constraints accepts l).
Proof. agree_tac. Qed.

Lemma add_sos_constraints_agree accepts l :
  preserves tables_agree (add_sos_constraints accepts l).
Proof. agree_tac. Qed.

Lemma set_objective_agree accepts o :
  preserves tables_agree (set_objective accepts o).
Proof. agree_tac. Qed.

Lemma remove_constraints_agree accepts l :
  preserves tables_agree (remove_constraints accepts l).
Proof. agree_tac. Qed.

Lemma remove_sos_constraints_agree accepts l :
  preserves tables_agree (remove_sos_constraints accepts l).
Proof. agree_tac. Qed.

Lemma remove_variables_agree accepts l :
  preserves tables_agree (remove_variables accepts l).
Proof. agree_tac. Qed.

Lemma remove_params_agree accepts l :
  preserves tables_agree (remove_params accepts l).
Proof. agree_tac. Qed.

Ltac agree_methods :=
  idtac;
  lazymatch goal with
  | |- preserves _ (add_variables _ _) => apply add_variables_agree
  | |- preserves _ (add_params _ _) => apply add_params_agree
  | |- preserves _ (add_constraints _ _) => apply add_constraints_agree
  | |- preserves _ (add_sos_constraints _ _) => apply add_sos_constraints_agree
  | |- preserves _ (set_objective _ _) => apply set_objective_agree
  | |- preserves _ (remove_constraints _ _) => apply remove_constraints_agree
  | |- preserves _ (remove_sos_constraints _ _) =>
      apply remove_sos_constraints_agree
  | |- preserves _ (remove_variables _ _) => apply remove_variables_agree
  | |- preserves _ (remove_params _ _) => apply remove_params_agree
  | |- preserves _ (bind (fold_each check_variable _ _) _) =>
      apply check_update_agree
  end.

Ltac agree_top :=
  (let h := lazymatch goal with |- preserves _ ?m => head_of m end in
   unfold h);
  preserves_go agree_methods;
  try (intros ? Hagree ?; simpl; rewrite ?dict_mem_set, ?dict_mem_del;
       try apply Hagree; reflexivity).

Lemma add_block_agree accepts b :
  preserves tables_agree (add_block accepts b).
Proof. agree_top. Qed.

Lemma remove_block_agree accepts b :
  preserves tables_agree (remove_block accepts b).
Proof. agree_top. Qed.

Lemma update_agree accepts : preserves tables_agree (update accepts).
Proof. agree_top. Qed.

Lemma set_instance_agree accepts m (s : sys) :
  tables_agree (fst (set_instance accepts m s)).
Proof.
  unfold set_instance. rewrite bind_get, bind_modify, bind_modify.
  match goal with
  | |- tables_agree (fst (?m ?s0)) =>
      assert (Hp : preserves tables_agree m)
  end.
  { preserves_go ltac:(first [ agree_methods
       | lazymatch goal with
         | |- preserves _ (add_block _ _) => apply add_block_agree
         end ]). }
  apply Hp. intros v. reflexivity.
Qed.

(** X5: [set_instance] leaves the two tables of variables together,
    whatever the solver object was before: the variables with a record in
    [_vars] are those with an entry in [_referenced_variables]. Every
    method that registers or removes things keeps them together: if they
    are before the call, they are after it, whether the method returns or
    raises. *)
Theorem tables_agree_kept :
  forall accepts,
    (forall m s, tables_agree (fst (set_instance accepts m s))) /\
    (forall s,
        tables_agree s ->
        (forall l, tables_agree (fst (add_variables accepts l s))) /\
        (forall l, tables_agree (fst (add_params accepts l s))) /\
        (forall l, tables_agree (fst (add_constraints accepts l s))) /\
        (forall l, tables_agree (fst (add_sos_constraints accepts l s))) /\
        (forall o, tables_agree (fst (set_objective accepts o s))) /\
        (forall b, tables_agree (fst (add_block accepts b s))) /\
        (forall l, tables_agree (fst (remove_constraints accepts l s))) /\
        (forall l, tables_agree (fst (remove_sos_constraints accepts l s))) /\
        (forall l, tables_agree (fst (remove_variables accepts l s))) /\
        (forall l, tables_agree (fst (remove_params accepts l s))) /\
        (forall b, tables_agree (fst (remove_block accepts b s))) /\
        tables_agree (fst (update accepts s))).
Proof.
  intros accepts. split; [intros m s; apply set_instance_agree|].
  intros s Hs. repeat split; intros.
  - apply add_variables_agree; exact Hs.
  - apply add_params_agree; exact Hs.
  - apply add_constraints_agree; exact Hs.
  - apply add_sos_constraints_agree; exact Hs.
  - apply set_objective_agree; exact Hs.
  - apply add_block_agree; exact Hs.
  - apply remove_constraints_agree; exact Hs.
  - apply remove_sos_constraints_agree; exact Hs.
  - apply remove_variables_agree; exact Hs.
  - apply remove_params_agree; exact Hs.
  - apply remove_block_agree; exact Hs.
  - apply update_agree; exact Hs.
Qed.

Lemma tables_agree_kept_witness :
  tables_agree small_model /\
  tables_agree (fst (update always small_model)) /\
  tables_agree (fst (remove_sos_constraints always [SosCon 20] small_model)).
Proof.
  destruct (tables_agree_kept always) as [Hset Hkeep].
  pose proof (Hset 0 small_start : tables_agree small_model) as H0.
  pose proof (Hkeep small_model H0) as H1.
  split; [exact H0|]. split.
  - exact (proj2 (proj2 (proj2 (proj2 (proj2 (proj2 (proj2 (proj2 (proj2
             (proj2 (proj2 H1))))))))))).
  - exact (proj1 (proj2 (proj2 (proj2 (proj2 (proj2 (proj2 (proj2 H1)))))))
             [SosCon 20]).
Defined.


(** ** What has just been recorded is found unchanged *)

Lemma optZ_eqb_refl (a : option Z) : optZ_eqb a a = true.
Proof. destruct a; simpl; [apply Z.eqb_refl | reflexivity]. Qed.

Lemma interval_eqb_refl (i : interval) : interval_eqb i i = true.
Proof.
  destruct i as [[l u] st]. simpl.
  rewrite !optZ_eqb_refl, Z.eqb_refl. reflexivity.
Qed.

Lemma value_eqb_refl (a : option number) :
  a <> Some NaN -> value_eqb a a = true.
Proof.
  destruct a as [[z|]|]; simpl; intros Hn;
    [apply Z.eqb_refl | congruence | reflexivity].
Qed.

(** A record that is the snapshot of the variable passes the check, unless
    the variable is fixed at a value that is not a number. *)
Lemma check_variable_snapshot (v : ident) acc (s : sys) :
  dict_get v (_vars (solver s)) = Some (var_snapshot (source s) v) ->
  (var_fixed (w_var (source s) v) = true ->
   var_value (w_var (source s) v) <> Some NaN) ->
  check_variable v acc s = (s, Ok acc).
Proof.
  intros Hr Hnan. destruct acc as [[vu cra] need]. unfold check_variable.
  rewrite bind_get, bind_get_world. unfold bind, lookup. rewrite Hr. simpl.
  rewrite !is_same_refl, eqb_reflx, interval_eqb_refl. simpl.
  destruct (var_fixed (w_var (source s) v)) eqn:Hf; simpl; [|reflexivity].
  rewrite value_eqb_refl by auto. reflexivity.
Qed.

(** A fixed variable whose value is not a number fails the check even
    against its own snapshot. *)
Lemma check_variable_nan (v : ident) vu cra need (s : sys) :
  dict_get v (_vars (solver s)) = Some (var_snapshot (source s) v) ->
  var_fixed (w_var (source s) v) = true ->
  var_value (w_var (source s) v) = Some NaN ->
  treat_fixed_vars_as_params (_update_config (solver s)) = false ->
  check_variable v (vu, cra, need) s = (s, Ok (vu ++ [v], cra, need)).
Proof.
  intros Hr Hf Hnan Htreat. unfold check_variable.
  rewrite bind_get, bind_get_world. unfold bind, lookup. rewrite Hr. simpl.
  rewrite !is_same_refl, eqb_reflx, Hf, Hnan, Htreat. reflexivity.
Qed.

Lemma update_variables_records accepts (l : list ident) (s : sys) :
  source (fst (update_variables accepts l s)) = source s /\
  forall v, In v l ->
    dict_get v (_vars (solver (fst (update_variables accepts l s)))) =
    Some (var_snapshot (source s) v).
Proof.
  unfold update_variables, _update_variables.
  assert (Hloop : forall l s0,
             exists s1,
               for_each (fun v => w <- get_world ;;
                          modify (fun s => with_vars
                                    (dict_set v (var_snapshot w v) (_vars s)) s))
                        l s0 = (s1, Ok tt) /\
               source s1 = source s0 /\
               (forall v r, dict_get v (_vars (solver s0)) = Some r ->
                            r = var_snapshot (source s0) v ->
                            dict_get v (_vars (solver s1)) = Some r) /\
               forall v, In v l ->
                 dict_get v (_vars (solver s1)) =
                 Some (var_snapshot (source s0) v)).
  { clear. induction l as [|x l IH]; intros s0; simpl.
    - exists s0. repeat split; auto. intros v [].
    - rewrite bind_assoc, bind_get_world, bind_modify.
      match goal with |- context [for_each _ l ?s2] =>
        destruct (IH s2) as (s1 & Hrun & Hw & Hkeep & Hnew) end.
      exists s1. simpl in *. repeat split; auto.
      + intros v r Hr ->. apply Hkeep; [|reflexivity].
        rewrite dict_get_set. destruct (keqb_spec v x) as [->|]; auto.
      + intros v [<-|Hin]; [|auto].
        apply Hkeep; [|reflexivity]. rewrite dict_get_set, keqb_refl.
        reflexivity. }
  destruct (Hloop l s) as (s1 & Hrun & Hw & _ & Hnew).
  rewrite (bind_eq_ok _ _ _ _ _ Hrun). rewrite backend_run. simpl. auto.
Qed.

(** X7: a variable that has just been passed to [update_variables] and
    that is not fixed at a value that is not a number is found unchanged by
    the check of [update]: it is not put into [vars_to_update] and nothing
    is queued for it. *)
Theorem update_variables_then_check :
  forall accepts (l : list ident) (s : sys) (v : ident)
         (acc : list ident * dict conref unit * bool),
    In v l ->
    (var_fixed (w_var (source s) v) = true ->
     var_value (w_var (source s) v) <> Some NaN) ->
    check_variable v acc (fst (update_variables accepts l s)) =
    (fst (update_variables accepts l s), Ok acc).
Proof.
  intros accepts l s v acc Hin Hnan.
  destruct (update_variables_records accepts l s) as [Hw Hrec].
  apply check_variable_snapshot; rewrite Hw; [apply Hrec; exact Hin | exact Hnan].
Qed.

Lemma update_variables_then_check_witness :
  check_variable 1 ([], [], false)
                 (fst (update_variables always [1; 2] small_start)) =
  (fst (update_variables always [1; 2] small_start), Ok ([], [], false)).
Proof.
  refine (update_variables_then_check always [1; 2] small_start 1
            ([], [], false) _ _).
  - left. reflexivity.
  - intros _. discriminate.
Defined.

Ltac recorded_tac :=
  preserves_auto;
  try solve [intros ? [A B]; split; simpl;
             rewrite ?dict_mem_set, ?B, ?orb_true_r; auto];
  try solve [intros ? [A B]; split; simpl;
       [rewrite dict_get_set;
        match goal with
        | |- (if keqb ?c ?x then _ else _) = _ =>
            destruct (keqb_spec c x) as [->|]; [|exact A]
        end;
        repeat match goal with
               | H : exists _, _ /\ solver _ = _ |- _ =>
                   destruct H as (? & [_ ?] & <-)
               end; congruence
       | rewrite ?dict_mem_set, ?B, ?orb_true_r; auto]].

Lemma add_constraint_keeps_recorded accepts (c x : conref) r afv :
  preserves (con_recorded c r) (add_constraint accepts x afv).
Proof. recorded_tac. Qed.

Lemma add_constraint_record accepts (i : ident) afv s s' afv' :
  add_constraint accepts (GenCon i) afv s = (s', Ok afv') ->
  con_recorded (GenCon i) (Some (con_snapshot (w_con (source s) i))) s'.
Proof.
  unfold add_constraint. intros H. rewrite bind_get in H.
  destruct (dict_mem (GenCon i) (_named_expressions (solver s))) eqn:Hdup;
    [discriminate H|].
  unfold con_attrs in H.
  rewrite bind_assoc, bind_get_world, bind_ret, bind_modify, bind_get_world
    in H.
  cbn [source solver trace] in H.
  destruct (collect_vars_and_named_exprs _ _) as [[[named vars] fixed] ext].
  apply bind_ok in H. destruct H as (s1 & u1 & H1 & H).
  assert (F1 : dict_get (GenCon i) (_active_constraints (solver s1)) =
               Some (Some (con_snapshot (w_con (source s) i)))).
  { frame_with (fun s0 : sys =>
                  dict_get (GenCon i) (_active_constraints (solver s0)) =
                  Some (Some (con_snapshot (w_con (source s) i))))
               H1 ltac:(preserves_auto; intros ? A; simpl; auto).
    simpl. rewrite dict_get_set, keqb_refl. reflexivity. }
  rewrite bind_modify in H.
  frame_with (con_recorded (GenCon i)
                (Some (con_snapshot (w_con (source s) i))))
             H recorded_tac.
  split; simpl; [exact F1|]. rewrite dict_mem_set, keqb_refl. reflexivity.
Qed.

Lemma same_cons_kept accepts cons wc :
  preserves (same_cons wc) (add_constraints accepts cons).
Proof.
  preserves_auto; intros ? A; unfold same_cons in *; simpl; auto.
Qed.

Lemma add_constraint_same_cons accepts c afv wc :
  preserves (same_cons wc) (add_constraint accepts c afv).
Proof.
  preserves_auto; intros ? A; unfold same_cons in *; simpl; auto.
Qed.

Lemma add_constraints_loop_records accepts (cons : list conref) :
  forall afv s s' afv',
    fold_each (add_constraint accepts) cons afv s = (s', Ok afv') ->
    forall i, In (GenCon i) cons ->
      con_recorded (GenCon i) (Some (con_snapshot (w_con (source s) i))) s'.
Proof.
  induction cons as [|x cons IH]; simpl; intros afv s s' afv' H i Hin;
    [destruct Hin|].
  apply bind_ok in H. destruct H as (s1 & afv1 & Hx & Hrest).
  assert (Hwc : w_con (source s1) = w_con (source s)).
  { exact (preserves_run _ _ _ _ _
             (add_constraint_same_cons accepts x afv (w_con (source s)))
             Hx eq_refl). }
  destruct Hin as [->|Hin].
  - apply add_constraint_record in Hx.
    exact (preserves_run _ _ _ _ _
             (preserves_fold_each _ _ cons
                (fun y b _ => add_constraint_keeps_recorded accepts _ y _ b)
                afv1) Hrest Hx).
  - rewrite <- Hwc. eapply IH; eauto.
Qed.

(** X8: a constraint that [add_constraints] has just added is found
    unchanged by the check of [update]: its record is the lower bound,
    body and upper bound it has in the source model, which is what the
    check compares with. *)
Theorem add_constraints_then_check :
  forall accepts (cons : list conref) (s s' : sys) (i : ident)
         (cons_to_remove_and_add : dict conref unit),
    add_constraints accepts cons s = (s', Ok tt) ->
    In (GenCon i) cons ->
    dict_get (GenCon i) (_active_constraints (solver s')) =
      Some (Some (con_snapshot (w_con (source s') i))) /\
    check_constraint (GenCon i) cons_to_remove_and_add s' =
      (s', Ok cons_to_remove_and_add).
Proof.
  intros accepts cons s s' i d H Hin.
  assert (Hwc : w_con (source s') = w_con (source s)).
  { exact (preserves_run _ _ _ _ _
             (same_cons_kept accepts cons (w_con (source s))) H eq_refl). }
  unfold add_constraints in H.
  apply bind_ok in H. destruct H as (s1 & afv & Hloop & H).
  destruct (add_constraints_loop_records accepts cons [] s s1 afv Hloop i Hin)
    as [Hrec _].
  assert (Hrec' : dict_get (GenCon i) (_active_constraints (solver s')) =
                  Some (Some (con_snapshot (w_con (source s) i)))).
  { frame_with (fun s0 : sys =>
                  dict_get (GenCon i) (_active_constraints (solver s0)) =
                  Some (Some (con_snapshot (w_con (source s) i))))
               H ltac:(preserves_auto; intros ? A; simpl; auto).
    exact Hrec. }
  rewrite Hwc. split; [exact Hrec'|].
  unfold check_constraint. rewrite bind_get. unfold bind at 1, lookup.
  rewrite Hrec'. unfold ret at 1. unfold con_attrs.
  rewrite bind_assoc, bind_get_world, bind_ret. unfold ret.
  rewrite Hwc. unfold constraint_changed, con_snapshot.
  rewrite Nat.eqb_refl, !bound_unchanged_refl. reflexivity.
Qed.

Lemma add_constraints_then_check_witness :
  dict_get (GenCon 10)
    (_active_constraints
       (solver (fst (add_constraints always [GenCon 10] small_start)))) =
    Some (Some (con_snapshot
                  (w_con (source (fst (add_constraints always [GenCon 10]
                                         small_start))) 10))) /\
  check_constraint (GenCon 10) []
                   (fst (add_constraints always [GenCon 10] small_start)) =
  (fst (add_constraints always [GenCon 10] small_start), Ok []).
Proof.
  refine (add_constraints_then_check always [GenCon 10] small_start
            (fst (add_constraints always [GenCon 10] small_start)) 10 [] _ _).
  - vm_compute. reflexivity.
  - left. reflexivity.
Defined.

(** ** The settings of the solver object *)

Ltac settings_tac :=
  preserves_auto; intros ? A; unfold settings in *; simpl; exact A.

Lemma add_block_settings accepts b x :
  preserves (fun s => settings s = x) (add_block accepts b).
Proof. settings_tac. Qed.

Lemma set_objective_settings accepts o x :
  preserves (fun s => settings s = x) (set_objective accepts o).
Proof. settings_tac. Qed.

Lemma update_settings accepts x :
  preserves (fun s => settings s = x) (update accepts).
Proof. settings_tac. Qed.

Lemma remove_block_settings accepts b x :
  preserves (fun s => settings s = x) (remove_block accepts b).
Proof. settings_tac. Qed.

Lemma update_variables_settings accepts l x :
  preserves (fun s => settings s = x) (update_variables accepts l).
Proof. settings_tac. Qed.

(** X9: [update], [add_block], [remove_block], [set_objective] and
    [update_variables] (and with them every method they call) never
    assign the model, the configuration or [_only_child_vars], whether
    they return or raise. *)
Theorem settings_kept :
  forall accepts (s : sys),
    settings (fst (update accepts s)) = settings s /\
    (forall b, settings (fst (add_block accepts b s)) = settings s) /\
    (forall b, settings (fst (remove_block accepts b s)) = settings s) /\
    (forall o, settings (fst (set_objective accepts o s)) = settings s) /\
    (forall l, settings (fst (update_variables accepts l s)) = settings s).
Proof.
  intros accepts s. repeat split; intros.
  - exact (update_settings accepts (settings s) s eq_refl).
  - exact (add_block_settings accepts b (settings s) s eq_refl).
  - exact (remove_block_settings accepts b (settings s) s eq_refl).
  - exact (set_objective_settings accepts o (settings s) s eq_refl).
  - exact (update_variables_settings accepts l (settings s) s eq_refl).
Qed.

(** X10: [set_instance] keeps the configuration, records the model, and
    resets [_only_child_vars] to [False] whatever it was, because it calls
    [__init__] without arguments; this holds whether [add_block] then
    returns or raises. *)
Theorem set_instance_settings :
  forall accepts (mdl : ident) (s : sys),
    settings (fst (set_instance accepts mdl s)) =
    (Some mdl, _update_config (solver s), false).
Proof.
  intros accepts mdl s. unfold set_instance.
  rewrite bind_get, bind_modify, bind_modify.
  match goal with
  | |- settings (fst (?m ?s0)) = ?x =>
      assert (Hp : preserves (fun s => settings s = x) m)
  end.
  { apply preserves_bind; [apply add_block_settings|]. intros _.
    apply preserves_bind_get. intros st _.
    destruct (_objective st);
      [apply preserves_ret | apply set_objective_settings]. }
  apply Hp. reflexivity.
Qed.

(** ** [_check_for_new_vars] and [_check_to_remove_vars] *)

Lemma fold_filter_set (p : ident -> bool) (vs : list ident) :
  forall d0 : dict ident ident,
    let d := fold_left (fun d v => if p v then dict_set v v d else d) vs d0 in
    (forall x, dict_mem x d = dict_mem x d0 || (mem x vs && p x)) /\
    (id_dict d0 -> id_dict d) /\
    (NoDup (dict_keys d0) -> NoDup (dict_keys d)).
Proof.
  induction vs as [|v vs IH]; intros d0; simpl.
  - repeat split; auto. intros x. rewrite orb_false_r. reflexivity.
  - destruct (IH (if p v then dict_set v v d0 else d0)) as (Hm & Hid & Hnd).
    repeat split.
    + intros x. rewrite Hm. unfold mem. simpl.
      destruct (Nat.eqb_spec x v) as [->|Hne]; simpl.
      * destruct (p v) eqn:Hp; simpl.
        -- rewrite dict_mem_set, keqb_refl. simpl. rewrite orb_true_r.
           reflexivity.
        -- rewrite andb_false_r. rewrite orb_false_r. reflexivity.
      * destruct (p v); [|reflexivity]. rewrite dict_mem_set.
        simpl. rewrite (proj2 (Nat.eqb_neq x v) Hne). reflexivity.
    + intros H0. apply Hid. destruct (p v); [apply id_dict_set|]; exact H0.
    + intros H0. apply Hnd.
      destruct (p v); [apply dict_set_keeps_keys_nodup|]; exact H0.
Qed.

(** The list a filtering dictionary yields: without repetition, and made
    of the elements that pass the test. *)
Lemma filtered_values (p : ident -> bool) (vs : list ident) :
  let l := dict_values
             (fold_left (fun d v => if p v then dict_set v v d else d) vs []) in
  NoDup l /\ forall x, In x l <-> In x vs /\ p x = true.
Proof.
  destruct (fold_filter_set p vs []) as (Hm & Hid & Hnd). cbv zeta.
  assert (Hid' := Hid (fun k v (H : In (k, v) []) => match H with end)).
  rewrite (id_dict_values _ Hid'). split.
  - apply Hnd. constructor.
  - intros x. rewrite <- dict_mem_keys, Hm. simpl.
    rewrite andb_true_iff, mem_In. reflexivity.
Qed.

(** X11: [_check_for_new_vars] registers the variables of its list that
    are not tracked, once each, and passes exactly those to
    [_add_variables]; it never raises the error of a duplicate: its
    outcome is that of the backend call; afterwards every variable of the
    list is tracked. *)
Theorem check_for_new_vars_spec :
  forall accepts (vs : list ident) (s : sys),
    exists l,
      NoDup l /\
      (forall v, In v l <->
                 In v vs /\
                 dict_mem v (_referenced_variables (solver s)) = false) /\
      trace (fst (_check_for_new_vars accepts vs s)) =
        trace s ++ [AddVariables l] /\
      snd (_check_for_new_vars accepts vs s) =
        (if accepts (trace s) (AddVariables l) then Ok tt
         else Raise BackendError) /\
      forall v, dict_mem v (_referenced_variables
                              (solver (fst (_check_for_new_vars accepts vs s)))) =
                dict_mem v (_referenced_variables (solver s)) || mem v vs.
Proof.
  intros accepts vs s. unfold _check_for_new_vars. rewrite bind_get.
  pose proof (filtered_values
                (fun v => negb (dict_mem v (_referenced_variables (solver s))))
                vs) as [Hnd Hin].
  set (l := dict_values _) in *.
  assert (Hin' : forall v, In v l <->
                   In v vs /\
                   dict_mem v (_referenced_variables (solver s)) = false).
  { intros v. rewrite Hin, negb_true_iff. reflexivity. }
  exists l. split; [exact Hnd|]. split; [exact Hin'|].
  destruct (proj2 (add_variable_loop_ok l s)
              (conj Hnd (fun v Hv => proj2 (proj1 (Hin' v) Hv))))
    as [s1 Hloop].
  destruct (add_variable_loop_outcome l s s1 _ Hloop) as (Ht & _ & _).
  pose proof (add_variable_loop_tracked l s s1 tt Hloop) as Hmem.
  unfold add_variables, _add_variables.
  rewrite (bind_eq_ok _ _ _ _ _ Hloop), backend_run. simpl.
  rewrite Ht. repeat split.
  intros v. rewrite Hmem.
  destruct (dict_mem v (_referenced_variables (solver s))) eqn:Hv;
    [reflexivity|]. simpl.
  destruct (mem v l) eqn:Hl, (mem v vs) eqn:Hvs; try reflexivity.
  - apply mem_In, Hin' in Hl. apply mem_false in Hvs. tauto.
  - apply mem_false in Hl. apply mem_In in Hvs. exfalso. apply Hl.
    apply Hin'. auto.
Qed.

(** The first loop of [_check_to_remove_vars] changes nothing; it raises
    at a variable without entry, and otherwise collects the variables
    whose entry is empty. *)
Lemma check_to_remove_fold (vs : list ident) (s : sys) :
  forall d0,
    fold_each (fun v d =>
                 st <- get ;;
                 r <- lookup v (_referenced_variables st) ;;
                 if is_empty (ref_cons r) && is_empty (ref_sos r)
                    && negb (is_some (ref_obj r))
                 then ret (dict_set v v d) else ret d) vs d0 s =
    (s, if forallb (fun v => dict_mem v (_referenced_variables (solver s))) vs
        then Ok (fold_left
                   (fun d v =>
                      if match dict_get v (_referenced_variables (solver s)) with
                         | Some r => is_empty (ref_cons r) && is_empty (ref_sos r)
                                     && negb (is_some (ref_obj r))
                         | None => false
                         end
                      then dict_set v v d else d) vs d0)
        else Raise KeyError).
Proof.
  induction vs as [|v vs IH]; intros d0; simpl; [reflexivity|].
  unfold bind at 1. rewrite bind_get. unfold bind at 1, lookup, dict_mem.
  destruct (dict_get v (_referenced_variables (solver s))) as [r|];
    simpl; [|reflexivity].
  destruct (is_empty (ref_cons r) && is_empty (ref_sos r)
            && negb (is_some (ref_obj r))); simpl; apply IH.
Qed.

(** X12: [_check_to_remove_vars] raises [KeyError] when a variable of its
    list has no entry in [_referenced_variables], before the backend is
    called and without changing anything. *)
Theorem check_to_remove_vars_untracked :
  forall accepts (vs : list ident) (s : sys) (v : ident),
    In v vs ->
    dict_mem v (_referenced_variables (solver s)) = false ->
    _check_to_remove_vars accepts vs s = (s, Raise KeyError).
Proof.
  intros accepts vs s v Hin Hv. unfold _check_to_remove_vars.
  unfold bind. rewrite check_to_remove_fold.
  destruct (forallb _ vs) eqn:Hall; [|reflexivity].
  rewrite forallb_forall in Hall. rewrite (Hall v Hin) in Hv. discriminate.
Qed.

Lemma check_to_remove_vars_untracked_witness :
  _check_to_remove_vars always [2] small_start = (small_start, Raise KeyError).
Proof.
  refine (check_to_remove_vars_untracked always [2] small_start 2 _ _).
  - left. reflexivity.
  - reflexivity.
Defined.

(** The loop of [remove_variables] over distinct variables that are
    tracked, unreferenced and recorded. *)
Lemma remove_variable_loop_ok (l : list ident) :
  forall s,
    NoDup l ->
    (forall v, In v l ->
       (exists r, dict_get v (_referenced_variables (solver s)) = Some r /\
                  unreferenced r) /\
       dict_mem v (_vars (solver s)) = true) ->
    exists s',
      for_each remove_variable l s = (s', Ok tt) /\
      trace s' = trace s /\ source s' = source s /\
      (forall v, dict_get v (_referenced_variables (solver s')) =
                 if mem v l then None
                 else dict_get v (_referenced_variables (solver s))) /\
      (forall v, dict_get v (_vars (solver s')) =
                 if mem v l then None else dict_get v (_vars (solver s))).
Proof.
  induction l as [|x l IH]; intros s Hnd Hall; simpl.
  - exists s. repeat split; auto.
  - inversion Hnd as [|? ? Hnin Hnd']. subst.
    destruct (Hall x (or_introl eq_refl)) as [(r & Hr & Hun) Hv].
    unfold bind. rewrite remove_variable_run, Hr.
    rewrite (proj2 (unreferenced_dec r) Hun), Hv.
    match goal with |- context [for_each _ l ?s0] =>
      destruct (IH s0 Hnd') as (s' & Hrun & Ht & Hw & Hrefs & Hvars) end.
    { intros v Hin. simpl. rewrite dict_get_del, dict_mem_del.
      assert (Hne : keqb v x = false)
        by (apply keqb_neq; intros ->; contradiction).
      rewrite Hne. simpl. apply Hall. right. exact Hin. }
    exists s'. rewrite Hrun. simpl in Ht, Hw, Hrefs, Hvars.
    repeat split; auto.
    + intros v. rewrite Hrefs, dict_get_del.
      change (keqb v x) with (Nat.eqb v x).
      destruct (Nat.eqb v x), (mem v l); reflexivity.
    + intros v. rewrite Hvars, dict_get_del.
      change (keqb v x) with (Nat.eqb v x).
      destruct (Nat.eqb v x), (mem v l); reflexivity.
Qed.

(** X13: when every variable of its list is tracked,
    [_check_to_remove_vars] passes to [_remove_variables] exactly the
    variables of the list whose entry shows no constraint, no SOS
    constraint and no objective, once each; if the backend accepts the
    call it returns, and these variables, and no others, have lost their
    entry and their record. *)
Theorem check_to_remove_vars_spec :
  forall accepts (vs : list ident) (s : sys),
    tables_agree s ->
    (forall v, In v vs ->
               dict_mem v (_referenced_variables (solver s)) = true) ->
    exists l,
      NoDup l /\
      (forall v, In v l <->
                 In v vs /\
                 exists r, dict_get v (_referenced_variables (solver s)) = Some r
                           /\ unreferenced r) /\
      trace (fst (_check_to_remove_vars accepts vs s)) =
        trace s ++ [RemoveVariables l] /\
      (accepts (trace s) (RemoveVariables l) = true ->
       snd (_check_to_remove_vars accepts vs s) = Ok tt /\
       forall v,
         dict_get v (_referenced_variables
                       (solver (fst (_check_to_remove_vars accepts vs s)))) =
           (if mem v l then None
            else dict_get v (_referenced_variables (solver s))) /\
         dict_get v (_vars (solver (fst (_check_to_remove_vars accepts vs s)))) =
           (if mem v l then None else dict_get v (_vars (solver s)))).
Proof.
  intros accepts vs s Hagree Hall.
  assert (Hfa : forallb (fun v => dict_mem v (_referenced_variables (solver s)))
                        vs = true).
  { apply forallb_forall. exact Hall. }
  pose proof (filtered_values
                (fun v =>
                   match dict_get v (_referenced_variables (solver s)) with
                   | Some r => is_empty (ref_cons r) && is_empty (ref_sos r)
                               && negb (is_some (ref_obj r))
                   | None => false
                   end) vs) as [Hnd Hin].
  set (l := dict_values _) in *.
  assert (Hin' : forall v, In v l <->
            In v vs /\
            exists r, dict_get v (_referenced_variables (solver s)) = Some r
                      /\ unreferenced r).
  { intros v. rewrite Hin. split; intros [Hv Hp]; split; auto.
    - destruct (dict_get v (_referenced_variables (solver s))) as [r|];
        [|discriminate].
      exists r. split; [reflexivity|]. apply unreferenced_dec.
      destruct (ref_cons r), (ref_sos r), (ref_obj r); simpl in *;
        congruence.
    - destruct Hp as (r & -> & Hun). apply unreferenced_dec in Hun.
      destruct (ref_cons r), (ref_sos r), (ref_obj r); simpl in *;
        congruence. }
  exists l. split; [exact Hnd|]. split; [exact Hin'|].
  assert (Heq : _check_to_remove_vars accepts vs s =
                remove_variables accepts l s).
  { unfold _check_to_remove_vars. unfold bind at 1.
    rewrite check_to_remove_fold, Hfa. reflexivity. }
  rewrite Heq. unfold remove_variables, _remove_variables.
  rewrite bind_backend.
  destruct (remove_variable_loop_ok l
              {| solver := solver s; source := source s;
                 trace := trace s ++ [RemoveVariables l] |} Hnd)
    as (s' & Hrun & Ht & Hw & Hrefs & Hvars).
  { intros v Hv. simpl. destruct (proj1 (Hin' v) Hv) as [_ (r & Hr & Hun)].
    split; [eauto|]. rewrite (Hagree v). unfold dict_mem. rewrite Hr.
    reflexivity. }
  destruct (accepts (trace s) (RemoveVariables l)) eqn:Hacc.
  - rewrite Hrun. simpl. split; [exact Ht|]. intros _. split; [reflexivity|].
    intros v. split; [apply Hrefs | apply Hvars].
  - simpl. split; [reflexivity | discriminate].
Qed.

Lemma check_to_remove_vars_spec_witness :
  exists l,
    NoDup l /\
    (forall v, In v l <->
               In v [2] /\
               exists r,
                 dict_get v (_referenced_variables
                               (solver (fst (add_variables always [2]
                                               small_start)))) = Some r
                 /\ unreferenced r) /\
    trace (fst (_check_to_remove_vars always [2]
                  (fst (add_variables always [2] small_start)))) =
      trace (fst (add_variables always [2] small_start))
      ++ [RemoveVariables l] /\
    (always (trace (fst (add_variables always [2] small_start)))
            (RemoveVariables l) = true ->
     snd (_check_to_remove_vars always [2]
            (fst (add_variables always [2] small_start))) = Ok tt /\
     forall v,
       dict_get v (_referenced_variables
                     (solver (fst (_check_to_remove_vars always [2]
                                     (fst (add_variables always [2]
                                             small_start))))))
       = (if mem v l then None
          else dict_get v (_referenced_variables
                             (solver (fst (add_variables always [2]
                                             small_start))))) /\
       dict_get v (_vars (solver (fst (_check_to_remove_vars always [2]
                                         (fst (add_variables always [2]
                                                 small_start))))))
       = (if mem v l then None
          else dict_get v (_vars (solver (fst (add_variables always [2]
                                                 small_start)))))).
Proof.
  refine (check_to_remove_vars_spec always [2]
            (fst (add_variables always [2] small_start)) _ _).
  - intros v. vm_compute.
    match goal with
    | |- context [match ?b with true => _ | false => _ end] => destruct b
    end; reflexivity.
  - intros v [<-|[]]. vm_compute. reflexivity.
Defined.

(** ** Parameters *)

Lemma with_params_same (st : state) : with_params (_params st) st = st.
Proof. destruct st. reflexivity. Qed.

Lemma add_params_loop_new (l : list ident) :
  forall s,
    NoDup l ->
    (forall p, In p l -> dict_mem p (_params (solver s)) = false) ->
    for_each (fun p => modify (fun s => with_params
                                 (dict_set p p (_params s)) s)) l s =
    ({| solver := with_params (_params (solver s) ++ map (fun p => (p, p)) l)
                    (solver s);
        source := source s; trace := trace s |}, Ok tt).
Proof.
  induction l as [|x l IH]; intros s Hnd Hnew; simpl.
  - rewrite app_nil_r, with_params_same. destruct s. reflexivity.
  - inversion Hnd as [|? ? Hnin Hnd']. subst.
    rewrite bind_modify. rewrite IH; auto.
    + simpl. rewrite dict_set_new by (apply Hnew; left; reflexivity).
      rewrite <- app_assoc. reflexivity.
    + intros p Hin. simpl. rewrite dict_mem_set.
      rewrite (Hnew p (or_intror Hin)), orb_false_r.
      apply keqb_neq. intros ->. contradiction.
Qed.

Lemma remove_params_loop_new (l : list ident) :
  forall (st : state) (w : world) (tr : list event) (P : dict ident ident),
    NoDup l ->
    (forall p, In p l -> dict_mem p P = false) ->
    for_each (del_item _params with_params) l
      {| solver := with_params (P ++ map (fun p => (p, p)) l) st;
         source := w; trace := tr |} =
    ({| solver := with_params P st; source := w; trace := tr |}, Ok tt).
Proof.
  induction l as [|x l IH]; intros st w tr P Hnd Hnew; simpl.
  - rewrite app_nil_r. reflexivity.
  - inversion Hnd as [|? ? Hnin Hnd']. subst.
    unfold bind. rewrite del_item_run. simpl.
    assert (Hmem : dict_mem x (P ++ (x, x) :: map (fun p => (p, p)) l) = true).
    { rewrite dict_mem_app. unfold dict_mem at 2. simpl.
      rewrite Nat.eqb_refl. apply orb_true_r. }
    rewrite Hmem.
    rewrite (dict_del_app_new x x P _ (Hnew x (or_introl eq_refl))).
    + specialize (IH st w tr P Hnd' (fun p Hin => Hnew p (or_intror Hin))).
      destruct st. simpl in *. exact IH.
    + rewrite dict_mem_map_new. apply mem_false. exact Hnin.
Qed.

(** X14: parameters that are new to the solver object, added with
    [add_params] and removed at once with [remove_params], leave the
    solver object exactly as it was; the backend has received the two
    calls. *)
Theorem add_remove_params_round_trip :
  forall accepts (l : list ident) (s : sys),
    NoDup l ->
    (forall p, In p l -> dict_mem p (_params (solver s)) = false) ->
    accepts (trace s) (AddParams l) = true ->
    accepts (trace s ++ [AddParams l]) (RemoveParams l) = true ->
    exists s1,
      add_params accepts l s = (s1, Ok tt) /\
      remove_params accepts l s1 =
      ({| solver := solver s; source := source s;
          trace := (trace s ++ [AddParams l]) ++ [RemoveParams l] |}, Ok tt).
Proof.
  intros accepts l s Hnd Hnew Hadd Hrem. eexists. split.
  - unfold add_params, _add_params, bind.
    rewrite (add_params_loop_new l s Hnd Hnew). rewrite backend_run.
    simpl. rewrite Hadd. reflexivity.
  - unfold remove_params, _remove_params, bind. rewrite backend_run.
    simpl. rewrite Hrem.
    rewrite (remove_params_loop_new l (solver s) (source s) _
               (_params (solver s)) Hnd Hnew).
    rewrite with_params_same. reflexivity.
Qed.

Lemma add_remove_params_round_trip_witness :
  exists s1,
    add_params always [60; 61] small_start = (s1, Ok tt) /\
    remove_params always [60; 61] s1 =
    ({| solver := solver small_start; source := source small_start;
        trace := (trace small_start ++ [AddParams [60; 61]])
                 ++ [RemoveParams [60; 61]] |}, Ok tt).
Proof.
  refine (add_remove_params_round_trip always [60; 61] small_start _ _ _ _).
  - repeat constructor; simpl; intuition discriminate.
  - intros p Hin. reflexivity.
  - reflexivity.
  - reflexivity.
Defined.

Lemma remove_params_loop_unknown (l : list ident) :
  forall s p,
    In p l -> dict_mem p (_params (solver s)) = false ->
    snd (for_each (del_item _params with_params) l s) = Raise KeyError /\
    trace (fst (for_each (del_item _params with_params) l s)) = trace s.
Proof.
  induction l as [|x l IH]; intros s p Hin Hp; [destruct Hin|].
  simpl. unfold bind. rewrite del_item_run.
  destruct (dict_mem x (_params (solver s))) eqn:Hx.
  - destruct Hin as [->|Hin]; [congruence|].
    match goal with
    | |- context [for_each _ l ?s0] => destruct (IH s0 p Hin) as [A B]
    end.
    + simpl. rewrite dict_mem_del, Hp. apply andb_false_r.
    + split; [exact A | exact B].
  - simpl. auto.
Qed.

(** X15: [remove_params] asks the backend first: for a list that holds a
    parameter the solver object does not know, the backend receives
    [_remove_params] with the whole list and the call then raises
    [KeyError]. *)
Theorem remove_params_unknown :
  forall accepts (l : list ident) (s : sys) (p : ident),
    In p l ->
    dict_mem p (_params (solver s)) = false ->
    accepts (trace s) (RemoveParams l) = true ->
    snd (remove_params accepts l s) = Raise KeyError /\
    trace (fst (remove_params accepts l s)) = trace s ++ [RemoveParams l].
Proof.
  intros accepts l s p Hin Hp Hacc.
  unfold remove_params, _remove_params. rewrite bind_backend, Hacc.
  exact (remove_params_loop_unknown l
           {| solver := solver s; source := source s;
              trace := trace s ++ [RemoveParams l] |} p Hin Hp).
Qed.

Lemma remove_params_unknown_witness :
  snd (remove_params always [60] small_start) = Raise KeyError /\
  trace (fst (remove_params always [60] small_start)) =
  trace small_start ++ [RemoveParams [60]].
Proof.
  refine (remove_params_unknown always [60] small_start 60 _ _ _).
  - left. reflexivity.
  - reflexivity.
  - reflexivity.
Defined.

(** ** [set_objective] and the variables that constraints use *)

Lemma not_named_event (v : ident) pre (s : sys) (ev : event) :
  not_named v pre s ->
  (forall l, ev = RemoveVariables l \/ ev = AddVariables l -> ~ In v l) ->
  not_named v pre {| solver := solver s; source := source s;
                     trace := trace s ++ [ev] |}.
Proof.
  intros (evs & Ht & Hev) Hnew. exists (evs ++ [ev]). simpl. split.
  - rewrite Ht, app_assoc. reflexivity.
  - intros l [Hin|Hin]; apply in_app_or in Hin;
      destruct Hin as [Hin|[Heq|[]]]; eauto.
Qed.

Lemma kept_same_trace (v : ident) pre (s : sys) (st : state) (w : world) :
  kept_referenced v pre s ->
  _referenced_variables st = _referenced_variables (solver s) ->
  kept_referenced v pre {| solver := st; source := w; trace := trace s |}.
Proof.
  intros [(r & Hr & Hne) Hn] Heq. split.
  - exists r. simpl. rewrite Heq. auto.
  - exact Hn.
Qed.

Lemma add_variable_kept (v x : ident) pre :
  preserves (kept_referenced v pre) (add_variable x).
Proof.
  intros s Hs. rewrite add_variable_run.
  destruct (dict_mem x (_referenced_variables (solver s))) eqn:Hx;
    [exact Hs|].
  destruct Hs as [(r & Hr & Hne) Hn]. split; [|exact Hn].
  exists r. simpl. rewrite dict_get_set.
  destruct (keqb_spec v x) as [->|]; [|auto].
  unfold dict_mem in Hx. rewrite Hr in Hx. discriminate.
Qed.

Lemma remove_variable_kept (v x : ident) pre :
  preserves (kept_referenced v pre) (remove_variable x).
Proof.
  intros s Hs. rewrite remove_variable_run.
  destruct (dict_get x (_referenced_variables (solver s))) as [rx|] eqn:Hx;
    [|exact Hs].
  destruct (negb (is_empty (ref_cons rx)) || negb (is_empty (ref_sos rx))
            || is_some (ref_obj rx)) eqn:Hused; [exact Hs|].
  assert (Hne : v <> x).
  { intros ->. destruct Hs as [(r & Hr & Hne) _]. rewrite Hx in Hr.
    injection Hr as ->.
    destruct (is_empty (ref_cons r)), (is_empty (ref_sos r));
      simpl in *; discriminate. }
  assert (Hkeep : forall d : dict ident ref_entry,
             dict_get v (dict_del x d) = dict_get v d).
  { intros d. rewrite dict_get_del, (keqb_neq _ _ Hne). reflexivity. }
  destruct Hs as [(r & Hr & Hnemp) Hn].
  destruct (dict_mem x (_vars (solver s))); simpl;
    (split; [exists r; simpl; rewrite Hkeep; auto | exact Hn]).
Qed.

Lemma link_obj_kept (v x : ident) o pre :
  preserves (kept_referenced v pre) (link_obj o x).
Proof.
  intros s Hs. unfold link_obj. rewrite bind_get. unfold bind, lookup.
  destruct (dict_get x (_referenced_variables (solver s))) as [rx|] eqn:Hx;
    [|exact Hs].
  simpl. destruct Hs as [(r & Hr & Hne) Hn]. split; [|exact Hn].
  unfold con_referenced. simpl. rewrite dict_get_set.
  destruct (keqb_spec v x) as [->|]; [|exists r; auto].
  rewrite Hx in Hr. injection Hr as ->. eexists. split; [reflexivity|].
  exact Hne.
Qed.

Lemma check_for_new_vars_kept accepts (v : ident) vs pre :
  preserves (kept_referenced v pre) (_check_for_new_vars accepts vs).
Proof.
  intros s Hs. unfold _check_for_new_vars. rewrite bind_get.
  pose proof (filtered_values
                (fun x => negb (dict_mem x (_referenced_variables (solver s))))
                vs) as [_ Hin].
  set (l := dict_values _) in *.
  assert (Hv : ~ In v l).
  { intros Hl. apply Hin in Hl. destruct Hl as [_ Hl].
    destruct Hs as [(r & Hr & _) _]. unfold dict_mem in Hl.
    rewrite Hr in Hl. discriminate. }
  assert (Hp : preserves (kept_referenced v pre) (add_variables accepts l)).
  { unfold add_variables, _add_variables. apply preserves_bind.
    - apply preserves_for_each. intros x _. apply add_variable_kept.
    - intros _. apply preserves_backend. intros s0 [Hc Hn].
      split; [exact Hc|]. apply not_named_event; [exact Hn|].
      intros l0 [Heq|Heq]; [discriminate | injection Heq as <-; exact Hv]. }
  exact (Hp s Hs).
Qed.

Lemma check_to_remove_vars_kept accepts (v : ident) vs pre :
  preserves (kept_referenced v pre) (_check_to_remove_vars accepts vs).
Proof.
  intros s Hs. unfold _check_to_remove_vars. unfold bind at 1.
  rewrite check_to_remove_fold.
  destruct (forallb _ vs); [|exact Hs].
  pose proof (filtered_values
                (fun x =>
                   match dict_get x (_referenced_variables (solver s)) with
                   | Some r => is_empty (ref_cons r) && is_empty (ref_sos r)
                               && negb (is_some (ref_obj r))
                   | None => false
                   end) vs) as [_ Hin].
  set (l := dict_values _) in *.
  assert (Hv : ~ In v l).
  { intros Hl. apply Hin in Hl. destruct Hl as [_ Hl].
    destruct Hs as [(r & Hr & Hne) _]. rewrite Hr, Hne in Hl.
    discriminate. }
  assert (Hp : preserves (kept_referenced v pre)
                         (remove_variables accepts l)).
  { unfold remove_variables, _remove_variables. apply preserves_bind.
    - apply preserves_backend. intros s0 [Hc Hn].
      split; [exact Hc|]. apply not_named_event; [exact Hn|].
      intros l0 [Heq|Heq]; [injection Heq as <-; exact Hv | discriminate].
    - intros _. apply preserves_for_each. intros x _.
      apply remove_variable_kept. }
  exact (Hp s Hs).
Qed.

Ltac kept_lemmas :=
  idtac;
  lazymatch goal with
  | |- preserves _ (link_obj _ _) => apply link_obj_kept
  | |- preserves _ (_check_for_new_vars _ _) => apply check_for_new_vars_kept
  | |- preserves _ (_check_to_remove_vars _ _) =>
      apply check_to_remove_vars_kept
  end.

Lemma set_objective_kept accepts (v : ident) o pre :
  preserves (kept_referenced v pre) (set_objective accepts o).
Proof.
  preserves_go kept_lemmas;
    try (intros ? Hk; apply kept_same_trace; [exact Hk | reflexivity]).
  all: intros ? [Hc Hn]; (split; [exact Hc|]);
    apply not_named_event; [exact Hn|]; intros ? [Heq|Heq]; discriminate.
Qed.

(** X16: a tracked variable that some constraint or SOS constraint refers
    to is left in place by [set_objective], whether the call returns or
    raises and whether or not the old and the new objective use it: it
    keeps its entry with those references, and no [_remove_variables] or
    [_add_variables] call of the swap names it. *)
Theorem set_objective_keeps_constraint_variables :
  forall accepts (o : option ident) (s : sys) (v : ident),
    con_referenced v s ->
    con_referenced v (fst (set_objective accepts o s)) /\
    exists evs,
      trace (fst (set_objective accepts o s)) = trace s ++ evs /\
      forall l, In (RemoveVariables l) evs \/ In (AddVariables l) evs ->
                ~ In v l.
Proof.
  intros accepts o s v Hv.
  apply (set_objective_kept accepts v o (trace s) s).
  split; [exact Hv|]. exists []. split; [symmetry; apply app_nil_r|].
  intros l [[]|[]].
Qed.

Lemma set_objective_keeps_constraint_variables_witness :
  con_referenced 2
    (fst (set_objective always None (fst (set_instance always 0 small_start))))
  /\
  exists evs,
    trace (fst (set_objective always None
                  (fst (set_instance always 0 small_start)))) =
    trace (fst (set_instance always 0 small_start)) ++ evs /\
    forall l, In (RemoveVariables l) evs \/ In (AddVariables l) evs ->
              ~ In 2 l.
Proof.
  refine (set_objective_keeps_constraint_variables always None
            (fst (set_instance always 0 small_start)) 2 _).
  unfold con_referenced. eexists. split.
  - vm_compute. reflexivity.
  - vm_compute. reflexivity.
Defined.

(** ** The run of [update] *)

Lemma model_block_run (s : sys) (m : ident) :
  _model (solver s) = Some m ->
  model_block s = (s, Ok (w_block (source s) m)).
Proof.
  intros Hm. unfold model_block. rewrite bind_get, Hm. reflexivity.
Qed.

Lemma mem_cons_key {K} `{EqKey K} (c x : K) (l : list K) :
  mem c (x :: l) = keqb c x || mem c l.
Proof. reflexivity. Qed.

(** The loop over [cons_to_update] reads only: when it returns, the
    constraints queued are those it found changed. *)
Lemma check_constraint_run (c : conref) d (s s' : sys) d' :
  check_constraint c d s = (s', Ok d') ->
  s' = s /\ d' = (if changed_at s c then dict_set c tt d else d).
Proof.
  unfold check_constraint, changed_at. rewrite bind_get.
  unfold bind at 1, lookup.
  destruct (dict_get c (_active_constraints (solver s))) as [[r|]|] eqn:Hr;
    simpl; try discriminate.
  destruct c as [i|i]; simpl; [|discriminate].
  rewrite bind_assoc, bind_get_world, bind_ret. unfold ret.
  intros [= <- <-]. rewrite Hr. auto.
Qed.

Lemma check_constraints_run (l : list conref) :
  forall d (s s' : sys) d',
    fold_each check_constraint l d s = (s', Ok d') ->
    s' = s /\
    forall c, dict_mem c d' = dict_mem c d || (mem c l && changed_at s c).
Proof.
  induction l as [|x l IH]; cbn [fold_each]; intros d s s' d' H.
  - injection H as <- <-. split; [reflexivity|]. intros c.
    simpl. rewrite orb_false_r. reflexivity.
  - apply bind_ok in H. destruct H as (s1 & d1 & Hx & Hrest).
    apply check_constraint_run in Hx. destruct Hx as [-> ->].
    destruct (IH _ _ _ _ Hrest) as [-> Hmem]. split; [reflexivity|].
    intros c. rewrite Hmem.
    rewrite mem_cons_key.
    destruct (changed_at s x) eqn:Hx.
    + rewrite dict_mem_set. destruct (keqb_spec c x) as [->|Hne].
      * rewrite Hx. simpl. rewrite orb_true_r. reflexivity.
      * reflexivity.
    + destruct (keqb_spec c x) as [->|Hne]; [|reflexivity].
      rewrite Hx, !andb_false_r. reflexivity.
Qed.

Lemma fold_queue_keeps (c : conref) (l : list conref) :
  forall d : dict conref unit,
    dict_mem c d = true ->
    dict_mem c (fold_left (fun d c => dict_set c tt d) l d) = true.
Proof.
  induction l as [|x l IH]; simpl; intros d Hd; [exact Hd|].
  apply IH. rewrite dict_mem_set, Hd. apply orb_true_r.
Qed.

(** The check of a variable only adds to [cons_to_remove_and_add], and
    adds nothing to it unless fixed variables are treated as parameters. *)
Lemma check_variable_queue (v : ident) acc (s : sys) acc' :
  snd (check_variable v acc s) = Ok acc' ->
  (forall c, dict_mem c (snd (fst acc)) = true ->
             dict_mem c (snd (fst acc')) = true) /\
  (treat_fixed_vars_as_params (_update_config (solver s)) = false ->
   snd (fst acc') = snd (fst acc)).
Proof.
  destruct acc as [[vu cra] need]. unfold check_variable.
  rewrite bind_get, bind_get_world. unfold bind, lookup.
  destruct (dict_get v (_vars (solver s))) as [r|]; simpl; [|discriminate].
  repeat match goal with
         | |- context [if ?b then _ else _] => destruct b eqn:?; simpl
         end;
    try (intros [= <-]; simpl; split; [auto | reflexivity]).
  all: destruct (dict_get v (_referenced_variables (solver s))); simpl;
    try discriminate; intros [= <-]; simpl;
    (split; [intros c; apply fold_queue_keeps | discriminate]).
Qed.

Lemma check_variables_queue (l : list ident) :
  forall acc (s s' : sys) acc',
    fold_each check_variable l acc s = (s', Ok acc') ->
    s' = s /\
    (forall c, dict_mem c (snd (fst acc)) = true ->
               dict_mem c (snd (fst acc')) = true) /\
    (treat_fixed_vars_as_params (_update_config (solver s)) = false ->
     snd (fst acc') = snd (fst acc)).
Proof.
  induction l as [|v l IH]; cbn [fold_each]; intros acc s s' acc' H.
  - injection H as <- <-. auto.
  - apply bind_ok in H. destruct H as (s1 & acc1 & Hv & Hrest).
    pose proof (proj1 (check_variable_pure v acc s)) as Hs.
    rewrite Hv in Hs. simpl in Hs. subst s1.
    assert (Hq := check_variable_queue v acc s acc1).
    rewrite Hv in Hq. destruct (Hq eq_refl) as [Hm Hsame].
    destruct (IH _ _ _ _ Hrest) as (-> & Hm' & Hsame').
    split; [reflexivity|]. split.
    + intros c Hc. auto.
    + intros Ht. rewrite Hsame', Hsame; auto.
Qed.

Lemma dict_of_keys_mem {K} `{EqKeyLaws K} (c : K) (l : list K) :
  dict_mem c (dict_of_keys l) = mem c l.
Proof.
  unfold dict_of_keys.
  assert (Hgen : forall d : dict K unit,
             dict_mem c (fold_left (fun d x => dict_set x tt d) l d) =
             dict_mem c d || mem c l).
  { induction l as [|x l IH]; intros d; cbn [fold_left].
    - simpl. rewrite orb_false_r. reflexivity.
    - rewrite IH, dict_mem_set, mem_cons_key.
      destruct (keqb c x), (dict_mem c d), (mem c l); reflexivity. }
  rewrite Hgen. reflexivity.
Qed.

Lemma left_alone_event (c : conref) pre (s : sys) (ev : event) :
  con_left_alone c pre s ->
  (forall l, ev = RemoveConstraints l \/ ev = AddConstraints l -> ~ In c l) ->
  con_left_alone c pre {| solver := solver s; source := source s;
                          trace := trace s ++ [ev] |}.
Proof.
  intros (evs & Ht & Hev) Hnew. exists (evs ++ [ev]). simpl. split.
  - rewrite Ht, app_assoc. reflexivity.
  - intros l [Hi|Hi]; apply in_app_or in Hi;
      destruct Hi as [Hi|[Heq|[]]]; eauto.
Qed.

(** *** What the passes that do not name a constraint keep *)

Lemma In_dict_set_other {K V} `{EqKeyLaws K} (c k : K) (l v : V)
      (d : dict K V) :
  k <> c -> In (c, l) (dict_set k v d) -> In (c, l) d.
Proof.
  intros Hne. induction d as [|[k0 v0] d IH]; simpl.
  - intros [[= -> _]|[]]. congruence.
  - destruct (keqb k k0); simpl.
    + intros [[= -> _]|Hin]; [congruence | auto].
    + intros [Heq|Hin]; auto.
Qed.

Lemma In_dict_del {K V} `{EqKeyLaws K} (c k : K) (l : V) (d : dict K V) :
  In (c, l) (dict_del k d) -> In (c, l) d.
Proof.
  induction d as [|[k0 v0] d IH]; simpl; [auto|].
  destruct (keqb k k0); simpl; [auto|]. intros [Heq|Hin]; auto.
Qed.

Ltac diff_close :=
  try solve [intros ? ([A1 A2] & B & C & D);
             split; [split; simpl;
                     [rewrite ?dict_get_set, ?dict_get_del;
                      rewrite ?keqb_neq by congruence; exact A1
                     | exact A2]
                    | split; [exact B | split; [exact C|]]];
             let l' := fresh "l" in
             intros Hq l' Hl; apply (D Hq l'); simpl in Hl;
             first [ exact Hl
                   | apply In_dict_del in Hl; exact Hl
                   | apply In_dict_set_other in Hl;
                     [exact Hl | congruence] ]];
  try solve [intros ? (A & B & C & D);
             split; [exact A | split; [exact B|split; [|exact D]]];
             apply left_alone_event; [exact C|];
             intros ? [E|E]; try discriminate E;
             injection E as <-; assumption].

Ltac diff_tac := preserves_auto; diff_close.

Lemma add_constraint_diff accepts (c x : conref) r wc cfg pre Q afv :
  x <> c ->
  preserves (diff_inv c r wc cfg pre Q) (add_constraint accepts x afv).
Proof. intros Hne. diff_tac. Qed.

Lemma add_sos_constraint_diff accepts (c x : conref) r wc cfg pre Q :
  x <> c ->
  preserves (diff_inv c r wc cfg pre Q) (add_sos_constraint accepts x).
Proof. intros Hne. diff_tac. Qed.

Lemma remove_constraint_diff accepts (c x : conref) r wc cfg pre Q :
  x <> c ->
  preserves (diff_inv c r wc cfg pre Q) (remove_constraint accepts x).
Proof. intros Hne. diff_tac. Qed.

Lemma remove_sos_constraint_diff accepts (c x : conref) r wc cfg pre Q :
  x <> c ->
  preserves (diff_inv c r wc cfg pre Q) (remove_sos_constraint accepts x).
Proof. intros Hne. diff_tac. Qed.

Ltac diff_lists :=
  idtac;
  lazymatch goal with
  | |- preserves _ (add_constraint _ _ _) =>
      apply add_constraint_diff; congruence
  | |- preserves _ (add_sos_constraint _ _) =>
      apply add_sos_constraint_diff; congruence
  | |- preserves _ (remove_constraint _ _) =>
      apply remove_constraint_diff; congruence
  | |- preserves _ (remove_sos_constraint _ _) =>
      apply remove_sos_constraint_diff; congruence
  end.

Ltac diff_top := preserves_go diff_lists; diff_close.

Lemma add_constraints_diff accepts (c : conref) r wc cfg pre Q l :
  ~ In c l ->
  preserves (diff_inv c r wc cfg pre Q) (add_constraints accepts l).
Proof. intros Hc. diff_top. Qed.

Lemma remove_constraints_diff accepts (c : conref) r wc cfg pre Q l :
  ~ In c l ->
  preserves (diff_inv c r wc cfg pre Q) (remove_constraints accepts l).
Proof. intros Hc. diff_top. Qed.

Lemma add_sos_constraints_diff accepts (c : conref) r wc cfg pre Q l :
  (forall x, In x l -> x <> c) ->
  preserves (diff_inv c r wc cfg pre Q) (add_sos_constraints accepts l).
Proof.
  intros Hc. unfold add_sos_constraints. apply preserves_bind.
  - apply preserves_for_each. intros x Hx. apply add_sos_constraint_diff. auto.
  - intros _. diff_tac.
Qed.

Lemma remove_sos_constraints_diff accepts (c : conref) r wc cfg pre Q l :
  (forall x, In x l -> x <> c) ->
  preserves (diff_inv c r wc cfg pre Q) (remove_sos_constraints accepts l).
Proof.
  intros Hc. unfold remove_sos_constraints. apply preserves_bind.
  - diff_tac.
  - intros _. apply preserves_for_each. intros x Hx.
    apply remove_sos_constraint_diff. auto.
Qed.

Lemma update_rest_diff accepts (c : conref) r wc cfg pre Q :
  (forall l, preserves (diff_inv c r wc cfg pre Q)
                       (remove_params accepts l)) /\
  preserves (diff_inv c r wc cfg pre Q) (update_params accepts) /\
  (forall l, preserves (diff_inv c r wc cfg pre Q) (add_params accepts l)) /\
  (forall l, preserves (diff_inv c r wc cfg pre Q)
                       (add_variables accepts l)) /\
  (forall l, preserves (diff_inv c r wc cfg pre Q)
                       (update_variables accepts l)) /\
  (forall o, preserves (diff_inv c r wc cfg pre Q)
                       (set_objective accepts o)) /\
  (forall l, preserves (diff_inv c r wc cfg pre Q)
                       (remove_variables accepts l)).
Proof.
  split; [intros; diff_tac|]. split; [diff_tac|].
  split; [intros; diff_tac|]. split; [intros; diff_tac|].
  split; [intros; diff_tac|]. split; intros; diff_tac.
Qed.

Lemma remove_constraints_trace accepts (l : list conref) (s : sys) :
  exists evs,
    trace (fst (remove_constraints accepts l s)) =
    trace s ++ RemoveConstraints l :: evs.
Proof.
  unfold remove_constraints, _remove_constraints. rewrite bind_backend.
  destruct (accepts (trace s) (RemoveConstraints l)).
  - match goal with
    | |- context [for_each ?f l ?s0] =>
        assert (Hp : preserves (trace_from (trace s0)) (for_each f l))
          by trace_tac;
        destruct (Hp s0 (trace_from_refl s0)) as [evs Ht]
    end.
    exists evs. rewrite Ht. simpl. rewrite <- app_assoc. reflexivity.
  - exists []. reflexivity.
Qed.

Lemma add_constraints_trace accepts (l : list conref) (s s' : sys) :
  add_constraints accepts l s = (s', Ok tt) ->
  exists evs, trace s' = trace s ++ evs ++ [AddConstraints l].
Proof.
  unfold add_constraints. intros H.
  apply bind_ok in H. destruct H as (s1 & afv & Hloop & H).
  assert (T1 : trace_from (trace s) s1)
    by (frame_with (trace_from (trace s)) Hloop trace_tac;
        apply trace_from_refl).
  unfold _add_constraints in H. rewrite bind_backend in H.
  destruct (accepts (trace s1) (AddConstraints l)); [|discriminate H].
  assert (T2 : trace s' = trace s1 ++ [AddConstraints l]).
  { frame_with (fun x : sys => trace x = trace s1 ++ [AddConstraints l])
               H ltac:(preserves_auto; intros ? A; exact A).
    reflexivity. }
  destruct T1 as [evs T1]. exists evs. rewrite T2, T1, <- app_assoc.
  reflexivity.
Qed.

Lemma named_list_quiet (c : conref) (w : world) (skip : list conref)
      (d : dict conref (list (ident * ident))) :
  (forall l, In (c, l) d -> named_changed w l = false) ->
  ~ In c (map fst (filter (fun ce => negb (mem (fst ce) skip)
                                     && named_changed w (snd ce)) d)).
Proof.
  intros Hq Hc. apply in_map_iff in Hc. destruct Hc as ([c0 l] & Heq & Hc).
  simpl in Heq. subst c0. apply filter_In in Hc. destruct Hc as [Hc Hp].
  simpl in Hp. rewrite (Hq l Hc), andb_false_r in Hp. discriminate.
Qed.

(** The run of [update] for a constraint [c] that is active in the model
    and has been added before: when the pass completes, [c] is removed and
    added again if the check of its record finds it changed; it is left
    alone if the check finds it unchanged, no change of a fixed variable
    can queue it, and none of its named expressions has been redefined. *)
Lemma update_constraint_diff accepts (s s' : sys) (m i : ident) rec :
  update_constraints (_update_config (solver s)) = true ->
  _model (solver s) = Some m ->
  In i (b_cons (w_block (source s) m)) ->
  dict_mem (GenCon i) (_vars_referenced_by_con (solver s)) = true ->
  dict_get (GenCon i) (_active_constraints (solver s)) = Some (Some rec) ->
  update accepts s = (s', Ok tt) ->
  (constraint_changed rec (w_con (source s) i) = true ->
   removed_and_added_again (GenCon i) (trace s) s') /\
  (constraint_changed rec (w_con (source s) i) = false ->
   update_vars (_update_config (solver s))
   && treat_fixed_vars_as_params (_update_config (solver s)) = false ->
   (update_named_expressions (_update_config (solver s)) = true ->
    forall l, In (GenCon i, l) (_named_expressions (solver s)) ->
              named_changed (source s) l = false) ->
   con_left_alone (GenCon i) (trace s) s').
Proof.
  intros Huc Hm Hin Htk Hrec H.
  unfold update in H. rewrite bind_get in H. cbv zeta in H.
  apply bind_ok in H. destruct H as (s1 & [[cvd new_vars] old_vars] & H1 & H).
  apply bind_ok in H. destruct H as (s2 & [new_params old_params] & H2 & H).
  apply bind_ok in H.
  destruct H as (s3 & [[[[ccd csd] new_cons] new_sos] old] & H3 & H).
  assert (E1 : s1 = s)
    by (frame_with (fun x : sys => x = s) H1 preserves_auto; reflexivity).
  subst s1. clear H1.
  assert (E2 : s2 = s)
    by (frame_with (fun x : sys => x = s) H2 preserves_auto; reflexivity).
  subst s2. clear H2.
  rewrite Huc, orb_true_r in H3.
  rewrite (bind_eq_ok _ _ _ _ _ (model_block_run s m Hm)) in H3.
  unfold ret in H3. injection H3 as Es Eccd Ecsd Enc Ens Eold. subst s3.
  set (c := GenCon i) in *.
  assert (Fcur : In c (dict_keys ccd)).
  { rewrite <- Eccd. apply dict_mem_keys. rewrite dict_of_keys_mem.
    apply mem_In. apply in_map. exact Hin. }
  assert (Fnew : ~ In c new_cons).
  { rewrite <- Enc. intros Hc. apply filter_In in Hc. destruct Hc as [_ Hc].
    rewrite Htk in Hc. discriminate. }
  assert (Fold : ~ In c old).
  { rewrite <- Eold. intros Hc. apply filter_In in Hc. destruct Hc as [_ Hc].
    apply dict_mem_keys in Fcur. rewrite <- Eccd in Fcur.
    rewrite Fcur in Hc. discriminate. }
  assert (Fsos : forall x, In x (dict_keys csd) -> x <> c).
  { rewrite <- Ecsd. intros x Hx. apply dict_mem_keys in Hx.
    rewrite dict_of_keys_mem in Hx. apply mem_In in Hx.
    apply in_map_iff in Hx. destruct Hx as (j & <- & _). discriminate. }
  assert (Fnsos : forall x, In x new_sos -> x <> c).
  { rewrite <- Ens, Ecsd. intros x Hx. apply filter_In in Hx.
    apply Fsos. apply Hx. }
  assert (Fosos : forall x,
             In x (filter (fun c0 => match c0 with
                                     | GenCon _ => false
                                     | SosCon _ => true
                                     end) old) -> x <> c).
  { intros x Hx ->. apply filter_In in Hx. destruct Hx as [_ Hx].
    discriminate. }
  assert (Fusos : forall x,
             In x (filter (fun c0 => negb (mem c0 new_sos)) (dict_keys csd)) ->
             x <> c).
  { intros x Hx. apply filter_In in Hx. apply Fsos. apply Hx. }
  clear Eccd Ecsd Enc Ens Eold.
  set (cfg := _update_config (solver s)) in *.
  set (wc := w_con (source s)) in *.
  set (Q := forall l, In (c, l) (_named_expressions (solver s)) ->
                      named_changed (source s) l = false).
  set (I := diff_inv c (Some rec) wc cfg (trace s) Q).
  assert (J : I s).
  { split; [split; auto|]. split; [reflexivity|]. split; [|auto].
    exists []. split; [symmetry; apply app_nil_r|]. intros l [[]|[]]. }
  destruct (update_rest_diff accepts c (Some rec) wc cfg (trace s) Q)
    as (Rrp & Rup & Rap & Rav & Ruv & Rso & Rrv).
  fold I in Rrp, Rup, Rap, Rav, Ruv, Rso, Rrv.
  apply bind_ok in H. destruct H as (s4 & u4 & P & H).
  apply (preserves_run I _ _ _ _
           (remove_constraints_diff accepts c _ _ _ _ _ _
              (fun Hc => Fold (proj1 (proj1 (filter_In _ _ _) Hc)))) P)
    in J.
  clear P. apply bind_ok in H. destruct H as (s5 & u5 & P & H).
  apply (preserves_run I _ _ _ _
           (remove_sos_constraints_diff accepts c _ _ _ _ _ _ Fosos) P) in J.
  clear P. apply bind_ok in H. destruct H as (s6 & u6 & P & H).
  apply (preserves_run I _ _ _ _ (Rrp _) P) in J.
  clear P. apply bind_ok in H. destruct H as (s7 & u7 & P & H).
  apply (preserves_run I _ _ _ _ (preserves_when _ _ _ Rup) P) in J.
  clear P. apply bind_ok in H. destruct H as (s8 & u8 & P & H).
  apply (preserves_run I _ _ _ _ (Rap _) P) in J.
  clear P. apply bind_ok in H. destruct H as (s9 & u9 & P & H).
  apply (preserves_run I _ _ _ _ (Rav _) P) in J.
  clear P. apply bind_ok in H. destruct H as (s10 & u10 & P & H).
  apply (preserves_run I _ _ _ _
           (add_constraints_diff accepts c _ _ _ _ _ _ Fnew) P) in J.
  clear P. apply bind_ok in H. destruct H as (s11 & u11 & P & H).
  apply (preserves_run I _ _ _ _
           (add_sos_constraints_diff accepts c _ _ _ _ _ _ Fnsos) P) in J.
  clear P. rewrite Huc in H. rewrite bind_assoc in H.
  apply bind_ok in H. destruct H as (s12 & d0 & P & H).
  apply check_constraints_run in P. destruct P as [-> Hd0].
  assert (Hc0 : dict_mem c d0 = constraint_changed rec (wc i)).
  { rewrite Hd0. destruct J as ([Jr Jw] & _ & _).
    subst c. unfold changed_at. rewrite Jr, Jw.
    replace (mem (GenCon i) (filter _ _)) with true; [reflexivity|].
    symmetry. apply mem_In. apply filter_In. split; [exact Fcur|].
    destruct (mem (GenCon i) new_cons) eqn:Hmem; [|reflexivity].
    apply mem_In in Hmem. contradiction. }
  clear Hd0.
  rewrite bind_assoc in H.
  apply bind_ok in H. destruct H as (s13 & u13 & P & H).
  apply (preserves_run I _ _ _ _
           (remove_sos_constraints_diff accepts c _ _ _ _ _ _ Fusos) P) in J.
  clear P. rewrite bind_assoc in H.
  apply bind_ok in H. destruct H as (s14 & u14 & P & H).
  apply (preserves_run I _ _ _ _
           (add_sos_constraints_diff accepts c _ _ _ _ _ _ Fusos) P) in J.
  clear P. rewrite bind_ret, bind_get in H.
  apply bind_ok in H. destruct H as (s15 & [q need] & P & H).
  cbv beta iota in H.
  assert (Hq : (dict_mem c d0 = true -> dict_mem c q = true) /\
               (update_vars cfg && treat_fixed_vars_as_params cfg = false ->
                q = d0) /\
               I s15).
  { destruct (update_vars cfg) eqn:Huv.
    - apply bind_ok in P. destruct P as (sv & [[vu q'] need'] & Pf & P).
      apply check_variables_queue in Pf.
      destruct Pf as (-> & Hmono & Hsame). simpl in Hmono, Hsame.
      cbv beta iota in P.
      apply bind_ok in P. destruct P as (sw & uw & Pu & P).
      injection P as <- <- <-.
      assert (Hcfg : _update_config (solver s14) = cfg) by apply J.
      apply (preserves_run I _ _ _ _ (Ruv _) Pu) in J.
      split; [exact (Hmono c)|]. split; [|exact J].
      simpl. intros Ht. apply Hsame. rewrite Hcfg. exact Ht.
    - injection P as <- <- <-. auto. }
  clear P J. destruct Hq as (Hmono & Hsame & J).
  apply bind_ok in H. destruct H as (s16 & u16 & Prem & H).
  apply bind_ok in H. destruct H as (s17 & [] & Padd & H).
  split.
  - intros Hch. rewrite Hch in Hc0. specialize (Hmono Hc0).
    apply dict_mem_keys in Hmono.
    destruct J as (_ & _ & (evs0 & T0 & _) & _).
    destruct (remove_constraints_trace accepts (dict_keys q) s15)
      as [evs1 T1].
    rewrite Prem in T1. simpl in T1.
    destruct (add_constraints_trace accepts _ _ _ Padd) as [evs2 T2].
    assert (T3 : trace_from (trace s17) s').
    { frame_with (trace_from (trace s17)) H trace_tac.
      apply trace_from_refl. }
    destruct T3 as [evs3 T3].
    exists (dict_keys q), evs0, (evs1 ++ evs2), evs3.
    split; [|exact Hmono].
    rewrite T3, T2, T1, T0. repeat rewrite <- app_assoc. simpl.
    repeat rewrite <- app_assoc. reflexivity.
  - intros Hch Hflags Hnamed. rewrite Hch in Hc0.
    rewrite (Hsame Hflags) in *.
    assert (Fq : ~ In c (dict_keys d0)).
    { intros Hc. apply dict_mem_keys in Hc. congruence. }
    apply (preserves_run I _ _ _ _
             (remove_constraints_diff accepts c _ _ _ _ _ _ Fq) Prem) in J.
    apply (preserves_run I _ _ _ _
             (add_constraints_diff accepts c _ _ _ _ _ _ Fq) Padd) in J.
    apply bind_ok in H. destruct H as (s18 & need1 & P & H).
    assert (J18 : I s18).
    { destruct (update_named_expressions cfg) eqn:Hune.
      - rewrite bind_get, bind_get_world in P.
        assert (Fn : ~ In c (map fst
                     (filter (fun ce => negb (mem (fst ce) new_cons)
                                        && named_changed (source s17) (snd ce))
                             (_named_expressions (solver s17))))).
        { apply named_list_quiet. apply J. exact (Hnamed eq_refl). }
        apply bind_ok in P. destruct P as (sa & ua & Pa & P).
        apply (preserves_run I _ _ _ _
                 (remove_constraints_diff accepts c _ _ _ _ _ _ Fn) Pa) in J.
        apply bind_ok in P. destruct P as (sb & ub & Pb & P).
        apply (preserves_run I _ _ _ _
                 (add_constraints_diff accepts c _ _ _ _ _ _ Fn) Pb) in J.
        rewrite bind_get, bind_get_world in P. injection P as <- _.
        exact J.
      - injection P as <- _. exact J. }
    assert (J' : I s').
    { frame_with I H ltac:(subst I; diff_tac). exact J18. }
    apply J'.
Qed.

(** ** The check of the constraints in [update] *)



(** C5, as amended: in a pass of [update] that checks the constraints
    ([update_constraints] is enabled) and completes, a constraint that is
    active in the model and has been added before, and whose body is not
    the object recorded when it was added, is removed from the backend and
    added again, whatever the new body looks like. *)
Theorem update_body_identity :
  forall accepts (s s' : sys) (m i : ident) (lower upper : bound)
         (body : ident),
    update_constraints (_update_config (solver s)) = true ->
    _model (solver s) = Some m ->
    In i (b_cons (w_block (source s) m)) ->
    dict_mem (GenCon i) (_vars_referenced_by_con (solver s)) = true ->
    dict_get (GenCon i) (_active_constraints (solver s)) =
      Some (Some (lower, body, upper)) ->
    eid (con_body (w_con (source s) i)) <> body ->
    update accepts s = (s', Ok tt) ->
    removed_and_added_again (GenCon i) (trace s) s'.
Proof.
  intros accepts s s' m i lower upper body Huc Hm Hin Htk Hrec Hne Hrun.
  apply (update_constraint_diff accepts s s' m i _ Huc Hm Hin Htk Hrec Hrun).
  apply constraint_changed_body. exact Hne.
Qed.

Lemma update_body_identity_witness :
  removed_and_added_again (GenCon 10)
    (trace (rebuilt config_all rebuilt_body))
    (fst (update always (rebuilt config_all rebuilt_body))).
Proof.
  refine (update_body_identity always
            (rebuilt config_all rebuilt_body)
            (fst (update always (rebuilt config_all rebuilt_body)))
            0 10 BNone (BConst 101 (Num 3)) 100 _ _ _ _ _ _ _).
  - vm_compute. reflexivity.
  - vm_compute. reflexivity.
  - vm_compute. left. reflexivity.
  - vm_compute. reflexivity.
  - vm_compute. reflexivity.
  - vm_compute. discriminate.
  - vm_compute. reflexivity.
Defined.

(** C5, as stated, fails when [update_constraints] is disabled: the body
    of [c10] is another object than the one recorded, the pass completes,
    and the backend is not asked to remove [c10]. *)
Lemma update_body_identity_counterexample :
  dict_get (GenCon 10)
    (_active_constraints
       (solver (rebuilt config_no_update_constraints rebuilt_body))) =
    Some (Some (BNone, 100, BConst 101 (Num 3))) /\
  eid (con_body (w_con (source (rebuilt config_no_update_constraints
                                  rebuilt_body)) 10)) = 200 /\
  snd (update always (rebuilt config_no_update_constraints rebuilt_body)) =
    Ok tt /\
  ~ removed_and_added_again (GenCon 10)
      (trace (rebuilt config_no_update_constraints rebuilt_body))
      (fst (update always (rebuilt config_no_update_constraints
                             rebuilt_body))).
Proof.
  split; [vm_compute; reflexivity|]. split; [vm_compute; reflexivity|].
  split; [vm_compute; reflexivity|].
  intros (l & evs1 & evs2 & evs3 & Ht & Hin).
  assert (Hev : In (RemoveConstraints l)
                   (trace (fst (update always
                                  (rebuilt config_no_update_constraints
                                           rebuilt_body))))).
  { rewrite Ht. apply in_or_app. right. apply in_or_app. right.
    left. reflexivity. }
  vm_compute in Hev.
  repeat (destruct Hev as [Hev|Hev];
          [try discriminate Hev; injection Hev as <-; destruct Hin|]).
  destruct Hev.
Qed.

(** ** The two tables of variables *)

(** C9, as amended: in every state of a solver object that is used
    through its public operations, with [update_variables] given tracked
    variables only, the variables with a record in [_vars] are exactly
    those with an entry in [_referenced_variables], after every operation
    and whether it returned or raised. *)
Theorem tables_agree_in_use :
  forall accepts (s : sys), in_use accepts s -> tables_agree s.
Proof.
  intros accepts s Hs. induction Hs as [cfg ocv w|s c Hs IH Hc|s w Hs IH].
  - intros v. reflexivity.
  - destruct c; simpl in *.
    + apply set_instance_agree.
    + apply add_variables_agree; exact IH.
    + apply add_params_agree; exact IH.
    + apply add_constraints_agree; exact IH.
    + apply add_sos_constraints_agree; exact IH.
    + apply set_objective_agree; exact IH.
    + apply add_block_agree; exact IH.
    + apply remove_constraints_agree; exact IH.
    + apply remove_sos_constraints_agree; exact IH.
    + apply remove_variables_agree; exact IH.
    + apply remove_params_agree; exact IH.
    + apply remove_block_agree; exact IH.
    + apply update_variables_agree; [exact IH|].
      intros v Hv. rewrite (IH v). auto.
    + apply update_agree; exact IH.
  - exact IH.
Qed.

Lemma tables_agree_in_use_witness :
  tables_agree
    (fst (perform always CallUpdate
            (fst (perform always (CallUpdateVariables [1; 2])
                    {| solver := solver (fst (perform always (CallSetInstance 0)
                                                small_start));
                       source := source (rebuilt config_all rebuilt_body);
                       trace := trace (fst (perform always (CallSetInstance 0)
                                              small_start)) |})))).
Proof.
  refine (tables_agree_in_use always _ _).
  apply in_use_call; [|exact I].
  apply in_use_call.
  - apply in_use_edit. apply in_use_call; [|exact I].
    exact (in_use_init always config_all false small_world).
  - intros v Hv. simpl in Hv.
    destruct Hv as [<-|[<-|[]]]; vm_compute; reflexivity.
Defined.

(** C9, as stated, fails for [update_variables] on a variable that is not
    tracked: on a new solver object it gives [x5] a record in [_vars] and
    no entry in [_referenced_variables]. *)
Lemma update_variables_untracked_counterexample :
  tables_agree small_start /\
  snd (update_variables always [5] small_start) = Ok tt /\
  ~ tables_agree (fst (update_variables always [5] small_start)).
Proof.
  split; [intros v; reflexivity|]. split; [vm_compute; reflexivity|].
  intros H. specialize (H 5). vm_compute in H. discriminate H.
Qed.

(** ** Replacing the objective *)




(** ** SOS constraints in [update] *)

Lemma remove_sos_constraints_trace accepts (l : list conref) (s : sys) :
  exists evs,
    trace (fst (remove_sos_constraints accepts l s)) =
    trace s ++ RemoveSosConstraints l :: evs.
Proof.
  unfold remove_sos_constraints, _remove_sos_constraints.
  rewrite bind_backend.
  destruct (accepts (trace s) (RemoveSosConstraints l)).
  - match goal with
    | |- context [for_each ?f l ?s0] =>
        assert (Hp : preserves (trace_from (trace s0)) (for_each f l))
          by trace_tac;
        destruct (Hp s0 (trace_from_refl s0)) as [evs Ht]
    end.
    exists evs. rewrite Ht. simpl. rewrite <- app_assoc. reflexivity.
  - exists []. reflexivity.
Qed.

Lemma add_sos_constraints_trace accepts (l : list conref) (s s' : sys) :
  add_sos_constraints accepts l s = (s', Ok tt) ->
  exists evs, trace s' = trace s ++ evs ++ [AddSosConstraints l].
Proof.
  unfold add_sos_constraints. intros H.
  apply bind_ok in H. destruct H as (s1 & u & Hloop & H).
  assert (T1 : trace_from (trace s) s1)
    by (frame_with (trace_from (trace s)) Hloop trace_tac;
        apply trace_from_refl).
  unfold _add_sos_constraints in H. rewrite backend_run in H.
  injection H as <- _. simpl.
  destruct T1 as [evs T1]. exists evs. rewrite T1, <- app_assoc.
  reflexivity.
Qed.

(** X17: a pass of [update] that checks the constraints and completes
    removes and adds again every SOS constraint that is active in the model
    and has been added before, whether or not anything changed: the backend
    is asked to remove, and later to add, a list that holds it. *)
Theorem update_readds_sos_constraints :
  forall accepts (s s' : sys) (m j : ident),
    update_constraints (_update_config (solver s)) = true ->
    _model (solver s) = Some m ->
    In j (b_sos (w_block (source s) m)) ->
    dict_mem (SosCon j) (_vars_referenced_by_con (solver s)) = true ->
    update accepts s = (s', Ok tt) ->
    sos_removed_and_added_again (SosCon j) (trace s) s'.
Proof.
  intros accepts s s' m j Huc Hm Hin Htk H.
  unfold update in H. rewrite bind_get in H. cbv zeta in H.
  apply bind_ok in H. destruct H as (s1 & [[cvd new_vars] old_vars] & H1 & H).
  apply bind_ok in H. destruct H as (s2 & [new_params old_params] & H2 & H).
  apply bind_ok in H.
  destruct H as (s3 & [[[[ccd csd] new_cons] new_sos] old] & H3 & H).
  assert (E1 : s1 = s)
    by (frame_with (fun x : sys => x = s) H1 preserves_auto; reflexivity).
  subst s1. clear H1.
  assert (E2 : s2 = s)
    by (frame_with (fun x : sys => x = s) H2 preserves_auto; reflexivity).
  subst s2. clear H2.
  rewrite Huc, orb_true_r in H3.
  rewrite (bind_eq_ok _ _ _ _ _ (model_block_run s m Hm)) in H3.
  unfold ret in H3. injection H3 as Es Eccd Ecsd Enc Ens Eold. subst s3.
  set (c := SosCon j) in *.
  assert (Fc : In c (filter (fun c0 => negb (mem c0 new_sos))
                            (dict_keys csd))).
  { apply filter_In. split.
    - rewrite <- Ecsd. apply dict_mem_keys. rewrite dict_of_keys_mem.
      apply mem_In. apply in_map. exact Hin.
    - destruct (mem c new_sos) eqn:Hmem; [|reflexivity].
      apply mem_In in Hmem. rewrite <- Ens in Hmem.
      apply filter_In in Hmem. destruct Hmem as [_ Hmem].
      rewrite Htk in Hmem. discriminate. }
  clear Eccd Ecsd Enc Ens Eold.
  rewrite Huc in H.
  assert (T : trace_from (trace s) s) by apply trace_from_refl.
  do 8 (apply bind_ok in H; destruct H as (? & ? & P & H);
        match type of P with
        | ?f ?s0 = _ =>
            assert (Hp : preserves (trace_from (trace s)) f) by trace_tac;
            apply (preserves_run _ _ _ _ _ Hp P) in T; clear Hp P
        end).
  rewrite bind_assoc in H.
  apply bind_ok in H. destruct H as (s12 & d0 & P & H).
  apply check_constraints_run in P. destruct P as [-> _].
  rewrite bind_assoc in H.
  apply bind_ok in H. destruct H as (s13 & u13 & Prem & H).
  rewrite bind_assoc in H.
  apply bind_ok in H. destruct H as (s14 & [] & Padd & H).
  destruct T as [evs0 T0].
  match type of Prem with
  | remove_sos_constraints _ ?l ?s9 = _ =>
      destruct (remove_sos_constraints_trace accepts l s9) as [evs1 T1]
  end.
  rewrite Prem in T1. simpl in T1.
  destruct (add_sos_constraints_trace accepts _ _ _ Padd) as [evs2 T2].
  assert (T3 : trace_from (trace s14) s').
  { frame_with (trace_from (trace s14)) H trace_tac. apply trace_from_refl. }
  destruct T3 as [evs3 T3].
  eexists _, evs0, (evs1 ++ evs2), evs3. split; [|exact Fc].
  rewrite T3, T2, T1, T0. repeat rewrite <- app_assoc. simpl.
  repeat rewrite <- app_assoc. reflexivity.
Qed.

Lemma update_readds_sos_constraints_witness :
  sos_removed_and_added_again (SosCon 20) (trace small_model)
    (fst (update always small_model)).
Proof.
  refine (update_readds_sos_constraints always small_model
            (fst (update always small_model)) 0 20 _ _ _ _ _).
  - vm_compute. reflexivity.
  - vm_compute. reflexivity.
  - vm_compute. left. reflexivity.
  - vm_compute. reflexivity.
  - vm_compute. reflexivity.
Defined.
